(** * Factory graph builder of [model_factory_generator.py]

    A shallow embedding of [factory_generator] and of the closures it
    returns ([make_factory], [RegistryModelFactory._create], the
    [many_to_one] hook), with the registries and the live model classes
    as an explicit store. *)

From Stdlib Require Import ZArith String List Lia.
From stdpp Require Import base gmap strings list.

Open Scope string_scope.
Set Warnings "-register-all".

(** ** Python values *)

(** Keyword arguments of a [factory.Faker] declaration. *)
Inductive faker_kwargs :=
| NoKwargs
| MaxChars (max_chars : Z)
| Elements (elements : list string).

(** The declarations [data_providers] can return: [factory.Faker(p, ...)]
    and [FuzzyFloat(low)] (the literal [0.0] is kept as the integer 0). *)
Inductive declaration :=
| Faker (provider : string) (kwargs : faker_kwargs)
| FuzzyFloat (low : Z).

(** Values an override table can hold: what [json.load] yields, string
    literals, and declaration objects. *)
Inductive pyvalue :=
| PyNone
| PyBool (b : bool)
| PyInt (z : Z)
| PyStr (s : string)
| PyList (items : list pyvalue)
| PyDict (items : list (string * pyvalue))
| PyObject (d : declaration).

(** Python truth value, as tested by [if override:]. *)
Definition truthy (v : pyvalue) : bool :=
  match v with
  | PyNone => false
  | PyBool b => b
  | PyInt z => negb (z =? 0)%Z
  | PyStr s => negb (String.eqb s "")
  | PyList l => match l with [] => false | _ => true end
  | PyDict d => match d with [] => false | _ => true end
  | PyObject _ => true
  end.

(** ** Schema objects *)

(** [type(col.type)] together with the attributes of the type instance the
    providers read.  [OtherType] stands for any SQLAlchemy type class that
    is not a key of [data_providers] (Text, BigInteger, Date, ...). *)
Inductive coltype :=
| UUID
| String_ (length : option Z)
| Integer
| Float
| Boolean
| DateTime
| Enum (enums : list string)
| ENUM (enums : list string)
| JSON
| JSONB
| OtherType (class_name : string).

(** A column of [model.__table__.c._all_columns].  [foreign_keys] lists the
    [column.table.fullname] of each foreign key, in iteration order. *)
Record column := {
  key : string;
  name : string;
  type : coltype;
  primary_key : bool;
  foreign_keys : list string;
}.

(** A member of [model.__mapper__.relationships].  [local_columns] holds
    the keys of the local join columns, in iteration order; [target] is
    [relationship.target.fullname]. *)
Record relationship := {
  rel_key : string;
  local_columns : list string;
  target : string;
  uselist : bool;
}.

(** The part of a model class the builder only reads.  [class_id] is the
    identity of the class object. *)
Record model := {
  class_id : nat;
  __name__ : string;
  __tablename__ : string;
  fullname : string;
  columns : list column;
}.

(** ** String slices *)

(** [s[-3:]] *)
Definition last3 (s : string) : string :=
  substring (String.length s - 3) 3 s.

(** [s[:-3]] *)
Definition drop_last3 (s : string) : string :=
  substring 0 (String.length s - 3) s.

(** ** Factories, instances and the store *)

(** References into the heaps of factory classes and of instances. *)
Abbreviation factory_ref := nat.
Abbreviation inst_ref := nat.

(** A value of the [factory_attributes] dict. *)
Inductive attribute :=
| Value (v : pyvalue)
| SubFactory (model_factory : factory_ref)
| PostGeneration (model_factory : factory_ref) (relation_name : string)
| Meta (m : model).

(** The class [type(model.__name__, (RegistryModelFactory,), attrs)]. *)
Record factory := {
  factory_name : string;
  factory_attributes : list (string * attribute);
}.

(** An attribute of a model class: one the class was declared with (a
    mapped column, a relationship), or the [relationship(argument)] that
    [setattr] stores. *)
Inductive class_attr :=
| Declared
| RelationshipProperty (argument : string).

(** The part of a model class that changes while factories are built:
    the relationships of its mapper, the attributes [hasattr] finds on the
    class, and [serialize_rules] if the class has it. *)
Record class_state := {
  relationships : list relationship;
  class_attrs : gmap string class_attr;
  serialize_rules : option (list string);
}.

Inductive field :=
| Plain (v : pyvalue)
| Generated (d : declaration)
| Related (i : inst_ref)
| Collection (items : list inst_ref).

Record instance := {
  instance_of : model;
  fields : list (string * field);
}.

Record state := {
  classes : nat -> class_state;
  factories : list factory;
  factory_registry : gmap string factory_ref;
  instances : list instance;
  model_instance_registry : gmap string inst_ref;
}.

(** ** Insertion-ordered dicts *)

Section dict.
Context {V : Type}.

Fixpoint dict_get (k : string) (d : list (string * V)) : option V :=
  match d with
  | [] => None
  | (k', v) :: rest => if String.eqb k k' then Some v else dict_get k rest
  end.

(** [d[k] = v]: an existing key keeps its position. *)
Fixpoint dict_set (k : string) (v : V) (d : list (string * V)) : list (string * V) :=
  match d with
  | [] => [(k, v)]
  | (k', v') :: rest =>
      if String.eqb k k' then (k, v) :: rest else (k', v') :: dict_set k v rest
  end.

End dict.

(** ** Exceptions and the store monad *)

(** [AmbiguousForeignKeysError] and [NoForeignKeysError] are the
    exceptions of SQLAlchemy.  [DanglingReference] has no Python
    counterpart: a reference always denotes a live object there.  It makes
    heap lookups total. *)
Inductive error :=
| KeyError (k : string)
| StopIteration
| AttributeError (k : string)
| TypeError (k : string)
| IndexError
| AmbiguousForeignKeysError
| NoForeignKeysError
| DanglingReference.

Inductive outcome (A : Type) :=
| Return (a : A)
| Raise (e : error)
| OutOfFuel.
Arguments Return {A} a.
Arguments Raise {A} e.
Arguments OutOfFuel {A}.

Definition M (A : Type) : Type := state -> outcome A * state.

Definition ret {A} (a : A) : M A := fun st => (Return a, st).
Definition raise {A} (e : error) : M A := fun st => (Raise e, st).
Definition out_of_fuel {A} : M A := fun st => (OutOfFuel, st).

Definition bind {A B} (m : M A) (k : A -> M B) : M B :=
  fun st =>
    match m st with
    | (Return a, st') => k a st'
    | (Raise e, st') => (Raise e, st')
    | (OutOfFuel, st') => (OutOfFuel, st')
    end.

Notation "x <- m ;; k" := (bind m (fun x => k))
  (at level 100, m at next level, right associativity).

(** ** Store updates *)

Definition set_class (st : state) (id : nat) (c : class_state) : state :=
  {| classes := fun id' => if Nat.eqb id' id then c else classes st id';
     factories := factories st;
     factory_registry := factory_registry st;
     instances := instances st;
     model_instance_registry := model_instance_registry st |}.

(** [factory_registry[table_name] = type(name, bases, attrs)]: the new class
    object gets the next free reference. *)
Definition register_factory (table_name : string) (f : factory) : M factory_ref :=
  fun st =>
    let ref := List.length (factories st) in
    (Return ref,
     {| classes := classes st;
        factories := (factories st ++ [f])%list;
        factory_registry := <[table_name := ref]> (factory_registry st);
        instances := instances st;
        model_instance_registry := model_instance_registry st |}).

(** Replace the relationship with the same key, else append. *)
Fixpoint add_property (r : relationship) (rels : list relationship) : list relationship :=
  match rels with
  | [] => [r]
  | r' :: rest =>
      if String.eqb (rel_key r) (rel_key r') then r :: rest
      else r' :: add_property r rest
  end.

(** The keys of the columns of [m] that have a foreign key to the table
    [t], one entry for each such foreign key. *)
Definition foreign_key_columns (m : model) (t : string) : list string :=
  flat_map (fun c =>
              flat_map (fun fk => if String.eqb fk t then [key c] else [])
                (foreign_keys c))
    (columns m).

Definition primary_key_columns (m : model) : list string :=
  key <$> List.filter primary_key (columns m).

(** The relationship [r] joins the mapper of [m] and is found on the
    class under its key. *)
Definition add_relationship (m : model) (r : relationship) (argument : string)
    (st : state) : state :=
  let c := classes st (class_id m) in
  set_class st (class_id m)
    {| relationships := add_property r (relationships c);
       class_attrs := <[rel_key r := RelationshipProperty argument]> (class_attrs c);
       serialize_rules := serialize_rules c |}.

(** [setattr(model, relation_name, model_relationship(foreign_model.__name__))].
    The mapper of [model] is configured by then (line 91 has read its
    relationships), so the declarative metaclass adds the relationship to
    the mapper and SQLAlchemy initialises it at once, from the foreign
    keys that link the two tables in either direction, each foreign key
    being a constraint of its own:
    - none: [NoForeignKeysError];
    - more than one: [AmbiguousForeignKeysError];
    - one, on a column of [model]: many-to-one over that column;
    - one, on a column of the target, or of [model] when the target is
      [model]'s own table: one-to-many over the referenced column, taken to
      be the primary key.
    An error leaves the class as it was: what SQLAlchemy leaves of the
    relationship on the mapper then is not modelled. *)
Definition setattr_relationship (m : model) (relation_name : string)
    (foreign_model : model) : M unit :=
  fun st =>
    let own_table := String.eqb (fullname m) (fullname foreign_model) in
    let many_to_one local :=
      {| rel_key := relation_name; local_columns := [local];
         target := fullname foreign_model; uselist := false |} in
    let one_to_many :=
      {| rel_key := relation_name; local_columns := primary_key_columns m;
         target := fullname foreign_model; uselist := true |} in
    match foreign_key_columns m (fullname foreign_model),
          (if own_table then [] else foreign_key_columns foreign_model (fullname m)) with
    | [], [] => (Raise NoForeignKeysError, st)
    | [local], [] =>
        (Return tt,
         add_relationship m (if own_table then one_to_many else many_to_one local)
           (__name__ foreign_model) st)
    | [], [_] => (Return tt, add_relationship m one_to_many (__name__ foreign_model) st)
    | _, _ => (Raise AmbiguousForeignKeysError, st)
    end.

(** [if hasattr(model, "serialize_rules"):
       model.serialize_rules = model.serialize_rules + (f"-{relation_name}",)] *)
Definition exclude_from_serialization (m : model) (relation_name : string) : M unit :=
  fun st =>
    let c := classes st (class_id m) in
    match serialize_rules c with
    | Some rules =>
        (Return tt,
         set_class st (class_id m)
           {| relationships := relationships c;
              class_attrs := class_attrs c;
              serialize_rules := Some (rules ++ [String.append "-" relation_name])%list |})
    | None => (Return tt, st)
    end.

(** ** [data_providers] *)

Definition type_length (t : coltype) : option Z :=
  match t with String_ l => l | _ => None end.

Definition type_enums (t : coltype) : list string :=
  match t with Enum e | ENUM e => e | _ => [] end.

Definition type_class (t : coltype) : string :=
  match t with
  | UUID => "UUID" | String_ _ => "String" | Integer => "Integer"
  | Float => "Float" | Boolean => "Boolean" | DateTime => "DateTime"
  | Enum _ => "Enum" | ENUM _ => "postgresql.ENUM" | JSON => "JSON"
  | JSONB => "postgresql.JSONB" | OtherType n => n
  end.

(** [length or 36] *)
Definition or_int (x : option Z) (d : Z) : Z :=
  match x with
  | Some z => if (z =? 0)%Z then d else z
  | None => d
  end.

(** The dict [data_providers], looked up by [type(col.type)]; [None] is a
    missing key. *)
Definition data_providers (t : coltype) : option (column -> pyvalue) :=
  match t with
  | UUID => Some (fun _ => PyObject (Faker "uuid4" NoKwargs))
  | String_ _ =>
      Some (fun col =>
              if negb (primary_key col)
              then PyObject (Faker "pystr" (MaxChars (or_int (type_length (type col)) 36)))
              else PyObject (Faker "uuid4" NoKwargs))
  | Integer => Some (fun _ => PyObject (Faker "random_int" NoKwargs))
  | Float => Some (fun _ => PyObject (FuzzyFloat 0))
  | Boolean => Some (fun _ => PyObject (Faker "pybool" NoKwargs))
  | DateTime => Some (fun _ => PyObject (Faker "date_this_month" NoKwargs))
  | Enum _ =>
      Some (fun col => PyObject (Faker "random_element" (Elements (type_enums (type col)))))
  | ENUM _ =>
      Some (fun col => PyObject (Faker "random_element" (Elements (type_enums (type col)))))
  | JSON => Some (fun _ => PyDict [])
  | JSONB => Some (fun _ => PyDict [])
  | OtherType _ => None
  end.

(** ** The relationship resolver (lines 89-107 of [make_factory]) *)

Record dynamic_relationship := {
  foreign_table_name : string;
  relation_name : string;
}.

(** [{next(iter(relation.local_columns)).key for relation in relationships}];
    [None] when [next] raises [StopIteration]. *)
Fixpoint relation_cols (rels : list relationship) : option (gset string) :=
  match rels with
  | [] => Some ∅
  | relation :: rest =>
      match local_columns relation with
      | [] => None
      | c :: _ => (fun s => {[c]} ∪ s) <$> relation_cols rest
      end
  end.

Definition _generate_many_to_one (model_factory : factory_ref)
    (relation_name : string) : attribute :=
  PostGeneration model_factory relation_name.

Section closure.

(** The closure variables of [factory_generator]: the models of
    [models_module] by [__tablename__], and the overrides. *)
Variable tables_to_models : gmap string model.
Variable overrides : gmap string (gmap string pyvalue).

Definition attrs := list (string * attribute).

(** [(overrides.get(table_name) or {}).get(col.name)] *)
Definition get_override (table_name : string) (col : column) : option pyvalue :=
  default ∅ (overrides !! table_name) !! name col.

(** Lines 109-114: the override if it is truthy, else the provider. *)
Definition column_value (table_name : string) (col : column)
    (factory_attributes : attrs) : error + attrs :=
  match get_override table_name col with
  | Some override =>
      if truthy override
      then inr (dict_set (name col) (Value override) factory_attributes)
      else
        match data_providers (type col) with
        | Some provider => inr (dict_set (name col) (Value (provider col)) factory_attributes)
        | None => inl (KeyError (type_class (type col)))
        end
  | None =>
      match data_providers (type col) with
      | Some provider => inr (dict_set (name col) (Value (provider col)) factory_attributes)
      | None => inl (KeyError (type_class (type col)))
      end
  end.

(** One iteration of [for col in model.__table__.c._all_columns]. *)
Definition column_step (table_name : string) (relation_cols : gset string)
    (col : column) (acc : attrs * list dynamic_relationship)
    : error + (attrs * list dynamic_relationship) :=
  let '(factory_attributes, dynamic_relationships) := acc in
  match foreign_keys col with
  | fk :: _ =>
      if bool_decide (key col ∈ relation_cols) || negb (String.eqb (last3 (key col)) "_id")
      then inr acc
      else
        match column_value table_name col factory_attributes with
        | inr factory_attributes' =>
            inr (factory_attributes',
                 (dynamic_relationships ++
                    [{| foreign_table_name := fk;
                        relation_name := drop_last3 (key col) |}])%list)
        | inl e => inl e
        end
  | [] =>
      match column_value table_name col factory_attributes with
      | inr factory_attributes' => inr (factory_attributes', dynamic_relationships)
      | inl e => inl e
      end
  end.

Fixpoint column_loop (table_name : string) (relation_cols : gset string)
    (cols : list column) (acc : attrs * list dynamic_relationship)
    : error + (attrs * list dynamic_relationship) :=
  match cols with
  | [] => inr acc
  | col :: rest =>
      match column_step table_name relation_cols col acc with
      | inr acc' => column_loop table_name relation_cols rest acc'
      | inl e => inl e
      end
  end.

(** [tables_to_models[foreign_table_name]] *)
Definition lookup_model (foreign_table_name : string) : M model :=
  match tables_to_models !! foreign_table_name with
  | Some foreign_model => ret foreign_model
  | None => raise (KeyError foreign_table_name)
  end.

(** Lines 116-129; [rec] is the recursive [make_factory]. *)
Fixpoint relationship_loop (rec : model -> option (gset string) -> M factory_ref)
    (processed_tables : gset string) (rels : list relationship)
    (factory_attributes : attrs) : M attrs :=
  match rels with
  | [] => ret factory_attributes
  | relationship :: rest =>
      if bool_decide (target relationship ∈ processed_tables)
      then relationship_loop rec processed_tables rest factory_attributes
      else
        foreign_model <- lookup_model (target relationship) ;;
        foreign_model_factory <- rec foreign_model (Some processed_tables) ;;
        relationship_loop rec processed_tables rest
          (dict_set (rel_key relationship)
             (if negb (uselist relationship)
              then SubFactory foreign_model_factory
              else _generate_many_to_one foreign_model_factory (rel_key relationship))
             factory_attributes)
  end.

(** Lines 131-146. *)
Fixpoint dynamic_loop (rec : model -> option (gset string) -> M factory_ref)
    (m : model) (processed_tables : gset string)
    (dynamic_relationships : list dynamic_relationship)
    (factory_attributes : attrs) : M attrs :=
  match dynamic_relationships with
  | [] => ret factory_attributes
  | d :: rest =>
      foreign_model <- lookup_model (foreign_table_name d) ;;
      foreign_model_factory <- rec foreign_model (Some processed_tables) ;;
      _ <- setattr_relationship m (relation_name d) foreign_model ;;
      _ <- exclude_from_serialization m (relation_name d) ;;
      dynamic_loop rec m processed_tables rest
        (dict_set (relation_name d) (SubFactory foreign_model_factory) factory_attributes)
  end.

(** The body of [make_factory] after a registry miss. *)
Definition build_factory (rec : model -> option (gset string) -> M factory_ref)
    (m : model) (processed_tables : option (gset string)) : M factory_ref :=
  fun st =>
    let table_name := fullname m in
    let processed_tables := {[table_name]} ∪ default ∅ processed_tables in
    let rels := relationships (classes st (class_id m)) in
    match relation_cols rels with
    | None => (Raise StopIteration, st)
    | Some rc =>
        match column_loop table_name rc (columns m) ([], []) with
        | inl e => (Raise e, st)
        | inr (factory_attributes, dynamic_relationships) =>
            (factory_attributes <- relationship_loop rec processed_tables rels factory_attributes ;;
             factory_attributes <- dynamic_loop rec m processed_tables
                                     dynamic_relationships factory_attributes ;;
             register_factory table_name
               {| factory_name := __name__ m;
                  factory_attributes := dict_set "Meta" (Meta m) factory_attributes |}) st
        end
    end.

(** [make_factory(model, processed_tables=None)].  The recursion of the
    source is not structural, so it is bounded by [fuel]; [OutOfFuel]
    means the calls nest deeper than [fuel]. *)
Fixpoint make_factory (fuel : nat) (m : model)
    (processed_tables : option (gset string)) : M factory_ref :=
  match fuel with
  | O => out_of_fuel
  | S fuel' =>
      fun st =>
        match factory_registry st !! fullname m with
        | Some f => (Return f, st)
        | None => build_factory (make_factory fuel') m processed_tables st
        end
  end.

End closure.

(** [factory_generator(models_module, overrides)]: the models of the
    module by [__tablename__], a later member replacing an earlier one of
    the same table, and [overrides or {}]; the result is [make_factory]. *)
Definition factory_generator (models_module : list model)
    (overrides : option (gmap string (gmap string pyvalue))) :=
  make_factory
    (fold_left (fun tables member => <[__tablename__ member := member]> tables)
       models_module ∅)
    (default ∅ overrides).

(** ** Running a factory *)

(** The new object gets the next free reference. *)
Definition add_instance (inst : instance) (st : state) : state :=
  {| classes := classes st;
     factories := factories st;
     factory_registry := factory_registry st;
     instances := (instances st ++ [inst])%list;
     model_instance_registry := model_instance_registry st |}.

(** The first keyword that is not an attribute of the class. *)
Fixpoint invalid_keyword (c : class_state) (kwargs : list (string * field))
    : option string :=
  match kwargs with
  | [] => None
  | (k, _) :: rest =>
      match class_attrs c !! k with
      | Some _ => invalid_keyword c rest
      | None => Some k
      end
  end.

(** [super()._create(model_class, **kwargs)], that is [model_class]
    called with the keywords: a new instance of the model.  The
    constructor of a declarative class raises [TypeError] for a keyword
    the class has no attribute for. *)
Definition new_instance (model_class : model) (kwargs : list (string * field))
    : M inst_ref :=
  fun st =>
    match invalid_keyword (classes st (class_id model_class)) kwargs with
    | Some k => (Raise (TypeError k), st)
    | None =>
        (Return (List.length (instances st)),
         add_instance {| instance_of := model_class; fields := kwargs |} st)
    end.

(** [model_instance_registry[instance_key] = instance] *)
Definition cache_instance (instance_key : string) (instance : inst_ref) : M unit :=
  fun st =>
    (Return tt,
     {| classes := classes st;
        factories := factories st;
        factory_registry := factory_registry st;
        instances := instances st;
        model_instance_registry := <[instance_key := instance]> (model_instance_registry st) |}).

(** [RegistryModelFactory._create] *)
Definition _create (model_class : model) (kwargs : list (string * field))
    : M inst_ref :=
  fun st =>
    let instance_key := __tablename__ model_class in
    match model_instance_registry st !! instance_key with
    | Some instance => (Return instance, st)
    | None =>
        (instance <- new_instance model_class kwargs ;;
         _ <- cache_instance instance_key instance ;;
         ret instance) st
    end.

(** [getattr(self, relation_name).append(related)]: a relationship
    collection that was never assigned starts empty. *)
Definition append_related (self : inst_ref) (relation_name : string)
    (related : inst_ref) : M unit :=
  fun st =>
    match instances st !! self with
    | None => (Raise DanglingReference, st)
    | Some inst =>
        let append items :=
          (Return tt,
           {| classes := classes st;
              factories := factories st;
              factory_registry := factory_registry st;
              instances :=
                <[self := {| instance_of := instance_of inst;
                             fields := dict_set relation_name
                                         (Collection (items ++ [related])%list)
                                         (fields inst) |}]> (instances st);
              model_instance_registry := model_instance_registry st |}) in
        match dict_get relation_name (fields inst) with
        | None => append []
        | Some (Collection items) => append items
        | Some _ => (Raise (AttributeError "append"), st)
        end
    end.

(** The hook [many_to_one(self, create, extracted, **kwargs)] built by
    [_generate_many_to_one]; [call] invokes a factory. *)
Definition many_to_one (call : factory_ref -> M inst_ref)
    (model_factory : factory_ref) (relation_name : string)
    (self : inst_ref) (create : bool) : M unit :=
  if negb create then ret tt
  else
    related <- call model_factory ;;
    append_related self relation_name related.

(** A declaration object evaluated for one call of the factory: the
    value is random and stays symbolic.  [Faker("random_element",
    elements=[])] has nothing to pick from and raises [IndexError]. *)
Definition evaluate (d : declaration) : M field :=
  match d with
  | Faker provider (Elements []) =>
      if String.eqb provider "random_element" then raise IndexError
      else ret (Generated d)
  | _ => ret (Generated d)
  end.

(** Resolution of the declarations of a factory into constructor
    arguments: a [SubFactory] calls its factory, a declaration object
    yields a generated value, anything else is passed as it is. *)
Fixpoint resolve (call : factory_ref -> M inst_ref) (declarations : list (string * attribute))
    : M (list (string * field)) :=
  match declarations with
  | [] => ret []
  | (k, a) :: rest =>
      match a with
      | Value (PyObject d) =>
          v <- evaluate d ;;
          kwargs <- resolve call rest ;; ret ((k, v) :: kwargs)
      | Value v =>
          kwargs <- resolve call rest ;; ret ((k, Plain v) :: kwargs)
      | SubFactory model_factory =>
          related <- call model_factory ;;
          kwargs <- resolve call rest ;; ret ((k, Related related) :: kwargs)
      | PostGeneration _ _ | Meta _ => resolve call rest
      end
  end.

(** The post-generation hooks, run on the instance [_create] returned;
    under the create strategy the hook receives [create=True]. *)
Fixpoint post_generation (call : factory_ref -> M inst_ref)
    (declarations : list (string * attribute)) (instance : inst_ref) : M unit :=
  match declarations with
  | [] => ret tt
  | (_, PostGeneration model_factory relation_name) :: rest =>
      _ <- many_to_one call model_factory relation_name instance true ;;
      post_generation call rest instance
  | _ :: rest => post_generation call rest instance
  end.

(** Calling a factory class, [factory()], as factory_boy runs it under
    its default create strategy: the declarations are resolved, [_create]
    receives the model of [Meta] and the resolved arguments, and the
    post-generation hooks run on what [_create] returned. *)
Fixpoint call_factory (fuel : nat) (f : factory_ref) : M inst_ref :=
  match fuel with
  | O => out_of_fuel
  | S fuel' =>
      fun st =>
        match factories st !! f with
        | None => (Raise DanglingReference, st)
        | Some fac =>
            match dict_get "Meta" (factory_attributes fac) with
            | Some (Meta model_class) =>
                (kwargs <- resolve (call_factory fuel') (factory_attributes fac) ;;
                 instance <- _create model_class kwargs ;;
                 _ <- post_generation (call_factory fuel') (factory_attributes fac) instance ;;
                 ret instance) st
            | _ => (Raise (AttributeError "Meta"), st)
            end
        end
  end.

(** ** Example schemas *)

Definition no_classes : nat -> class_state :=
  fun _ => {| relationships := []; class_attrs := ∅; serialize_rules := None |}.

(** The namespace of a class declared with the given attributes. *)
Definition declared_attrs (names : list string) : gmap string class_attr :=
  list_to_map ((fun k => (k, Declared)) <$> names).

Definition empty_session (classes : nat -> class_state) : state :=
  {| classes := classes;
     factories := [];
     factory_registry := ∅;
     instances := [];
     model_instance_registry := ∅ |}.

Definition id_column : column :=
  {| key := "id"; name := "id"; type := String_ (Some 36%Z);
     primary_key := true; foreign_keys := [] |}.

(** A table whose [parent_id] references the table itself, with no
    declared relationship. *)
Definition Node : model :=
  {| class_id := 0; __name__ := "Node"; __tablename__ := "node";
     fullname := "node";
     columns := [id_column;
                 {| key := "parent_id"; name := "parent_id"; type := String_ (Some 36%Z);
                    primary_key := false; foreign_keys := ["node"] |}] |}.

Definition node_tables : gmap string model := {["node" := Node]}.

(** The same table with the relationship [parent] declared over
    [parent_id]. *)
Definition declared_parent : nat -> class_state :=
  fun _ => {| relationships := [{| rel_key := "parent"; local_columns := ["parent_id"];
                                   target := "node"; uselist := false |}];
              class_attrs := declared_attrs ["id"; "parent_id"; "parent"];
              serialize_rules := None |}.

(** [Pipeline] declares the collection [jobs]; [Job] has the foreign key
    [pipeline_id] to [pipeline], the only foreign key between the two
    tables, and declares nothing. *)
Definition Pipeline : model :=
  {| class_id := 1; __name__ := "Pipeline"; __tablename__ := "pipeline";
     fullname := "pipeline";
     columns := [id_column;
                 {| key := "name"; name := "name"; type := String_ (Some 80%Z);
                    primary_key := false; foreign_keys := [] |}] |}.

Definition Job : model :=
  {| class_id := 2; __name__ := "Job"; __tablename__ := "job";
     fullname := "job";
     columns := [id_column;
                 {| key := "status"; name := "status"; type := String_ None;
                    primary_key := false; foreign_keys := [] |};
                 {| key := "retries"; name := "retries"; type := Integer;
                    primary_key := false; foreign_keys := [] |};
                 {| key := "pipeline_id"; name := "pipeline_id";
                    type := String_ (Some 36%Z);
                    primary_key := false; foreign_keys := ["pipeline"] |}] |}.

Definition pipeline_tables : gmap string model :=
  {["pipeline" := Pipeline; "job" := Job]}.

Definition jobs_relationship : relationship :=
  {| rel_key := "jobs"; local_columns := ["id"]; target := "job"; uselist := true |}.

Definition pipeline_classes : nat -> class_state :=
  fun id =>
    if Nat.eqb id 1
    then {| relationships := [jobs_relationship];
            class_attrs := declared_attrs ["id"; "name"; "jobs"];
            serialize_rules := None |}
    else {| relationships := [];
            class_attrs := declared_attrs ["id"; "status"; "retries"; "pipeline_id"];
            serialize_rules := Some [] |}.

Definition job_overrides : gmap string (gmap string pyvalue) :=
  {["job" := {["status" := PyStr "RUNNING"; "retries" := PyInt 0]}]}.

(** [Stage] declares [current_approval] over its [current_approval_id],
    and [Approval] has a foreign key [stage_id] back to [stage] and
    declares nothing: two foreign keys link the two tables. *)
Definition Stage : model :=
  {| class_id := 9; __name__ := "Stage"; __tablename__ := "stage";
     fullname := "stage";
     columns := [id_column;
                 {| key := "current_approval_id"; name := "current_approval_id";
                    type := String_ (Some 36%Z);
                    primary_key := false; foreign_keys := ["approval"] |}] |}.

Definition Approval : model :=
  {| class_id := 10; __name__ := "Approval"; __tablename__ := "approval";
     fullname := "approval";
     columns := [id_column;
                 {| key := "stage_id"; name := "stage_id"; type := String_ (Some 36%Z);
                    primary_key := false; foreign_keys := ["stage"] |}] |}.

Definition stage_tables : gmap string model :=
  {["stage" := Stage; "approval" := Approval]}.

Definition stage_classes : nat -> class_state :=
  fun id =>
    if Nat.eqb id 9
    then {| relationships := [{| rel_key := "current_approval";
                                 local_columns := ["current_approval_id"];
                                 target := "approval"; uselist := false |}];
            class_attrs := declared_attrs ["id"; "current_approval_id"; "current_approval"];
            serialize_rules := None |}
    else {| relationships := [];
            class_attrs := declared_attrs ["id"; "stage_id"];
            serialize_rules := None |}.

(** [Account] has a foreign key [owner] to a table no model maps, and a
    column of a type [data_providers] does not list. *)
Definition owner_column : column :=
  {| key := "owner"; name := "owner"; type := String_ (Some 36%Z);
     primary_key := false; foreign_keys := ["user"] |}.

Definition notes_column : column :=
  {| key := "notes"; name := "notes"; type := OtherType "Text";
     primary_key := false; foreign_keys := [] |}.

Definition Account : model :=
  {| class_id := 3; __name__ := "Account"; __tablename__ := "account";
     fullname := "account";
     columns := [id_column; owner_column; notes_column] |}.

Definition account_tables : gmap string model := {["account" := Account]}.

Definition account_overrides : gmap string (gmap string pyvalue) :=
  {["account" := {["notes" := PyStr "n/a"]}]}.

(** [Tag] has no foreign key and no relationship. *)
Definition Tag : model :=
  {| class_id := 6; __name__ := "Tag"; __tablename__ := "tag";
     fullname := "tag";
     columns := [id_column;
                 {| key := "label"; name := "label"; type := String_ None;
                    primary_key := false; foreign_keys := [] |}] |}.

Definition tag_tables : gmap string model := {["tag" := Tag]}.

Definition tag_classes : nat -> class_state :=
  fun _ => {| relationships := []; class_attrs := declared_attrs ["id"; "label"];
              serialize_rules := None |}.

(** [Team] declares the collection [members]; [Member] declares [team]
    over its [team_id]. *)
Definition Team : model :=
  {| class_id := 4; __name__ := "Team"; __tablename__ := "team";
     fullname := "team";
     columns := [id_column] |}.

Definition Member : model :=
  {| class_id := 5; __name__ := "Member"; __tablename__ := "member";
     fullname := "member";
     columns := [id_column;
                 {| key := "team_id"; name := "team_id"; type := String_ (Some 36%Z);
                    primary_key := false; foreign_keys := ["team"] |}] |}.

Definition team_tables : gmap string model :=
  {["team" := Team; "member" := Member]}.

Definition members_relationship : relationship :=
  {| rel_key := "members"; local_columns := ["id"];
     target := "member"; uselist := true |}.

Definition team_relationship : relationship :=
  {| rel_key := "team"; local_columns := ["team_id"]; target := "team"; uselist := false |}.

Definition team_classes : nat -> class_state :=
  fun id =>
    if Nat.eqb id 4
    then {| relationships := [members_relationship];
            class_attrs := declared_attrs ["id"; "members"]; serialize_rules := None |}
    else if Nat.eqb id 5
    then {| relationships := [team_relationship];
            class_attrs := declared_attrs ["id"; "team_id"; "team"];
            serialize_rules := None |}
    else {| relationships := []; class_attrs := ∅; serialize_rules := None |}.

(** An override for [member.team_id], the column the relationship [team]
    is declared over. *)
Definition member_overrides : gmap string (gmap string pyvalue) :=
  {["member" := {["team_id" := PyStr "team-1"]}]}.

(** A relationship joined over two local columns. *)
Definition composite_relationship : relationship :=
  {| rel_key := "shipment"; local_columns := ["order_id"; "warehouse_id"];
     target := "shipment"; uselist := false |}.

(** The stores the examples run in. *)
Definition account_session : state :=
  snd (make_factory account_tables account_overrides 1 Account None
         (empty_session no_classes)).

Definition tag_session : state :=
  snd (make_factory tag_tables ∅ 1 Tag None (empty_session tag_classes)).

Definition job_session : state :=
  snd (make_factory pipeline_tables job_overrides 2 Job None
         (empty_session pipeline_classes)).

(** [Job] built with [pipeline] already in the visited set, as the build
    of [Pipeline] calls it. *)
Definition job_nested_session : state :=
  snd (make_factory pipeline_tables job_overrides 2 Job (Some {["pipeline"]})
         (empty_session pipeline_classes)).

Definition pipeline_session : state :=
  snd (make_factory pipeline_tables job_overrides 3 Pipeline None
         (empty_session pipeline_classes)).

Definition team_session : state :=
  snd (make_factory team_tables ∅ 2 Team None (empty_session team_classes)).

Definition member_session : state :=
  snd (make_factory team_tables member_overrides 2 Member None
         (empty_session team_classes)).

(** [Approval] built in a fresh session, up to the error. *)
Definition approval_session : state :=
  snd (make_factory stage_tables ∅ 2 Approval None (empty_session stage_classes)).

(** The [Team] factory (reference 1) called once. *)
Definition team_called_once : state :=
  snd (call_factory 2 1 team_session).

(** [Audit] lives in the schema [log]: its table's full name is not its
    [__tablename__].  [Event] declares the relationship [audit] to it. *)
Definition Audit : model :=
  {| class_id := 7; __name__ := "Audit"; __tablename__ := "audit";
     fullname := "log.audit";
     columns := [id_column] |}.

Definition Event : model :=
  {| class_id := 8; __name__ := "Event"; __tablename__ := "event";
     fullname := "event";
     columns := [id_column;
                 {| key := "audit_id"; name := "audit_id"; type := String_ (Some 36%Z);
                    primary_key := false; foreign_keys := ["log.audit"] |}] |}.

Definition audit_relationship : relationship :=
  {| rel_key := "audit"; local_columns := ["audit_id"];
     target := "log.audit"; uselist := false |}.

Definition event_classes : nat -> class_state :=
  fun id =>
    if Nat.eqb id 8
    then {| relationships := [audit_relationship];
            class_attrs := declared_attrs ["id"; "audit_id"; "audit"];
            serialize_rules := None |}
    else {| relationships := []; class_attrs := declared_attrs ["id"];
            serialize_rules := None |}.

(** ** The claims as the specification words them *)

(** The covered-column set of the specification: every local join column
    of every declared relationship. *)
Definition spec_relation_cols (rels : list relationship) : gset string :=
  ⋃ (list_to_set <$> (local_columns <$> rels)).

(** The column policy of the specification: the override if there is
    one, else nothing for a covered column, else the provider's value. *)
Definition spec_column_policy (overrides : gmap string (gmap string pyvalue))
    (table_name : string) (rels : list relationship) (col : column)
    : option attribute :=
  match get_override overrides table_name col with
  | Some v => Some (Value v)
  | None =>
      if decide (key col ∈ spec_relation_cols rels) then None
      else (fun provider => Value (provider col)) <$> data_providers (type col)
  end.

(** ** Predicates of the statements *)

(** The guard of lines 97-99: a foreign-key column whose key is in
    [relation_cols] or does not end with ["_id"] is passed over. *)
Definition fk_guard (rc : gset string) (col : column) : Prop :=
  foreign_keys col <> [] /\ ((key col ∈ rc) \/ last3 (key col) <> "_id").

(** The columns that yield an entry of [dynamic_relationships]. *)
Definition inferred (rc : gset string) (col : column) : Prop :=
  foreign_keys col <> [] /\ (key col ∉ rc) /\ last3 (key col) = "_id".

#[global] Instance fk_guard_dec rc col : Decision (fk_guard rc col).
Proof. unfold fk_guard. apply _. Defined.

#[global] Instance inferred_dec rc col : Decision (inferred rc col).
Proof. unfold inferred. apply _. Defined.

Definition inferred_relationship (col : column) : dynamic_relationship :=
  {| foreign_table_name := default "" (head (foreign_keys col));
     relation_name := drop_last3 (key col) |}.

(** What lines 109-114 store for a column: a truthy override, else what
    the provider of the column's type returns. *)
Definition chosen (overrides : gmap string (gmap string pyvalue))
    (table_name : string) (col : column) (v : pyvalue) : Prop :=
  (get_override overrides table_name col = Some v /\ truthy v = true) \/
  ((get_override overrides table_name col = None \/
    exists w, get_override overrides table_name col = Some w /\ truthy w = false) /\
   exists provider, data_providers (type col) = Some provider /\ v = provider col).

(** The wiring of one declared relationship (lines 125-129). *)
Definition wiring (r : relationship) (g : factory_ref) : attribute :=
  if uselist r then PostGeneration g (rel_key r) else SubFactory g.

(** The configuration errors a build can meet. *)
Definition missing_provider (overrides : gmap string (gmap string pyvalue))
    (m : model) (rc : gset string) : Prop :=
  exists col, col ∈ columns m /\ ~ fk_guard rc col /\
    data_providers (type col) = None /\
    forall v, get_override overrides (fullname m) col = Some v -> truthy v = false.

Definition unknown_declared_target (tables_to_models : gmap string model)
    (processed_tables : gset string) (rels : list relationship) : Prop :=
  exists r, r ∈ rels /\ (target r ∉ processed_tables) /\
    tables_to_models !! target r = None.

Definition unknown_inferred_target (tables_to_models : gmap string model)
    (m : model) (rc : gset string) : Prop :=
  exists col fk, col ∈ columns m /\ inferred rc col /\
    head (foreign_keys col) = Some fk /\ tables_to_models !! fk = None.

(** An attribute stays on the class, and a relationship set on the class
    stays a relationship. *)
Definition attribute_kept (a a' : option class_attr) : Prop :=
  match a with
  | None => True
  | Some Declared => is_Some a'
  | Some (RelationshipProperty _) => exists argument, a' = Some (RelationshipProperty argument)
  end.

(** Model classes only gain attributes, and [serialize_rules] only grows
    at its end. *)
Definition classes_extended (st st' : state) : Prop :=
  forall id,
    (forall k, attribute_kept (class_attrs (classes st id) !! k)
                 (class_attrs (classes st' id) !! k)) /\
    (forall rules, serialize_rules (classes st id) = Some rules ->
       exists more, serialize_rules (classes st' id) = Some (rules ++ more)%list) /\
    (serialize_rules (classes st id) = None -> serialize_rules (classes st' id) = None).

(** Every instance that exists is the cached instance of its table. *)
Definition cache_consistent (st : state) : Prop :=
  forall i inst,
    instances st !! i = Some inst ->
    model_instance_registry st !! __tablename__ (instance_of inst) = Some i.

(** Every entry of the cache denotes an instance of a model of that
    table. *)
Definition cache_sound (st : state) : Prop :=
  forall t i,
    model_instance_registry st !! t = Some i ->
    exists inst, instances st !! i = Some inst /\ __tablename__ (instance_of inst) = t.

Definition cache_ok (st : state) : Prop :=
  cache_consistent st /\ cache_sound st.

(** Cached instances stay cached. *)
Definition cache_kept (st st' : state) : Prop :=
  forall t i,
    model_instance_registry st !! t = Some i ->
    model_instance_registry st' !! t = Some i.

Definition session_step (st st' : state) : Prop :=
  cache_kept st st' /\
  (cache_ok st -> cache_ok st') /\
  factories st' = factories st.

(** The stores that can follow [st] in the process: builds of any
    closure of [factory_generator], factory calls, and new sessions, whose
    registries are empty and whose model classes are the live ones. *)
Inductive follows (st : state) : state -> Prop :=
| follows_refl : follows st st
| follows_build tables_to_models overrides fuel m processed_tables st1 :
    follows st st1 ->
    follows st (snd (make_factory tables_to_models overrides fuel m processed_tables st1))
| follows_call fuel f st1 :
    follows st st1 -> follows st (snd (call_factory fuel f st1))
| follows_session st1 :
    follows st st1 -> follows st (empty_session (classes st1)).

(** The fields of an instance that exists are never taken back: a
    collection only grows at its end, any other field keeps its value. *)
Definition fields_grow (d d' : list (string * field)) : Prop :=
  forall k v,
    dict_get k d = Some v ->
    match v with
    | Collection items => exists more, dict_get k d' = Some (Collection (items ++ more)%list)
    | _ => dict_get k d' = Some v
    end.

Definition instances_grow (st st' : state) : Prop :=
  forall i inst,
    instances st !! i = Some inst ->
    exists inst',
      instances st' !! i = Some inst' /\
      instance_of inst' = instance_of inst /\
      fields_grow (fields inst) (fields inst').

(** [g] is a factory for a model of the table [t]. *)
Definition factory_of (st : state) (g : factory_ref) (t : string) : Prop :=
  exists fac model_class,
    factories st !! g = Some fac /\
    dict_get "Meta" (factory_attributes fac) = Some (Meta model_class) /\
    fullname model_class = t.

(** Every registered factory is a factory for a model of the table it is
    registered under. *)
Definition registry_typed (st : state) : Prop :=
  forall t g, factory_registry st !! t = Some g -> factory_of st g t.

(** A value that can be evaluated when the factory is called. *)
Definition evaluable (v : pyvalue) : Prop :=
  v <> PyObject (Faker "random_element" (Elements [])).

Definition plain_attribute (a : attribute) : Prop :=
  match a with
  | Value _ | Meta _ => True
  | SubFactory _ | PostGeneration _ _ => False
  end.

Definition plain (d : attrs) : Prop :=
  Forall (fun ka => plain_attribute ka.2) d.

(** A declaration that holds a value which can be evaluated, under a
    name the class has an attribute for. *)
Definition accepted (c : class_state) (ka : string * attribute) : Prop :=
  match ka.2 with
  | Value v => evaluable v /\ is_Some (class_attrs c !! ka.1)
  | Meta _ => True
  | SubFactory _ | PostGeneration _ _ => False
  end.

(** ** Well-formed stores and schemas *)

(** The dict comprehension of lines 37-41: the members of the module by
    [__tablename__], in member order. *)
Definition tables_of (models_module : list model) : gmap string model :=
  fold_left (fun tables member => <[__tablename__ member := member]> tables)
    models_module ∅.

(** A factory attribute refers to factories below [n] only. *)
Definition ref_below (n : nat) (a : attribute) : Prop :=
  match a with
  | SubFactory g | PostGeneration g _ => g < n
  | Value _ | Meta _ => True
  end.

Definition refs_below (n : nat) (d : attrs) : Prop :=
  Forall (fun ka => ref_below n ka.2) d.

(** Registered references denote factories of the heap, and a factory
    refers to factories created before it only. *)
Definition store_ok (st : state) : Prop :=
  (forall t f, factory_registry st !! t = Some f -> f < List.length (factories st)) /\
  (forall f fac, factories st !! f = Some fac -> refs_below f (factory_attributes fac)).

(** No column of the model yields an inferred relationship. *)
Definition no_inferred (st : state) (m : model) : Prop :=
  forall rc,
    relation_cols (relationships (classes st (class_id m))) = Some rc ->
    forall col, col ∈ columns m -> ~ inferred rc col.

(** What a caller may rely on after a build step: the store is still
    well formed, the heap has not shrunk, and a returned reference (or
    attribute dict) refers into the heap. *)
Definition build_ok {A} (good : nat -> A -> Prop) (c : M A) : Prop :=
  forall st,
    store_ok st ->
    store_ok (snd (c st)) /\
    List.length (factories st) <= List.length (factories (snd (c st))) /\
    forall a, fst (c st) = Return a -> good (List.length (factories (snd (c st)))) a.

(** Every model is filed under its table's full name, the key
    [make_factory] looks targets up by. *)
Definition tables_keyed_by_fullname (tables_to_models : gmap string model) : Prop :=
  forall t m, tables_to_models !! t = Some m -> fullname m = t.

(** What calling factories leaves alone. *)
Definition call_frame (st st' : state) : Prop :=
  factories st' = factories st /\
  factory_registry st' = factory_registry st /\
  classes st' = classes st.

(** What building factories leaves alone. *)
Definition build_frame (st st' : state) : Prop :=
  factories st `prefix_of` factories st' /\
  dom (factory_registry st) ⊆ dom (factory_registry st') /\
  instances st' = instances st /\
  model_instance_registry st' = model_instance_registry st.

(** ** The schema normalisation of [test_api_spec_verifier.py] *)

(** What [yaml.full_load] and [json] yield.  [JOther] stands for any
    other leaf (a float, a date), by its text. *)
Inductive json :=
| JNull
| JBool (b : bool)
| JNumber (n : Z)
| JString (s : string)
| JOther (text : string)
| JArray (items : list json)
| JObject (items : list (string * json)).

(** [del d[k]] *)
Fixpoint dict_del {V} (k : string) (d : list (string * V)) : list (string * V) :=
  match d with
  | [] => []
  | (k', v) :: rest =>
      if String.eqb k k' then dict_del k rest else (k', v) :: dict_del k rest
  end.

(** Results of the pure functions: a value, an exception, or fuel spent. *)
Definition and_then {A B} (r : outcome A) (k : A -> outcome B) : outcome B :=
  match r with
  | Return a => k a
  | Raise e => Raise e
  | OutOfFuel => OutOfFuel
  end.

(** [for key, value in schema.items(): schema[key] = f(value)] *)
Fixpoint update_values (f : json -> outcome json) (items : list (string * json))
    : outcome (list (string * json)) :=
  match items with
  | [] => Return []
  | (k, v) :: rest =>
      and_then (f v) (fun v' =>
      and_then (update_values f rest) (fun rest' => Return ((k, v') :: rest')))
  end.

(** [for index, item in enumerate(schema): schema[index] = f(item)] *)
Fixpoint update_items (f : json -> outcome json) (items : list json)
    : outcome (list json) :=
  match items with
  | [] => Return []
  | v :: rest =>
      and_then (f v) (fun v' =>
      and_then (update_items f rest) (fun rest' => Return (v' :: rest')))
  end.

(** The first block of [_update_nullable] on a dict: with
    ["nullable": true], ["type"] becomes the list of the old type and
    ["null"], and ["nullable"] is deleted. *)
Definition widen_type (schema : list (string * json)) : outcome (list (string * json)) :=
  match dict_get "nullable" schema with
  | Some (JBool true) =>
      match dict_get "type" schema with
      | Some t =>
          Return (dict_del "nullable"
                    (dict_set "type" (JArray [t; JString "null"]) schema))
      | None => Raise (KeyError "type")
      end
  | _ => Return schema
  end.

(** [_update_nullable(schema)], by the value it returns (the same object,
    changed in place).  The recursion enters the list built for
    ["type"], so it is bounded by [fuel]. *)
Fixpoint _update_nullable (fuel : nat) (schema : json) : outcome json :=
  match fuel with
  | O => OutOfFuel
  | S fuel' =>
      match schema with
      | JObject items =>
          and_then (widen_type items) (fun items' =>
          and_then (update_values (_update_nullable fuel') items') (fun items'' =>
          Return (JObject items'')))
      | JArray items =>
          and_then (update_items (_update_nullable fuel') items) (fun items' =>
          Return (JArray items'))
      | _ => Return schema
      end
  end.

(** [schema.copy()]: a dict and a list have the method, no other value
    of a loaded document has.  The copy is shallow: by value it is the
    schema itself. *)
Definition copy (schema : json) : outcome json :=
  match schema with
  | JObject _ | JArray _ => Return schema
  | _ => Raise (AttributeError "copy")
  end.

(** The values that have the method [copy]: dicts and lists. *)
Definition has_copy (schema : json) : Prop :=
  match schema with
  | JObject _ | JArray _ => True
  | _ => False
  end.

(** [_update_nullable_to_json_schema_compatible(schema)] *)
Definition _update_nullable_to_json_schema_compatible (fuel : nat) (schema : json)
    : outcome json :=
  and_then (copy schema) (_update_nullable fuel).

(** Nesting depth. *)
Fixpoint height (v : json) : nat :=
  match v with
  | JArray items =>
      S ((fix go (l : list json) : nat :=
            match l with [] => 0 | x :: r => Nat.max (height x) (go r) end) items)
  | JObject items =>
      S ((fix go (l : list (string * json)) : nat :=
            match l with [] => 0 | (_, x) :: r => Nat.max (height x) (go r) end) items)
  | _ => 0
  end.

(** No dict at any depth has ["nullable": true]. *)
Fixpoint nullable_free (v : json) : Prop :=
  match v with
  | JArray items =>
      (fix go (l : list json) : Prop :=
         match l with [] => True | x :: r => nullable_free x /\ go r end) items
  | JObject items =>
      dict_get "nullable" items <> Some (JBool true) /\
      (fix go (l : list (string * json)) : Prop :=
         match l with [] => True | (_, x) :: r => nullable_free x /\ go r end) items
  | _ => True
  end.

(** Every dict with ["nullable": true], at any depth, has a ["type"]. *)
Fixpoint nullable_typed (v : json) : Prop :=
  match v with
  | JArray items =>
      (fix go (l : list json) : Prop :=
         match l with [] => True | x :: r => nullable_typed x /\ go r end) items
  | JObject items =>
      (dict_get "nullable" items = Some (JBool true) -> is_Some (dict_get "type" items)) /\
      (fix go (l : list (string * json)) : Prop :=
         match l with [] => True | (_, x) :: r => nullable_typed x /\ go r end) items
  | _ => True
  end.

(** ** The overrides of the test session *)

(** [DBInitializer._get_overrides], from the content of the fixture file. *)
Definition _get_overrides (json_overrides : gmap string (gmap string pyvalue))
    : gmap string (gmap string pyvalue) :=
  <["job" := {["status" := PyStr "RUNNING"]}]>
    (<["pipeline_inputs" := {["type" := PyStr "customRollout"]}]>
       (<["pipeline_configs" := {["type" := PyStr "customRollout";
                                  "git_link" := PyStr "http://git-link.com"]}]>
          json_overrides)).

(** A fixture file that gives [job] an override of its own, and the
    build of [Job] under the overrides of the test session. *)
Definition fixture_overrides : gmap string (gmap string pyvalue) :=
  {["job" := {["retries" := PyInt 3]}]}.

Definition running_session : state :=
  snd (make_factory pipeline_tables (_get_overrides fixture_overrides) 3 Job None
         (empty_session pipeline_classes)).

(** ** Example schemas *)

(** An object schema with one nullable property, what the normalisation
    makes of it, and a schema whose nullable property has no ["type"]. *)
Definition pet_schema : json :=
  JObject [("type", JString "object");
           ("properties",
            JObject [("name", JObject [("type", JString "string");
                                       ("nullable", JBool true)])])].

Definition pet_schema_compatible : json :=
  JObject [("type", JString "object");
           ("properties",
            JObject [("name", JObject [("type", JArray [JString "string";
                                                        JString "null"])])])].

Definition untyped_schema : json :=
  JObject [("properties", JObject [("age", JObject [("nullable", JBool true)])])].

(** ** Lambda events *)

(** The loaded event fixture as Python holds it: every dict is an object
    of a heap and is reached by reference, so that two dicts can hold the
    same nested dict; a value that is not a dict is carried as it is. *)
Inductive evalue :=
| EStr (s : string)
| ERef (r : nat)
| EOther (v : json).

Abbreviation heap := (list (list (string * evalue))).

Inductive event_error :=
| EKeyError (k : string)
| ETypeError
| EDangling.

Inductive event_outcome :=
| EReturn (event : nat)
| ERaise (e : event_error).

(** [_get_event(endpoint)], the closure that [_event_factory] returns,
    over the object [event_template] of its enclosing scope. The copy is
    shallow: the new dict holds the references the template holds. *)
Definition _get_event (event_template : nat) (endpoint : string) (h : heap)
    : event_outcome * heap :=
  match h !! event_template with
  | None => (ERaise EDangling, h)
  | Some template =>
      (* event = event_template.copy() *)
      let event := length h in
      (* event["path"] = endpoint *)
      let d1 := dict_set "path" (EStr endpoint) template in
      (* event["pathParameters"] = {"proxy": endpoint} *)
      let proxy := S (length h) in
      let d2 := dict_set "pathParameters" (ERef proxy) d1 in
      let h' := (h ++ [d2; [("proxy", EStr endpoint)]])%list in
      (* event["requestContext"]["path"] = endpoint *)
      match dict_get "requestContext" d2 with
      | None => (ERaise (EKeyError "requestContext"), h')
      | Some (ERef c) =>
          match h' !! c with
          | None => (ERaise EDangling, h')
          | Some ctx => (EReturn event, <[c := dict_set "path" (EStr endpoint) ctx]> h')
          end
      | Some _ => (ERaise ETypeError, h')
      end
  end.

(** [h[r][k]] and [h[r][k][k']] *)
Definition item (h : heap) (r : nat) (k : string) : option evalue :=
  h !! r ≫= dict_get k.

Definition item2 (h : heap) (r : nat) (k k' : string) : option evalue :=
  match item h r k with
  | Some (ERef c) => item h c k'
  | _ => None
  end.

(** A fixture with a nested request context, and the heap after the
    events of two endpoints have been made from it. *)
Definition event_fixture : heap :=
  [[("path", EStr "/"); ("httpMethod", EStr "GET"); ("requestContext", ERef 1)];
   [("path", EStr "/"); ("stage", EStr "test")]].

Definition two_events : heap :=
  snd (_get_event 0 "/jobs" (snd (_get_event 0 "/pipelines" event_fixture))).

(** * Proofs *)

(** ** String slices *)

Example last3_parent_id : last3 "parent_id" = "_id".
Proof. reflexivity. Qed.

Example last3_short : last3 "id" = "id".
Proof. reflexivity. Qed.

Example drop_last3_parent_id : drop_last3 "parent_id" = "parent".
Proof. reflexivity. Qed.

Lemma substring_length (s : string) (n m : nat) :
  String.length (substring n m s) = Nat.min m (String.length s - n).
Proof.
  revert n m. induction s as [|a s IH]; intros n m.
  - destruct n, m; reflexivity.
  - destruct n as [|n]; destruct m as [|m]; simpl; try reflexivity.
    + rewrite IH. rewrite Nat.sub_0_r. reflexivity.
    + apply IH.
    + apply IH.
Qed.

Lemma substring_full (s : string) : substring 0 (String.length s) s = s.
Proof. induction s as [|a s IH]; simpl; [reflexivity | now rewrite IH]. Qed.

Lemma substring_split (s : string) (n : nat) :
  n <= String.length s ->
  s = String.append (substring 0 n s) (substring n (String.length s - n) s).
Proof.
  revert n. induction s as [|a s IH]; intros n Hn.
  - destruct n; simpl in *; [reflexivity | lia].
  - destruct n as [|n].
    + rewrite Nat.sub_0_r, substring_full. reflexivity.
    + simpl in *. rewrite (IH n) at 1 by lia. reflexivity.
Qed.

Lemma substring_append_l (p q : string) :
  substring 0 (String.length p) (String.append p q) = p.
Proof. induction p as [|a p IH]; simpl; [destruct q; reflexivity | now f_equal]. Qed.

Lemma substring_append_r (p q : string) (m : nat) :
  substring (String.length p) m (String.append p q) = substring 0 m q.
Proof. induction p as [|a p IH]; simpl; [reflexivity | exact IH]. Qed.

Lemma append_length (p q : string) :
  String.length (String.append p q) = String.length p + String.length q.
Proof. induction p as [|a p IH]; simpl; [reflexivity | now rewrite IH]. Qed.

(** A key passes [col.key[-3:] != "_id"] exactly when it is some prefix
    followed by ["_id"], and [col.key[:-3]] is that prefix. *)
Lemma last3_id_split (s : string) :
  last3 s = "_id" -> s = String.append (drop_last3 s) "_id".
Proof.
  unfold last3, drop_last3. intros H.
  assert (Hlen : 3 <= String.length s).
  { pose proof (substring_length s (String.length s - 3) 3) as L.
    rewrite H in L. change (String.length "_id") with 3 in L. lia. }
  pose proof (substring_split s (String.length s - 3)) as S.
  replace (String.length s - (String.length s - 3)) with 3 in S by lia.
  rewrite H in S. apply S. lia.
Qed.

Lemma last3_append_id (p : string) : last3 (String.append p "_id") = "_id".
Proof.
  unfold last3. rewrite append_length. change (String.length "_id") with 3.
  replace (String.length p + 3 - 3) with (String.length p) by lia.
  now rewrite substring_append_r.
Qed.

Lemma drop_last3_append_id (p : string) : drop_last3 (String.append p "_id") = p.
Proof.
  unfold drop_last3. rewrite append_length. change (String.length "_id") with 3.
  replace (String.length p + 3 - 3) with (String.length p) by lia.
  apply substring_append_l.
Qed.

Lemma last3_id_iff (s : string) :
  last3 s = "_id" <-> exists p, s = String.append p "_id".
Proof.
  split.
  - intros H. exists (drop_last3 s). now apply last3_id_split.
  - intros [p ->]. apply last3_append_id.
Qed.

(** ** [factory_generator] *)

Example pipeline_tables_collected :
  factory_generator [Job; Pipeline] (Some job_overrides)
  = make_factory pipeline_tables job_overrides.
Proof. vm_compute. reflexivity. Qed.

Example overrides_default (models_module : list model) :
  factory_generator models_module None
  = factory_generator models_module (Some ∅).
Proof. reflexivity. Qed.

(** ** Dict lemmas *)

Lemma dict_get_set_eq {V} (k : string) (v : V) (d : list (string * V)) :
  dict_get k (dict_set k v d) = Some v.
Proof.
  induction d as [|[k' v'] d IH]; simpl.
  - now rewrite String.eqb_refl.
  - destruct (String.eqb k k') eqn:E; simpl.
    + now rewrite String.eqb_refl.
    + now rewrite E.
Qed.

Lemma dict_get_set_ne {V} (k k' : string) (v : V) (d : list (string * V)) :
  k <> k' -> dict_get k' (dict_set k v d) = dict_get k' d.
Proof.
  intros Hne. induction d as [|[k0 v0] d IH]; simpl.
  - destruct (String.eqb k' k) eqn:E; [|reflexivity].
    apply String.eqb_eq in E. congruence.
  - destruct (String.eqb k k0) eqn:E; simpl.
    + apply String.eqb_eq in E. subst k0.
      destruct (String.eqb k' k) eqn:E'; [|reflexivity].
      apply String.eqb_eq in E'. congruence.
    + destruct (String.eqb k' k0); [reflexivity | exact IH].
Qed.

(** ** Monad lemmas *)

Lemma bind_Return {A B} (m : M A) (k : A -> M B) st b st' :
  bind m k st = (Return b, st') ->
  exists a st1, m st = (Return a, st1) /\ k a st1 = (Return b, st').
Proof.
  unfold bind. destruct (m st) as [[a| e |] st1]; intros H; try discriminate.
  eauto.
Qed.

Lemma bind_Return_eq {A B} (m : M A) (k : A -> M B) st a st1 :
  m st = (Return a, st1) -> bind m k st = k a st1.
Proof. intros H. unfold bind. now rewrite H. Qed.

Lemma bind_OutOfFuel {A B} (m : M A) (k : A -> M B) st st1 :
  m st = (OutOfFuel, st1) -> bind m k st = (OutOfFuel, st1).
Proof. intros H. unfold bind. now rewrite H. Qed.

Lemma bind_snd {A B} (R : state -> state -> Prop) (m : M A) (k : A -> M B) st :
  (forall x y z, R x y -> R y z -> R x z) ->
  R st (snd (m st)) ->
  (forall a st1, R st1 (snd (k a st1))) ->
  R st (snd (bind m k st)).
Proof.
  intros Htrans Hm Hk. unfold bind.
  destruct (m st) as [[a| e |] st1]; simpl in *; eauto.
Qed.

(** ** The column loop *)

Section column_facts.

Variable overrides : gmap string (gmap string pyvalue).
Implicit Types (rc : gset string) (col : column).

Lemma column_value_inr table_name col a0 a :
  column_value overrides table_name col a0 = inr a ->
  exists v, a = dict_set (name col) (Value v) a0 /\ chosen overrides table_name col v.
Proof.
  unfold column_value, chosen.
  destruct (get_override overrides table_name col) as [w|] eqn:Ho.
  - destruct (truthy w) eqn:Ht.
    + intros [= <-]. eauto.
    + destruct (data_providers (type col)) as [provider|]; intros [= <-].
      exists (provider col). split; [reflexivity|]. right. split; eauto.
  - destruct (data_providers (type col)) as [provider|]; intros [= <-].
    exists (provider col). split; [reflexivity|]. right. split; eauto.
Qed.

Lemma column_step_guarded table_name rc col acc :
  fk_guard rc col -> column_step overrides table_name rc col acc = inr acc.
Proof.
  intros [Hfk Hg]. unfold column_step. destruct acc as [a0 d0].
  destruct (foreign_keys col) as [|fk fks]; [congruence|].
  destruct Hg as [Hin|Hno].
  - rewrite bool_decide_eq_true_2 by exact Hin. reflexivity.
  - apply String.eqb_neq in Hno. rewrite Hno.
    now rewrite orb_true_r.
Qed.

Lemma column_step_unguarded table_name rc col a0 d0 :
  ~ fk_guard rc col ->
  column_step overrides table_name rc col (a0, d0) =
    match column_value overrides table_name col a0 with
    | inr a => inr (a, if decide (inferred rc col)
                       then ((d0 ++ [inferred_relationship col])%list) else d0)
    | inl e => inl e
    end.
Proof.
  intros Hng. destruct (decide (inferred rc col)) as [Hi|Hni].
  - destruct Hi as (Hfk & Hnin & Hs). unfold column_step, inferred_relationship.
    destruct (foreign_keys col) as [|fk fks]; [congruence|].
    rewrite bool_decide_eq_false_2 by exact Hnin.
    apply String.eqb_eq in Hs. rewrite Hs. reflexivity.
  - unfold column_step. destruct (foreign_keys col) as [|fk fks] eqn:Hfk; [reflexivity|].
    assert (Hnin : key col ∉ rc).
    { intros Hin. apply Hng. split; [congruence | now left]. }
    assert (Hs : last3 (key col) = "_id").
    { destruct (string_dec (last3 (key col)) "_id") as [E|E]; [exact E|].
      exfalso. apply Hng. split; [congruence | now right]. }
    exfalso. apply Hni. repeat split; [congruence | exact Hnin | exact Hs].
Qed.

(** The entries of [dynamic_relationships], in column order. *)
Lemma column_loop_dynamic table_name rc cols a0 d0 a d :
  column_loop overrides table_name rc cols (a0, d0) = inr (a, d) ->
  d = (d0 ++ (inferred_relationship <$> filter (inferred rc) cols))%list.
Proof.
  revert a0 d0. induction cols as [|col cols IH]; intros a0 d0; cbn [column_loop].
  - intros [= <- <-]. now rewrite app_nil_r.
  - destruct (decide (fk_guard rc col)) as [Hg|Hng].
    + rewrite (column_step_guarded _ _ _ _ Hg). intros H. apply IH in H.
      rewrite filter_cons_False; [exact H|].
      intros [_ [Hnin Hs]]. destruct Hg as [_ [?|?]]; contradiction.
    + rewrite (column_step_unguarded _ _ _ _ _ Hng).
      destruct (column_value overrides table_name col a0) as [e|a1]; [discriminate|].
      intros H. apply IH in H. destruct (decide (inferred rc col)) as [Hi|Hni].
      * rewrite filter_cons_True by exact Hi. rewrite fmap_cons.
        rewrite H, <- app_assoc. reflexivity.
      * rewrite filter_cons_False by exact Hni. exact H.
Qed.

(** The attributes the column loop leaves: other names are untouched. *)
Lemma column_loop_frame table_name rc cols a0 d0 a d k :
  column_loop overrides table_name rc cols (a0, d0) = inr (a, d) ->
  (forall col, col ∈ cols -> name col <> k) ->
  dict_get k a = dict_get k a0.
Proof.
  revert a0 d0. induction cols as [|col cols IH]; intros a0 d0; cbn [column_loop].
  - now intros [= <- <-].
  - intros H Hk.
    assert (Hne : name col <> k) by (apply Hk; left).
    assert (Hk' : forall c, c ∈ cols -> name c <> k) by (intros c Hc; apply Hk; now right).
    destruct (decide (fk_guard rc col)) as [Hg|Hng].
    + rewrite (column_step_guarded _ _ _ _ Hg) in H. eauto.
    + rewrite (column_step_unguarded _ _ _ _ _ Hng) in H.
      destruct (column_value overrides table_name col a0) as [e|a1] eqn:Hv; [discriminate|].
      apply column_value_inr in Hv as (v & -> & _).
      rewrite (IH _ _ H Hk'). now apply dict_get_set_ne.
Qed.

(** With distinct column names, each column's attribute follows the
    guard, then the override, then the provider. *)
Lemma column_loop_attribute table_name rc cols a0 d0 a d col :
  column_loop overrides table_name rc cols (a0, d0) = inr (a, d) ->
  NoDup (name <$> cols) ->
  col ∈ cols ->
  (fk_guard rc col -> dict_get (name col) a = dict_get (name col) a0) /\
  (~ fk_guard rc col ->
   exists v, dict_get (name col) a = Some (Value v) /\ chosen overrides table_name col v).
Proof.
  revert a0 d0. induction cols as [|c cols IH]; intros a0 d0 H Hnd Hin.
  - inversion Hin.
  - rewrite fmap_cons in Hnd. apply NoDup_cons in Hnd as [Hfresh Hnd].
    cbn [column_loop] in H. apply elem_of_cons in Hin as [->|Hin].
    + assert (Hk : forall c', c' ∈ cols -> name c' <> name c).
      { intros c' Hc' E. apply Hfresh. rewrite <- E. apply list_elem_of_fmap. eauto. }
      split.
      * intros Hg. rewrite (column_step_guarded _ _ _ _ Hg) in H.
        eapply column_loop_frame; eauto.
      * intros Hng. rewrite (column_step_unguarded _ _ _ _ _ Hng) in H.
        destruct (column_value overrides table_name c a0) as [e|a1] eqn:Hv; [discriminate|].
        apply column_value_inr in Hv as (v & -> & Hc).
        exists v. split; [|exact Hc].
        rewrite (column_loop_frame _ _ _ _ _ _ _ _ H Hk). apply dict_get_set_eq.
    + assert (Hne : name c <> name col).
      { intros E. apply Hfresh. rewrite E. apply list_elem_of_fmap. eauto. }
      destruct (column_step overrides table_name rc c (a0, d0)) as [e|[a1 d1]] eqn:Hs;
        [discriminate|].
      destruct (IH _ _ H Hnd Hin) as [IH1 IH2]. split; [|exact IH2].
      intros Hg. rewrite (IH1 Hg).
      destruct (decide (fk_guard rc c)) as [Hgc|Hngc].
      * rewrite (column_step_guarded _ _ _ _ Hgc) in Hs. now inversion Hs.
      * rewrite (column_step_unguarded _ _ _ _ _ Hngc) in Hs.
        destruct (column_value overrides table_name c a0) as [e|a2] eqn:Hv; [discriminate|].
        apply column_value_inr in Hv as (v & -> & _). inversion Hs; subst.
        now apply dict_get_set_ne.
Qed.

(** The loop raises exactly when some unguarded column has neither a
    truthy override nor a provider. *)
Lemma column_loop_inl table_name rc cols acc col :
  col ∈ cols ->
  ~ fk_guard rc col ->
  data_providers (type col) = None ->
  (forall v, get_override overrides table_name col = Some v -> truthy v = false) ->
  exists e, column_loop overrides table_name rc cols acc = inl e.
Proof.
  intros Hin Hng Hp Ho. revert acc.
  induction cols as [|c cols IH]; intros acc; [inversion Hin|].
  cbn [column_loop]. apply elem_of_cons in Hin as [<-|Hin].
  - destruct acc as [a0 d0]. rewrite (column_step_unguarded _ _ _ _ _ Hng).
    unfold column_value. rewrite Hp.
    destruct (get_override overrides table_name col) as [w|] eqn:E; [|eauto].
    rewrite (Ho w eq_refl). eauto.
  - destruct (column_step overrides table_name rc c acc) as [e|acc']; [eauto|].
    apply IH, Hin.
Qed.

End column_facts.

(** ** The builder *)

Section builder_facts.

Variable tables_to_models : gmap string model.
Variable overrides : gmap string (gmap string pyvalue).

#[local] Abbreviation make := (make_factory tables_to_models overrides).
#[local] Abbreviation rel_loop := (relationship_loop tables_to_models).
#[local] Abbreviation dyn_loop := (dynamic_loop tables_to_models).
#[local] Abbreviation model_of := (lookup_model tables_to_models).

Implicit Types (rec : model -> option (gset string) -> M factory_ref).

(** Lines 80-81: a registered factory is returned at once and the store
    is left as it was. *)
Lemma make_factory_registered fuel m processed st f :
  factory_registry st !! fullname m = Some f ->
  make (S fuel) m processed st = (Return f, st).
Proof. intros H. simpl. now rewrite H. Qed.

Lemma lookup_model_Return t st fm st' :
  model_of t st = (Return fm, st') ->
  tables_to_models !! t = Some fm /\ st' = st.
Proof.
  unfold lookup_model. destruct (tables_to_models !! t); [|discriminate].
  now intros [= <- <-].
Qed.

Lemma lookup_model_snd t st : snd (model_of t st) = st.
Proof. unfold lookup_model. now destruct (tables_to_models !! t). Qed.

Lemma relationship_loop_cons rec processed r rels a st :
  rel_loop rec processed (r :: rels) a st =
    if bool_decide (target r ∈ processed)
    then rel_loop rec processed rels a st
    else
      (foreign_model <- model_of (target r) ;;
       g <- rec foreign_model (Some processed) ;;
       rel_loop rec processed rels (dict_set (rel_key r) (wiring r g) a)) st.
Proof.
  cbn [relationship_loop]. destruct (bool_decide (target r ∈ processed)); [reflexivity|].
  unfold wiring, _generate_many_to_one. unfold bind.
  destruct (model_of (target r) st) as [[fm| |] st1]; try reflexivity.
  destruct (rec fm (Some processed) st1) as [[g| |] st2]; try reflexivity.
  now destruct (uselist r).
Qed.

Lemma relationship_loop_frame rec processed rels a0 st a st' k :
  rel_loop rec processed rels a0 st = (Return a, st') ->
  (forall r, r ∈ rels -> rel_key r <> k) ->
  dict_get k a = dict_get k a0.
Proof.
  revert a0 st. induction rels as [|r rels IH]; intros a0 st H Hk.
  - now inversion H.
  - rewrite relationship_loop_cons in H.
    assert (Hne : rel_key r <> k) by (apply Hk; left).
    assert (Hk' : forall r', r' ∈ rels -> rel_key r' <> k) by (intros r' ?; apply Hk; now right).
    destruct (bool_decide (target r ∈ processed)); [eauto|].
    apply bind_Return in H as (fm & st1 & _ & H).
    apply bind_Return in H as (g & st2 & _ & H).
    rewrite (IH _ _ H Hk'). now apply dict_get_set_ne.
Qed.

(** A declared relationship whose target is outside the visited set is
    wired to a factory of a known model; one whose target is inside
    leaves no attribute. *)
Lemma relationship_loop_attribute rec processed rels a0 st a st' r :
  rel_loop rec processed rels a0 st = (Return a, st') ->
  NoDup (rel_key <$> rels) ->
  r ∈ rels ->
  (target r ∈ processed -> dict_get (rel_key r) a = dict_get (rel_key r) a0) /\
  (target r ∉ processed ->
   is_Some (tables_to_models !! target r) /\
   exists g, dict_get (rel_key r) a = Some (wiring r g)).
Proof.
  revert a0 st. induction rels as [|r0 rels IH]; intros a0 st H Hnd Hin.
  - inversion Hin.
  - rewrite fmap_cons in Hnd. apply NoDup_cons in Hnd as [Hfresh Hnd].
    rewrite relationship_loop_cons in H.
    apply elem_of_cons in Hin as [->|Hin].
    + assert (Hk : forall r', r' ∈ rels -> rel_key r' <> rel_key r0).
      { intros r' Hr' E. apply Hfresh. rewrite <- E. apply list_elem_of_fmap. eauto. }
      split; intros Ht.
      * rewrite bool_decide_eq_true_2 in H by exact Ht.
        eapply relationship_loop_frame; eauto.
      * rewrite bool_decide_eq_false_2 in H by exact Ht.
        apply bind_Return in H as (fm & st1 & Hfm & H).
        apply bind_Return in H as (g & st2 & _ & H).
        apply lookup_model_Return in Hfm as [Hfm _].
        split; [eauto|]. exists g.
        rewrite (relationship_loop_frame _ _ _ _ _ _ _ _ H Hk). apply dict_get_set_eq.
    + assert (Hne : rel_key r0 <> rel_key r).
      { intros E. apply Hfresh. rewrite E. apply list_elem_of_fmap. eauto. }
      destruct (bool_decide (target r0 ∈ processed)); [eauto|].
      apply bind_Return in H as (fm & st1 & _ & H).
      apply bind_Return in H as (g & st2 & _ & H).
      destruct (IH _ _ H Hnd Hin) as [IH1 IH2]. split; [|exact IH2].
      intros Ht. rewrite (IH1 Ht). now apply dict_get_set_ne.
Qed.

Lemma relationship_loop_known rec processed rels a0 st a st' r :
  rel_loop rec processed rels a0 st = (Return a, st') ->
  r ∈ rels -> target r ∉ processed ->
  is_Some (tables_to_models !! target r).
Proof.
  revert a0 st. induction rels as [|r0 rels IH]; intros a0 st H Hin Ht.
  - inversion Hin.
  - rewrite relationship_loop_cons in H.
    apply elem_of_cons in Hin as [->|Hin].
    + rewrite bool_decide_eq_false_2 in H by exact Ht.
      apply bind_Return in H as (fm & st1 & Hfm & H).
      apply lookup_model_Return in Hfm as [Hfm _]. eauto.
    + destruct (bool_decide (target r0 ∈ processed)); [eauto|].
      apply bind_Return in H as (fm & st1 & _ & H).
      apply bind_Return in H as (g & st2 & _ & H). eauto.
Qed.

Lemma dynamic_loop_frame rec m processed dyn a0 st a st' k :
  dyn_loop rec m processed dyn a0 st = (Return a, st') ->
  (forall d, d ∈ dyn -> relation_name d <> k) ->
  dict_get k a = dict_get k a0.
Proof.
  revert a0 st. induction dyn as [|d dyn IH]; intros a0 st H Hk.
  - now inversion H.
  - cbn [dynamic_loop] in H.
    assert (Hne : relation_name d <> k) by (apply Hk; left).
    assert (Hk' : forall d', d' ∈ dyn -> relation_name d' <> k) by (intros d' ?; apply Hk; now right).
    apply bind_Return in H as (fm & st1 & _ & H).
    apply bind_Return in H as (g & st2 & _ & H).
    apply bind_Return in H as (? & st3 & _ & H).
    apply bind_Return in H as (? & st4 & _ & H).
    rewrite (IH _ _ H Hk'). now apply dict_get_set_ne.
Qed.

Lemma dynamic_loop_known rec m processed dyn a0 st a st' d :
  dyn_loop rec m processed dyn a0 st = (Return a, st') ->
  d ∈ dyn ->
  is_Some (tables_to_models !! foreign_table_name d).
Proof.
  revert a0 st. induction dyn as [|d0 dyn IH]; intros a0 st H Hin.
  - inversion Hin.
  - cbn [dynamic_loop] in H.
    apply bind_Return in H as (fm & st1 & Hfm & H).
    apply bind_Return in H as (g & st2 & _ & H).
    apply bind_Return in H as (? & st3 & _ & H).
    apply bind_Return in H as (? & st4 & _ & H).
    apply elem_of_cons in Hin as [->|Hin]; [|eauto].
    apply lookup_model_Return in Hfm as [Hfm _]. eauto.
Qed.

(** What a successful build went through, step by step. *)
Lemma make_factory_Return_inv fuel m processed st f st' :
  make fuel m processed st = (Return f, st') ->
  factory_registry st !! fullname m = None ->
  exists fuel' rc a0 dyn a1 st1 a2 st2,
    fuel = S fuel' /\
    relation_cols (relationships (classes st (class_id m))) = Some rc /\
    column_loop overrides (fullname m) rc (columns m) ([], []) = inr (a0, dyn) /\
    rel_loop (make fuel') ({[fullname m]} ∪ default ∅ processed)
      (relationships (classes st (class_id m))) a0 st = (Return a1, st1) /\
    dyn_loop (make fuel') m ({[fullname m]} ∪ default ∅ processed)
      dyn a1 st1 = (Return a2, st2) /\
    f = List.length (factories st2) /\
    factories st' !! f =
      Some {| factory_name := __name__ m;
              factory_attributes := dict_set "Meta" (Meta m) a2 |} /\
    factory_registry st' = <[fullname m := f]> (factory_registry st2) /\
    classes st' = classes st2 /\
    factories st2 `prefix_of` factories st'.
Proof.
  destruct fuel as [|fuel']; [discriminate|].
  intros H Hmiss. cbn [make_factory] in H. rewrite Hmiss in H.
  unfold build_factory in H.
  destruct (relation_cols _) as [rc|] eqn:Hrc; [|discriminate].
  destruct (column_loop _ _ _ _ _) as [e|[a0 dyn]] eqn:Hcl; [discriminate|].
  apply bind_Return in H as (a1 & st1 & H1 & H).
  apply bind_Return in H as (a2 & st2 & H2 & H).
  unfold register_factory in H. inversion H; subst. clear H.
  exists fuel', rc, a0, dyn, a1, st1, a2, st2. simpl.
  repeat split; try assumption; try reflexivity.
  - rewrite lookup_app_r by reflexivity. now rewrite Nat.sub_diag.
  - by apply prefix_app_r.
Qed.

(** The attribute a built factory holds under a column's name, when no
    relationship key, inferred relation name or ["Meta"] takes that name. *)
Lemma factory_column_attribute fuel m processed st f st' rc col :
  make fuel m processed st = (Return f, st') ->
  factory_registry st !! fullname m = None ->
  relation_cols (relationships (classes st (class_id m))) = Some rc ->
  NoDup (name <$> columns m) ->
  col ∈ columns m ->
  (forall r, r ∈ relationships (classes st (class_id m)) -> rel_key r <> name col) ->
  (forall c, c ∈ columns m -> inferred rc c -> drop_last3 (key c) <> name col) ->
  name col <> "Meta" ->
  exists fac,
    factories st' !! f = Some fac /\
    (fk_guard rc col -> dict_get (name col) (factory_attributes fac) = None) /\
    (~ fk_guard rc col ->
     exists v, dict_get (name col) (factory_attributes fac) = Some (Value v) /\
               chosen overrides (fullname m) col v).
Proof.
  intros H Hmiss Hrc Hnd Hin Hrel Hdyn Hmeta.
  apply make_factory_Return_inv in H as
    (fuel' & rc' & a0 & dyn & a1 & st1 & a2 & st2 & -> & Hrc' & Hcl & Hrl & Hdl & -> & Hf & _);
    [|exact Hmiss].
  rewrite Hrc in Hrc'. injection Hrc' as <-.
  eexists. split; [exact Hf|]. cbn [factory_attributes].
  assert (E : dict_get (name col) (dict_set "Meta" (Meta m) a2) = dict_get (name col) a0).
  { rewrite dict_get_set_ne by congruence.
    rewrite (dynamic_loop_frame _ _ _ _ _ _ _ _ _ Hdl).
    - apply (relationship_loop_frame _ _ _ _ _ _ _ _ Hrl). exact Hrel.
    - intros d Hd. rewrite (column_loop_dynamic _ _ _ _ _ _ _ _ Hcl) in Hd.
      apply list_elem_of_fmap in Hd as (c & -> & Hc).
      apply list_elem_of_filter in Hc as [Hi Hc]. now apply Hdyn. }
  rewrite E.
  destruct (column_loop_attribute _ _ _ _ _ _ _ _ col Hcl Hnd Hin) as [H1 H2].
  split; [|exact H2]. intros Hg. now rewrite (H1 Hg).
Qed.

End builder_facts.

Lemma make_factory_Return_registered tables_to_models overrides fuel m processed st f st' :
  make_factory tables_to_models overrides fuel m processed st = (Return f, st') ->
  factory_registry st' !! fullname m = Some f.
Proof.
  intros H. destruct (factory_registry st !! fullname m) as [g|] eqn:E.
  - destruct fuel as [|fuel]; [discriminate|].
    rewrite (make_factory_registered _ _ _ _ _ _ _ E) in H. injection H as <- <-. exact E.
  - apply make_factory_Return_inv in H as
      (? & ? & ? & ? & ? & ? & ? & st2 & _ & _ & _ & _ & _ & _ & _ & Hreg & _); [|exact E].
    rewrite Hreg. apply lookup_insert_eq.
Qed.

(** ** The relationship resolver *)

Lemma relation_cols_first rels rc :
  relation_cols rels = Some rc ->
  forall c, c ∈ rc <-> exists r, r ∈ rels /\ head (local_columns r) = Some c.
Proof.
  revert rc. induction rels as [|r rels IH]; intros rc; cbn [relation_cols].
  - intros [= <-] c. split; [set_solver|]. intros (r & Hr & _). inversion Hr.
  - destruct (local_columns r) as [|c0 cs] eqn:Hl; [discriminate|].
    destruct (relation_cols rels) as [rc'|]; [|discriminate].
    intros [= <-] c. rewrite elem_of_union, elem_of_singleton, (IH rc' eq_refl c).
    split.
    + intros [->|(r' & Hr' & Hh)].
      * exists r. split; [left|]. now rewrite Hl.
      * exists r'. split; [now right | exact Hh].
    + intros (r' & Hr' & Hh). apply elem_of_cons in Hr' as [->|Hr'].
      * left. rewrite Hl in Hh. now injection Hh.
      * right. eauto.
Qed.

(** C7, as the code has it: the covered set holds the first local join
    column of each declared relationship, and an inferred relationship is
    emitted, in column order, for exactly the foreign-key columns whose key
    is outside that set and ends with ["_id"]; its name is the key without
    the suffix and its target the table of the first foreign key. *)
Theorem relationship_resolver overrides table_name rels cols rc a dyn :
  relation_cols rels = Some rc ->
  column_loop overrides table_name rc cols ([], []) = inr (a, dyn) ->
  (forall c, c ∈ rc <-> exists r, r ∈ rels /\ head (local_columns r) = Some c) /\
  (forall col, inferred rc col <->
     foreign_keys col <> [] /\ (key col ∉ rc) /\
     exists p, key col = String.append p "_id") /\
  Forall2
    (fun col d =>
       key col = String.append (relation_name d) "_id" /\
       head (foreign_keys col) = Some (foreign_table_name d))
    (filter (inferred rc) cols) dyn.
Proof.
  intros Hrc Hcl. split; [now apply relation_cols_first|]. split.
  - intros col. unfold inferred. now rewrite last3_id_iff.
  - rewrite (column_loop_dynamic _ _ _ _ _ _ _ _ Hcl). cbn [app].
    apply Forall2_fmap_r, Forall_Forall2_diag, Forall_forall.
    intros col Hcol. apply list_elem_of_filter in Hcol as [(Hfk & _ & Hs) _].
    unfold inferred_relationship. cbn [relation_name foreign_table_name]. split.
    + now apply last3_id_split.
    + destruct (foreign_keys col); [congruence | reflexivity].
Qed.

Lemma relationship_resolver_witness :
  Forall2
    (fun col d =>
       key col = String.append (relation_name d) "_id" /\
       head (foreign_keys col) = Some (foreign_table_name d))
    (filter (inferred ∅) (columns Job))
    [{| foreign_table_name := "pipeline"; relation_name := "pipeline" |}].
Proof.
  refine (proj2 (proj2 (relationship_resolver job_overrides "job" [] (columns Job) ∅
    [("id", Value (PyObject (Faker "uuid4" NoKwargs)));
     ("status", Value (PyStr "RUNNING"));
     ("retries", Value (PyObject (Faker "random_int" NoKwargs)));
     ("pipeline_id", Value (PyObject (Faker "pystr" (MaxChars 36))))]
    _ _ _))); vm_compute; reflexivity.
Defined.

(** C7 as stated fails on a relationship joined over two columns: only
    the first is covered, and the second is then inferred again. *)
Lemma relation_cols_composite_join :
  relation_cols [composite_relationship] = Some {["order_id"]} /\
  relation_cols [composite_relationship]
    <> Some (spec_relation_cols [composite_relationship]) /\
  "warehouse_id" ∈ spec_relation_cols [composite_relationship] /\
  inferred {["order_id"]}
    {| key := "warehouse_id"; name := "warehouse_id"; type := Integer;
       primary_key := false; foreign_keys := ["warehouse"] |}.
Proof.
  split; [vm_compute; reflexivity|]. split; [|split].
  - cbn [relation_cols composite_relationship local_columns fmap option_fmap option_map].
    intros E. apply (inj Some) in E.
    assert (H : "warehouse_id" ∈ ({["order_id"]} ∪ ∅ : gset string)).
    { rewrite E. unfold spec_relation_cols. cbn. set_solver. }
    set_solver.
  - unfold spec_relation_cols. cbn. set_solver.
  - unfold inferred. cbn. repeat split; [discriminate | set_solver].
Qed.

(** ** Column attributes *)

Lemma chosen_override overrides table_name col v' v :
  chosen overrides table_name col v' ->
  get_override overrides table_name col = Some v -> truthy v = true ->
  v' = v.
Proof.
  intros [[E _]|[[E|(w & E & Hw)] _]] Ho Ht; rewrite Ho in E.
  - now injection E.
  - discriminate.
  - injection E as <-. congruence.
Qed.

Lemma chosen_provider overrides table_name col v' :
  chosen overrides table_name col v' ->
  (forall v, get_override overrides table_name col = Some v -> truthy v = false) ->
  exists provider, data_providers (type col) = Some provider /\ v' = provider col.
Proof.
  intros [[E Ht]|[_ H]] Ho; [|exact H].
  rewrite (Ho _ E) in Ht. discriminate.
Qed.

(** C3, as the code has it: a foreign-key column whose key is in
    [relation_cols] or lacks the ["_id"] suffix gets no attribute, override
    or not; any other column gets its override when that is truthy, and
    otherwise the value of the provider of its type.  The attribute is
    read under the column's name, so the policy is stated for a column
    whose name no other column has and that is neither the key of a
    declared relationship, nor the name of an inferred one, nor ["Meta"]:
    the later loops and the registration write under those names. *)
Theorem column_attribute_policy tables_to_models overrides fuel m processed st f st' rc col :
  make_factory tables_to_models overrides fuel m processed st = (Return f, st') ->
  factory_registry st !! fullname m = None ->
  relation_cols (relationships (classes st (class_id m))) = Some rc ->
  NoDup (name <$> columns m) ->
  col ∈ columns m ->
  (forall r, r ∈ relationships (classes st (class_id m)) -> rel_key r <> name col) ->
  (forall c, c ∈ columns m -> inferred rc c -> drop_last3 (key c) <> name col) ->
  name col <> "Meta" ->
  exists fac,
    factories st' !! f = Some fac /\
    (fk_guard rc col -> dict_get (name col) (factory_attributes fac) = None) /\
    (~ fk_guard rc col ->
     forall v, get_override overrides (fullname m) col = Some v -> truthy v = true ->
     dict_get (name col) (factory_attributes fac) = Some (Value v)) /\
    (~ fk_guard rc col ->
     (forall v, get_override overrides (fullname m) col = Some v -> truthy v = false) ->
     exists provider,
       data_providers (type col) = Some provider /\
       dict_get (name col) (factory_attributes fac) = Some (Value (provider col))).
Proof.
  intros H Hmiss Hrc Hnd Hin Hrel Hdyn Hmeta.
  destruct (factory_column_attribute _ _ _ _ _ _ _ _ _ _ H Hmiss Hrc Hnd Hin Hrel Hdyn Hmeta)
    as (fac & Hf & Hg & Hng).
  exists fac. split; [exact Hf|]. split; [exact Hg|]. split.
  - intros G v Ho Ht. destruct (Hng G) as (v' & -> & Hc).
    now rewrite (chosen_override _ _ _ _ _ Hc Ho Ht).
  - intros G Ho. destruct (Hng G) as (v' & -> & Hc).
    destruct (chosen_provider _ _ _ _ Hc Ho) as (provider & Hp & ->). eauto.
Qed.

Lemma account_build :
  make_factory account_tables account_overrides 1 Account None (empty_session no_classes)
  = (Return 0, account_session).
Proof. vm_compute. reflexivity. Defined.

Lemma column_attribute_policy_witness :
  exists fac,
    factories account_session !! 0 = Some fac /\
    dict_get "owner" (factory_attributes fac) = None.
Proof.
  destruct (column_attribute_policy account_tables account_overrides 1 Account None
              (empty_session no_classes) 0 account_session ∅ owner_column account_build)
    as (fac & Hf & Hg & _).
  - vm_compute. reflexivity.
  - vm_compute. reflexivity.
  - apply (bool_decide_unpack _). vm_compute. exact I.
  - right. left.
  - intros r Hr. inversion Hr.
  - intros c Hc (Hfk & _ & Hs) _.
    repeat (apply elem_of_cons in Hc as [->|Hc]); [| | |inversion Hc];
      first [now apply Hfk | cbv in Hs; discriminate Hs].
  - discriminate.
  - exists fac. split; [exact Hf|]. apply Hg.
    split; [discriminate|]. right. discriminate.
Defined.

(** C3 as stated fails on [Account.owner]: the column has no override and
    no declared relationship covers it, yet it is left without a value
    because it is a foreign key whose key lacks the suffix. *)
Lemma owner_column_left_without_value :
  exists fac,
    factories account_session !! 0 = Some fac /\
    dict_get "owner" (factory_attributes fac) = None /\
    spec_column_policy account_overrides "account" [] owner_column
      = Some (Value (PyObject (Faker "pystr" (MaxChars 36)))) /\
    dict_get "owner" (factory_attributes fac)
      <> spec_column_policy account_overrides "account" [] owner_column.
Proof.
  eexists. split; [vm_compute; reflexivity|].
  split; [vm_compute; reflexivity|].
  split; [vm_compute; reflexivity|].
  vm_compute. discriminate.
Qed.

(** C2, as the code has it: a truthy override of a column the
    foreign-key guard does not pass over is the attribute the built
    factory holds under the column's name. *)
Theorem truthy_override_wins tables_to_models overrides fuel m processed st f st' rc col v :
  make_factory tables_to_models overrides fuel m processed st = (Return f, st') ->
  factory_registry st !! fullname m = None ->
  relation_cols (relationships (classes st (class_id m))) = Some rc ->
  NoDup (name <$> columns m) ->
  col ∈ columns m ->
  (forall r, r ∈ relationships (classes st (class_id m)) -> rel_key r <> name col) ->
  (forall c, c ∈ columns m -> inferred rc c -> drop_last3 (key c) <> name col) ->
  name col <> "Meta" ->
  ~ fk_guard rc col ->
  get_override overrides (fullname m) col = Some v ->
  truthy v = true ->
  exists fac,
    factories st' !! f = Some fac /\
    dict_get (name col) (factory_attributes fac) = Some (Value v).
Proof.
  intros H Hmiss Hrc Hnd Hin Hrel Hdyn Hmeta G Ho Ht.
  destruct (factory_column_attribute _ _ _ _ _ _ _ _ _ _ H Hmiss Hrc Hnd Hin Hrel Hdyn Hmeta)
    as (fac & Hf & _ & Hng).
  exists fac. split; [exact Hf|].
  destruct (Hng G) as (v' & -> & Hc).
  now rewrite (chosen_override _ _ _ _ _ Hc Ho Ht).
Qed.

Lemma truthy_override_wins_witness :
  exists fac,
    factories account_session !! 0 = Some fac /\
    dict_get "notes" (factory_attributes fac) = Some (Value (PyStr "n/a")).
Proof.
  apply (truthy_override_wins account_tables account_overrides 1 Account None
           (empty_session no_classes) 0 account_session ∅ notes_column (PyStr "n/a")
           account_build).
  - vm_compute. reflexivity.
  - vm_compute. reflexivity.
  - apply (bool_decide_unpack _). vm_compute. exact I.
  - right. right. left.
  - intros r Hr. inversion Hr.
  - intros c Hc (Hfk & _ & Hs) _.
    repeat (apply elem_of_cons in Hc as [->|Hc]); [| | |inversion Hc];
      first [now apply Hfk | cbv in Hs; discriminate Hs].
  - discriminate.
  - intros [Hfk _]. now apply Hfk.
  - vm_compute. reflexivity.
  - reflexivity.
Defined.

(** C2 as stated fails twice.  Under [job_overrides] the override [0] of
    [job.retries] is falsy, so the factory of [Job] holds the provider's
    declaration instead.  Under [member_overrides] the override of
    [member.team_id] is dropped, because the column is covered by the
    declared relationship [team]: the factory of [Member] has no
    [team_id]. *)
Lemma override_ignored :
  get_override job_overrides "job"
    {| key := "retries"; name := "retries"; type := Integer;
       primary_key := false; foreign_keys := [] |} = Some (PyInt 0) /\
  make_factory pipeline_tables job_overrides 2 Job None (empty_session pipeline_classes)
    = (Return 1, job_session) /\
  (factory_attributes <$> factories job_session !! 1) ≫= dict_get "retries"
    = Some (Value (PyObject (Faker "random_int" NoKwargs))) /\
  get_override member_overrides "member"
    {| key := "team_id"; name := "team_id"; type := String_ (Some 36%Z);
       primary_key := false; foreign_keys := ["team"] |} = Some (PyStr "team-1") /\
  make_factory team_tables member_overrides 2 Member None (empty_session team_classes)
    = (Return 1, member_session) /\
  (factory_attributes <$> factories member_session !! 1) ≫= dict_get "team_id" = None.
Proof. vm_compute. repeat split; reflexivity. Qed.

(** ** Configuration errors *)

(** C9, as the code has it: a build that misses the registry never
    returns a factory when a column that is neither passed over by the
    foreign-key guard nor given a truthy override has a type without
    provider, nor when a declared relationship to a table outside the
    visited set, or an inferred relationship, targets a table no model
    maps.  In the column case the error is raised before anything is
    built or changed. *)
Theorem configuration_error_raises tables_to_models overrides fuel m processed st rc :
  factory_registry st !! fullname m = None ->
  relation_cols (relationships (classes st (class_id m))) = Some rc ->
  missing_provider overrides m rc \/
  unknown_declared_target tables_to_models ({[fullname m]} ∪ default ∅ processed)
    (relationships (classes st (class_id m))) \/
  unknown_inferred_target tables_to_models m rc ->
  (forall f st', make_factory tables_to_models overrides fuel m processed st <> (Return f, st')) /\
  (missing_provider overrides m rc -> fuel <> 0 ->
   exists e, make_factory tables_to_models overrides fuel m processed st = (Raise e, st)).
Proof.
  intros Hmiss Hrc Hbad. split.
  - intros f st' H.
    apply make_factory_Return_inv in H as
      (fuel' & rc' & a0 & dyn & a1 & st1 & a2 & st2 & -> & Hrc' & Hcl & Hrl & Hdl & _);
      [|exact Hmiss].
    rewrite Hrc in Hrc'. injection Hrc' as <-.
    destruct Hbad as [(col & Hin & Hng & Hp & Ho)|[(r & Hin & Ht & Hk)|(col & fk & Hin & Hi & Hh & Hk)]].
    + destruct (column_loop_inl overrides (fullname m) rc (columns m) ([], []) col Hin Hng Hp Ho)
        as [e He].
      congruence.
    + destruct (relationship_loop_known _ _ _ _ _ _ _ _ _ Hrl Hin Ht) as [x Hx]. congruence.
    + assert (Hd : inferred_relationship col ∈ dyn).
      { rewrite (column_loop_dynamic _ _ _ _ _ _ _ _ Hcl). cbn [app].
        apply list_elem_of_fmap. exists col. split; [reflexivity|].
        apply list_elem_of_filter. split; assumption. }
      destruct (dynamic_loop_known _ _ _ _ _ _ _ _ _ _ Hdl Hd) as [x Hx].
      unfold inferred_relationship in Hx. cbn [foreign_table_name] in Hx.
      rewrite Hh in Hx. cbn in Hx. congruence.
  - intros (col & Hin & Hng & Hp & Ho) Hfuel.
    destruct fuel as [|fuel']; [congruence|].
    cbn [make_factory]. rewrite Hmiss. unfold build_factory. rewrite Hrc.
    destruct (column_loop_inl overrides (fullname m) rc (columns m) ([], []) col Hin Hng Hp Ho)
      as [e ->].
    eauto.
Qed.

Lemma configuration_error_raises_witness :
  exists e,
    make_factory account_tables ∅ 1 Account None (empty_session no_classes)
    = (Raise e, empty_session no_classes).
Proof.
  assert (Hm : missing_provider ∅ Account ∅).
  { exists notes_column. split; [right; right; left|].
    split; [intros [Hfk _]; now apply Hfk|].
    split; [reflexivity|]. intros v Hv. vm_compute in Hv. discriminate Hv. }
  apply (configuration_error_raises account_tables ∅ 1 Account None
           (empty_session no_classes) ∅).
  - vm_compute. reflexivity.
  - vm_compute. reflexivity.
  - left. exact Hm.
  - exact Hm.
  - discriminate.
Defined.

(** C9 as stated fails on [Account]: [notes] has a type without provider
    and [owner] references a table no model maps, yet the build returns a
    factory: the override spares [notes] the provider lookup, and [owner]
    is passed over without its target being looked up. *)
Lemma account_built_despite_configuration_errors :
  notes_column ∈ columns Account /\
  data_providers (type notes_column) = None /\
  owner_column ∈ columns Account /\
  foreign_keys owner_column = ["user"] /\
  account_tables !! "user" = None /\
  fst (make_factory account_tables account_overrides 1 Account None
         (empty_session no_classes)) = Return 0.
Proof.
  split; [right; right; left|]. split; [reflexivity|].
  split; [right; left|]. split; [reflexivity|].
  split; vm_compute; reflexivity.
Qed.

(** ** The visited set and inferred relationships *)

(** A model without declared relationships whose first inferred
    relationship targets the model's own table: the loop over inferred
    relationships calls [make_factory] for the model again, in the same
    store and before anything is registered, so no fuel suffices. *)
Lemma inferred_self_reference_diverges tables_to_models overrides m st a0 d0 dyn :
  factory_registry st !! fullname m = None ->
  relationships (classes st (class_id m)) = [] ->
  column_loop overrides (fullname m) ∅ (columns m) ([], []) = inr (a0, d0 :: dyn) ->
  tables_to_models !! foreign_table_name d0 = Some m ->
  forall fuel processed,
    make_factory tables_to_models overrides fuel m processed st = (OutOfFuel, st).
Proof.
  intros Hmiss Hrels Hcl Hself.
  induction fuel as [|fuel IH]; intros processed; [reflexivity|].
  cbn [make_factory]. rewrite Hmiss. unfold build_factory.
  rewrite Hrels. cbn [relation_cols]. rewrite Hcl.
  erewrite bind_Return_eq by reflexivity.
  erewrite bind_OutOfFuel; [reflexivity|].
  cbn [dynamic_loop].
  erewrite bind_Return_eq by (unfold lookup_model; rewrite Hself; reflexivity).
  erewrite bind_OutOfFuel; [reflexivity|]. apply IH.
Qed.

(** C1: [Node.parent_id] references [node] itself and no relationship is
    declared, so the relationship is inferred; the loop over inferred
    relationships calls [make_factory] for [node] again although [node]
    is in the visited set, and the calls nest without end: whatever the
    fuel, no factory and no error comes back. *)
Theorem self_reference_inferred_never_returns :
  forall fuel processed,
    make_factory node_tables ∅ fuel Node processed (empty_session no_classes)
    = (OutOfFuel, empty_session no_classes).
Proof.
  apply (inferred_self_reference_diverges node_tables ∅ Node (empty_session no_classes)
           [("id", Value (PyObject (Faker "uuid4" NoKwargs)));
            ("parent_id", Value (PyObject (Faker "pystr" (MaxChars 36))))]
           {| foreign_table_name := "node"; relation_name := "parent" |} []);
    vm_compute; reflexivity.
Qed.

(** With the relationship declared instead, the visited set stops the
    recursion: the build returns and the factory has no [parent]. *)
Example self_reference_declared_returns :
  fst (make_factory node_tables ∅ 1 Node None (empty_session declared_parent)) = Return 0 /\
  (factory_attributes
     <$> factories (snd (make_factory node_tables ∅ 1 Node None
                           (empty_session declared_parent))) !! 0)
    ≫= dict_get "parent" = None.
Proof. vm_compute. split; reflexivity. Qed.

(** C4: [Job.pipeline_id] yields the inferred relationship [pipeline],
    and [pipeline_id] is the only foreign key between the two tables.
    Called with [pipeline] already in the visited set, as the build of
    [Pipeline] calls it, [make_factory] still enters [Pipeline]: it builds
    and registers a factory for it and wires it in as a [SubFactory]. *)
Theorem visited_target_built_for_inferred :
  factory_registry (empty_session pipeline_classes) !! "pipeline" = None /\
  make_factory pipeline_tables job_overrides 2 Job (Some {["pipeline"]})
    (empty_session pipeline_classes) = (Return 1, job_nested_session) /\
  factory_name <$> factories job_nested_session = ["Pipeline"; "Job"] /\
  factory_registry job_nested_session !! "pipeline" = Some 0 /\
  (factory_attributes <$> factories job_nested_session !! 1) ≫= dict_get "pipeline"
    = Some (SubFactory 0).
Proof. vm_compute. repeat split; reflexivity. Qed.

(** C6: building [Pipeline] reaches [Job] through the declared
    collection [jobs]; the inferred relationship of [Job] builds and
    registers a first [Pipeline] factory (the nested call, first
    conjunct); when the outer build ends it registers a second one in its
    place.  [Job] keeps the first, which has no [jobs]. *)
Theorem registered_factory_replaced :
  factory_registry job_nested_session !! "pipeline" = Some 0 /\
  make_factory pipeline_tables job_overrides 3 Pipeline None
    (empty_session pipeline_classes) = (Return 2, pipeline_session) /\
  factory_registry pipeline_session !! "pipeline" = Some 2 /\
  factory_name <$> factories pipeline_session = ["Pipeline"; "Job"; "Pipeline"] /\
  (factory_attributes <$> factories pipeline_session !! 1) ≫= dict_get "pipeline"
    = Some (SubFactory 0) /\
  (factory_attributes <$> factories pipeline_session !! 0) ≫= dict_get "jobs" = None /\
  (factory_attributes <$> factories pipeline_session !! 2) ≫= dict_get "jobs"
    = Some (PostGeneration 1 "jobs").
Proof. vm_compute. repeat split; reflexivity. Qed.

(** Where two foreign keys link the two tables, SQLAlchemy cannot tell
    which one the inferred relationship follows: the build of [Approval]
    registers a factory for [Stage] and then raises. *)
Example mutual_foreign_keys_are_ambiguous :
  make_factory stage_tables ∅ 2 Approval None (empty_session stage_classes)
    = (Raise AmbiguousForeignKeysError, approval_session) /\
  factory_registry approval_session !! "stage" = Some 0 /\
  factory_registry approval_session !! "approval" = None.
Proof. vm_compute. repeat split; reflexivity. Qed.

(** ** What calling a factory preserves *)

Lemma evaluate_snd d st : snd (evaluate d st) = st.
Proof.
  unfold evaluate. destruct d as [provider [| |[|]]|]; try reflexivity.
  destruct (String.eqb provider "random_element"); reflexivity.
Qed.

Lemma evaluate_Return d st v st' :
  evaluate d st = (Return v, st') -> v = Generated d /\ st' = st.
Proof.
  unfold evaluate. destruct d as [provider [| |[|]]|];
    try (now intros [= <- <-]).
  destruct (String.eqb provider "random_element"); [discriminate|].
  now intros [= <- <-].
Qed.

Lemma evaluate_evaluable d st :
  evaluable (PyObject d) -> evaluate d st = (Return (Generated d), st).
Proof.
  unfold evaluate, evaluable. intros H.
  destruct d as [provider [| |[|]]|]; try reflexivity.
  destruct (String.eqb_spec provider "random_element") as [->|]; [|reflexivity].
  now contradict H.
Qed.

(** [_create] returns the cached instance; or, on a miss, raises
    [TypeError] and leaves the store as it was; or creates an instance and
    caches it. *)
Lemma _create_cases mc kw st :
  (exists i, model_instance_registry st !! __tablename__ mc = Some i /\
     _create mc kw st = (Return i, st)) \/
  (model_instance_registry st !! __tablename__ mc = None /\
   ((exists k, invalid_keyword (classes st (class_id mc)) kw = Some k /\
        _create mc kw st = (Raise (TypeError k), st)) \/
    (invalid_keyword (classes st (class_id mc)) kw = None /\
     _create mc kw st
     = (Return (List.length (instances st)),
        snd (cache_instance (__tablename__ mc) (List.length (instances st))
               (add_instance {| instance_of := mc; fields := kw |} st)))))).
Proof.
  unfold _create.
  destruct (model_instance_registry st !! __tablename__ mc) as [i|] eqn:E; [left; eauto|].
  right. split; [reflexivity|]. unfold bind, new_instance.
  destruct (invalid_keyword (classes st (class_id mc)) kw) as [k|];
    [left; eauto | right; split; reflexivity].
Qed.

Lemma evaluate_not_out d st : fst (evaluate d st) <> OutOfFuel.
Proof.
  unfold evaluate. destruct d as [provider [| |[|]]|]; try discriminate.
  destruct (String.eqb provider "random_element"); discriminate.
Qed.

Lemma evaluate_pure d : exists o, forall st, evaluate d st = (o, st).
Proof.
  unfold evaluate. destruct d as [provider [| |[|]]|]; try (eexists; reflexivity).
  destruct (String.eqb provider "random_element"); eexists; reflexivity.
Qed.

Section call_preservation.

Variable R : state -> state -> Prop.
Hypothesis R_refl : forall st, R st st.
Hypothesis R_trans : forall x y z, R x y -> R y z -> R x z.
Hypothesis R_create : forall mc kw st, R st (snd (_create mc kw st)).
Hypothesis R_append : forall self k j st, R st (snd (append_related self k j st)).

Lemma resolve_preserves call :
  (forall g st, R st (snd (call g st))) ->
  forall d st, R st (snd (resolve call d st)).
Proof.
  intros Hcall d. induction d as [|[k a] rest IH]; intros st; [apply R_refl|].
  cbn [resolve]. destruct a as [v|g|g rel|mc]; try apply IH.
  - destruct v;
      try (apply bind_snd; [exact R_trans | apply IH |];
           intros kw st1; apply R_refl).
    apply bind_snd; [exact R_trans | rewrite evaluate_snd; apply R_refl |].
    intros v st1. apply bind_snd; [exact R_trans | apply IH |].
    intros kw st2. apply R_refl.
  - apply bind_snd; [exact R_trans | apply Hcall |].
    intros j st1. apply bind_snd; [exact R_trans | apply IH |].
    intros kw st2. apply R_refl.
Qed.

Lemma many_to_one_preserves call :
  (forall g st, R st (snd (call g st))) ->
  forall g k i create st, R st (snd (many_to_one call g k i create st)).
Proof.
  intros Hcall g k i create st. unfold many_to_one.
  destruct create; cbn [negb]; [|apply R_refl].
  apply bind_snd; [exact R_trans | apply Hcall |]. intros j st1. apply R_append.
Qed.

Lemma post_generation_preserves call :
  (forall g st, R st (snd (call g st))) ->
  forall d i st, R st (snd (post_generation call d i st)).
Proof.
  intros Hcall d i. induction d as [|[k a] rest IH]; intros st; [apply R_refl|].
  cbn [post_generation]. destruct a as [v|g|g rel|mc]; try apply IH.
  apply bind_snd; [exact R_trans | | intros ? st1; apply IH].
  unfold many_to_one. cbn [negb].
  apply bind_snd; [exact R_trans | apply Hcall |]. intros j st1. apply R_append.
Qed.

Lemma call_factory_preserves fuel :
  forall f st, R st (snd (call_factory fuel f st)).
Proof.
  induction fuel as [|fuel IH]; intros f st; [apply R_refl|].
  cbn [call_factory].
  destruct (factories st !! f) as [fac|]; [|apply R_refl].
  destruct (dict_get "Meta" (factory_attributes fac)) as [[| | |mc]|]; try apply R_refl.
  apply bind_snd; [exact R_trans | apply resolve_preserves, IH |].
  intros kw st1. apply bind_snd; [exact R_trans | apply R_create |].
  intros i st2. apply bind_snd; [exact R_trans | apply post_generation_preserves, IH |].
  intros ? st3. apply R_refl.
Qed.

End call_preservation.

Lemma call_frame_refl st : call_frame st st.
Proof. repeat split. Qed.

Lemma call_frame_trans x y z : call_frame x y -> call_frame y z -> call_frame x z.
Proof. intros (A1 & B1 & C1) (A2 & B2 & C2). repeat split; congruence. Qed.

Lemma call_frame_create mc kw st : call_frame st (snd (_create mc kw st)).
Proof.
  destruct (_create_cases mc kw st) as [(i & _ & ->)|[_ [(k & _ & ->)|[_ ->]]]];
    repeat split.
Qed.

Lemma call_frame_append self k j st : call_frame st (snd (append_related self k j st)).
Proof.
  unfold append_related.
  destruct (instances st !! self) as [inst|]; [|repeat split].
  destruct (dict_get k (fields inst)) as [[| | |items]|]; repeat split.
Qed.

Lemma call_factory_call_frame fuel f st :
  call_frame st (snd (call_factory fuel f st)).
Proof.
  apply call_factory_preserves.
  - exact call_frame_refl.
  - exact call_frame_trans.
  - exact call_frame_create.
  - exact call_frame_append.
Qed.

(** ** Invariants of the builder *)

(** [setattr] raises and leaves the store as it was, or adds a
    relationship under the given name to the class. *)
Lemma setattr_relationship_cases m k fm st :
  (exists e, setattr_relationship m k fm st = (Raise e, st)) \/
  (exists r, rel_key r = k /\ target r = fullname fm /\
     setattr_relationship m k fm st
     = (Return tt, add_relationship m r (__name__ fm) st)).
Proof.
  unfold setattr_relationship.
  destruct (foreign_key_columns m (fullname fm)) as [|c [|c' l]];
    destruct (String.eqb (fullname m) (fullname fm));
    try destruct (foreign_key_columns fm (fullname m)) as [|d [|d' l']];
    first [left; eexists; reflexivity | right; eexists; repeat split; reflexivity].
Qed.

Section preservation.

Variable tables_to_models : gmap string model.
Variable overrides : gmap string (gmap string pyvalue).

(** A relation on stores that every store update of the builder respects. *)
Variable R : state -> state -> Prop.
Hypothesis R_refl : forall st, R st st.
Hypothesis R_trans : forall x y z, R x y -> R y z -> R x z.
Hypothesis R_setattr :
  forall m k fm st, R st (snd (setattr_relationship m k fm st)).
Hypothesis R_exclude :
  forall m k st, R st (snd (exclude_from_serialization m k st)).
Hypothesis R_register :
  forall m a st,
    R st (snd (register_factory (fullname m)
                 {| factory_name := __name__ m;
                    factory_attributes := dict_set "Meta" (Meta m) a |} st)).

Implicit Types (rec : model -> option (gset string) -> M factory_ref).

Lemma relationship_loop_preserves rec :
  (forall m p st, R st (snd (rec m p st))) ->
  forall processed rels a st,
    R st (snd (relationship_loop tables_to_models rec processed rels a st)).
Proof.
  intros Hrec processed rels. induction rels as [|r rels IH]; intros a st.
  - apply R_refl.
  - cbn [relationship_loop]. destruct (bool_decide _); [apply IH|].
    apply bind_snd; [exact R_trans | rewrite lookup_model_snd; apply R_refl |].
    intros fm st1. apply bind_snd; [exact R_trans | apply Hrec |].
    intros g st2. apply IH.
Qed.

Lemma dynamic_loop_preserves rec :
  (forall m p st, R st (snd (rec m p st))) ->
  forall m processed dyn a st,
    R st (snd (dynamic_loop tables_to_models rec m processed dyn a st)).
Proof.
  intros Hrec m processed dyn. induction dyn as [|d dyn IH]; intros a st.
  - apply R_refl.
  - cbn [dynamic_loop].
    apply bind_snd; [exact R_trans | rewrite lookup_model_snd; apply R_refl |].
    intros fm st1. apply bind_snd; [exact R_trans | apply Hrec |].
    intros g st2. apply bind_snd; [exact R_trans | apply R_setattr |].
    intros ? st3. apply bind_snd; [exact R_trans | apply R_exclude |].
    intros ? st4. apply IH.
Qed.

Lemma make_factory_preserves fuel :
  forall m processed st,
    R st (snd (make_factory tables_to_models overrides fuel m processed st)).
Proof.
  induction fuel as [|fuel IH]; intros m processed st; [apply R_refl|].
  cbn [make_factory]. destruct (factory_registry st !! fullname m); [apply R_refl|].
  unfold build_factory.
  destruct (relation_cols _); [|apply R_refl].
  destruct (column_loop _ _ _ _ _) as [e|[a0 dyn]]; [apply R_refl|].
  apply bind_snd; [exact R_trans | apply relationship_loop_preserves, IH |].
  intros a1 st1.
  apply bind_snd; [exact R_trans | apply dynamic_loop_preserves, IH |].
  intros a2 st2. apply R_register.
Qed.

End preservation.

(** What building factories leaves alone. *)

Lemma build_frame_refl st : build_frame st st.
Proof. repeat split; reflexivity. Qed.

Lemma build_frame_trans x y z : build_frame x y -> build_frame y z -> build_frame x z.
Proof.
  intros (P1 & D1 & I1 & C1) (P2 & D2 & I2 & C2). repeat split.
  - by etrans.
  - by etrans.
  - congruence.
  - congruence.
Qed.

Lemma build_frame_setattr m k fm st :
  build_frame st (snd (setattr_relationship m k fm st)).
Proof.
  destruct (setattr_relationship_cases m k fm st) as [[e ->]|(r & _ & _ & ->)];
    repeat split; reflexivity.
Qed.

Lemma build_frame_exclude m k st :
  build_frame st (snd (exclude_from_serialization m k st)).
Proof.
  unfold exclude_from_serialization.
  destruct (serialize_rules _); repeat split; reflexivity.
Qed.

Lemma build_frame_register t f st :
  build_frame st (snd (register_factory t f st)).
Proof.
  repeat split; cbn.
  - by apply prefix_app_r.
  - rewrite dom_insert_L. set_solver.
Qed.

Lemma make_factory_build_frame tables_to_models overrides fuel m processed st :
  build_frame st (snd (make_factory tables_to_models overrides fuel m processed st)).
Proof.
  apply make_factory_preserves.
  - exact build_frame_refl.
  - exact build_frame_trans.
  - exact build_frame_setattr.
  - exact build_frame_exclude.
  - intros m0 a st0. apply build_frame_register.
Qed.

Lemma attribute_kept_refl a : attribute_kept a a.
Proof. destruct a as [[|argument]|]; cbn; eauto. Qed.

Lemma attribute_kept_trans a b c :
  attribute_kept a b -> attribute_kept b c -> attribute_kept a c.
Proof.
  destruct a as [[|x]|]; cbn; [| |auto].
  - intros [[|y] ->]; cbn; [auto|]. intros [z ->]. eauto.
  - intros [y ->]. cbn. auto.
Qed.

Lemma attribute_kept_relationship a a' argument :
  attribute_kept a a' -> a = Some (RelationshipProperty argument) ->
  exists argument', a' = Some (RelationshipProperty argument').
Proof. intros H ->. exact H. Qed.

Lemma classes_extended_refl st : classes_extended st st.
Proof.
  intros id. split; [intros k; apply attribute_kept_refl|]. split; [|auto].
  intros rules H. exists []. now rewrite app_nil_r.
Qed.

Lemma classes_extended_trans x y z :
  classes_extended x y -> classes_extended y z -> classes_extended x z.
Proof.
  intros Hxy Hyz id. destruct (Hxy id) as (A1 & B1 & C1), (Hyz id) as (A2 & B2 & C2).
  split; [intros k; eapply attribute_kept_trans; eauto|]. split; [|auto].
  intros rules H. destruct (B1 _ H) as [m1 H1]. destruct (B2 _ H1) as [m2 H2].
  exists (m1 ++ m2)%list. now rewrite app_assoc.
Qed.

Lemma classes_extended_eq st st' : classes st' = classes st -> classes_extended st st'.
Proof.
  intros E id. rewrite E. apply (classes_extended_refl st id).
Qed.

Lemma classes_extended_add_relationship m r argument st :
  classes_extended st (add_relationship m r argument st).
Proof.
  intros id. cbn. destruct (Nat.eqb_spec id (class_id m)) as [->|Hne];
    [|apply classes_extended_refl].
  cbn. split; [|split; [|auto]].
  - intros k'. destruct (decide (rel_key r = k')) as [<-|Hk].
    + rewrite lookup_insert_eq.
      destruct (class_attrs (classes st (class_id m)) !! rel_key r) as [[|x]|]; cbn; eauto.
    + rewrite lookup_insert_ne by exact Hk. apply attribute_kept_refl.
  - intros rules H. exists []. now rewrite app_nil_r.
Qed.

Lemma classes_extended_setattr m k fm st :
  classes_extended st (snd (setattr_relationship m k fm st)).
Proof.
  destruct (setattr_relationship_cases m k fm st) as [[e ->]|(r & _ & _ & ->)].
  - apply classes_extended_refl.
  - apply classes_extended_add_relationship.
Qed.

Lemma classes_extended_exclude m k st :
  classes_extended st (snd (exclude_from_serialization m k st)).
Proof.
  unfold exclude_from_serialization.
  destruct (serialize_rules (classes st (class_id m))) as [rules|] eqn:E;
    [|apply classes_extended_refl].
  intros id. cbn. destruct (Nat.eqb_spec id (class_id m)) as [->|Hne];
    [|apply classes_extended_refl].
  cbn. split; [intros k'; apply attribute_kept_refl|]. split.
  - intros rules' H. rewrite E in H. injection H as <-. eauto.
  - rewrite E. discriminate.
Qed.

Lemma classes_extended_register t f st :
  classes_extended st (snd (register_factory t f st)).
Proof. intros id. cbn. apply classes_extended_refl. Qed.

Lemma make_factory_extends_classes tables_to_models overrides fuel m processed st :
  classes_extended st (snd (make_factory tables_to_models overrides fuel m processed st)).
Proof.
  apply make_factory_preserves.
  - exact classes_extended_refl.
  - exact classes_extended_trans.
  - exact classes_extended_setattr.
  - exact classes_extended_exclude.
  - intros m0 a st0. apply classes_extended_register.
Qed.

(** Whatever follows in the process, the classes are only extended. *)
Lemma follows_extends_classes st later :
  follows st later -> classes_extended st later.
Proof.
  induction 1 as [|tables_to_models overrides fuel m processed st1 _ IH
                  |fuel f st1 _ IH|st1 _ IH].
  - apply classes_extended_refl.
  - eapply classes_extended_trans; [exact IH|]. apply make_factory_extends_classes.
  - eapply classes_extended_trans; [exact IH|]. apply classes_extended_eq.
    apply (call_factory_call_frame fuel f st1).
  - eapply classes_extended_trans; [exact IH|]. now apply classes_extended_eq.
Qed.

(** What the loop over inferred relationships leaves on the model class. *)
Lemma dynamic_loop_marks_class tables_to_models rec m processed dyn a st a' st' d :
  (forall m p st, classes_extended st (snd (rec m p st))) ->
  dynamic_loop tables_to_models rec m processed dyn a st = (Return a', st') ->
  d ∈ dyn ->
  (exists argument,
     class_attrs (classes st' (class_id m)) !! relation_name d
     = Some (RelationshipProperty argument)) /\
  (forall rules, serialize_rules (classes st (class_id m)) = Some rules ->
     exists rules', serialize_rules (classes st' (class_id m)) = Some rules' /\
                    String.append "-" (relation_name d) ∈ rules').
Proof.
  intros Hrec. revert a st. induction dyn as [|d0 dyn IH]; intros a st H Hin.
  - inversion Hin.
  - cbn [dynamic_loop] in H.
    apply bind_Return in H as (fm & st1 & Hfm & H).
    apply lookup_model_Return in Hfm as [_ ->].
    apply bind_Return in H as (g & st2 & Hg & H).
    apply bind_Return in H as (? & st3 & H3 & H).
    apply bind_Return in H as (? & st4 & H4 & H).
    assert (E2 : classes_extended st st2).
    { pose proof (Hrec fm (Some processed) st) as E. now rewrite Hg in E. }
    assert (E3 : classes_extended st2 st3).
    { pose proof (classes_extended_setattr m (relation_name d0) fm st2) as E.
      now rewrite H3 in E. }
    assert (E4 : classes_extended st3 st4).
    { pose proof (classes_extended_exclude m (relation_name d0) st3) as E.
      now rewrite H4 in E. }
    assert (E5 : classes_extended st4 st').
    { pose proof (dynamic_loop_preserves tables_to_models classes_extended
                    classes_extended_refl classes_extended_trans
                    classes_extended_setattr classes_extended_exclude
                    rec Hrec m processed dyn
                    (dict_set (relation_name d0) (SubFactory g) a) st4) as E.
      now rewrite H in E. }
    apply elem_of_cons in Hin as [->|Hin].
    + split.
      * destruct (setattr_relationship_cases m (relation_name d0) fm st2)
          as [[e He]|(r & Hr & _ & He)]; rewrite He in H3; [discriminate|].
        injection H3 as _ <-.
        pose proof (attribute_kept_trans _ _ _
                      (proj1 (E4 (class_id m)) (relation_name d0))
                      (proj1 (E5 (class_id m)) (relation_name d0))) as K.
        apply (attribute_kept_relationship _ _ (__name__ fm) K).
        unfold add_relationship. cbn. rewrite Nat.eqb_refl. cbn.
        rewrite Hr. apply lookup_insert_eq.
      * intros rules Hr.
        destruct (proj1 (proj2 (E2 _)) _ Hr) as [m2 Hr2].
        destruct (proj1 (proj2 (E3 _)) _ Hr2) as [m3 Hr3].
        unfold exclude_from_serialization in H4. rewrite Hr3 in H4.
        injection H4 as _ <-.
        destruct (proj1 (proj2 (E5 (class_id m))) (((rules ++ m2) ++ m3) ++
                    [String.append "-" (relation_name d0)])%list) as [m5 Hr5].
        { cbn. rewrite Nat.eqb_refl. reflexivity. }
        eexists. split; [exact Hr5|].
        apply elem_of_app. left. apply elem_of_app. right. left.
    + destruct (IH _ _ H Hin) as [I1 I2]. split; [exact I1|].
      intros rules Hr.
      destruct (proj1 (proj2 (E2 _)) _ Hr) as [m2 Hr2].
      destruct (proj1 (proj2 (E3 _)) _ Hr2) as [m3 Hr3].
      destruct (proj1 (proj2 (E4 _)) _ Hr3) as [m4 Hr4].
      exact (I2 _ Hr4).
Qed.

(** C10: when a build returns, every relationship it inferred from a
    column [p ++ "_id"] is an attribute [p] of the model class, a
    relationship, and, if the class had [serialize_rules] when the build
    began, ["-" ++ p] is among its rules.  Both are changes of the live
    class, not of the session: they are there in every store that follows
    in the process, whatever is built or called, by this closure or
    another, and in every new session. *)
Theorem inferred_relationship_set_on_model
    tables_to_models overrides fuel m processed st f st' rc col :
  make_factory tables_to_models overrides fuel m processed st = (Return f, st') ->
  factory_registry st !! fullname m = None ->
  relation_cols (relationships (classes st (class_id m))) = Some rc ->
  col ∈ columns m ->
  inferred rc col ->
  key col = String.append (drop_last3 (key col)) "_id" /\
  forall later,
    follows st' later ->
    (exists argument,
       class_attrs (classes later (class_id m)) !! drop_last3 (key col)
       = Some (RelationshipProperty argument)) /\
    (forall rules, serialize_rules (classes st (class_id m)) = Some rules ->
       exists rules', serialize_rules (classes later (class_id m)) = Some rules' /\
                      String.append "-" (drop_last3 (key col)) ∈ rules').
Proof.
  intros H Hmiss Hrc Hin Hi.
  apply make_factory_Return_inv in H as
    (fuel' & rc' & a0 & dyn & a1 & st1 & a2 & st2 & -> & Hrc' & Hcl & Hrl & Hdl & _ & _ & _ & Hcls & _);
    [|exact Hmiss].
  rewrite Hrc in Hrc'. injection Hrc' as <-.
  assert (Hd : inferred_relationship col ∈ dyn).
  { rewrite (column_loop_dynamic _ _ _ _ _ _ _ _ Hcl). cbn [app].
    apply list_elem_of_fmap. exists col. split; [reflexivity|].
    apply list_elem_of_filter. split; assumption. }
  assert (E1 : classes_extended st st1).
  { pose proof (relationship_loop_preserves tables_to_models classes_extended
                  classes_extended_refl classes_extended_trans
                  (make_factory tables_to_models overrides fuel')
                  (make_factory_extends_classes tables_to_models overrides fuel')
                  ({[fullname m]} ∪ default ∅ processed)
                  (relationships (classes st (class_id m))) a0 st) as E.
    now rewrite Hrl in E. }
  destruct (dynamic_loop_marks_class tables_to_models _ _ _ _ _ _ _ _ _
              (make_factory_extends_classes tables_to_models overrides fuel') Hdl Hd)
    as [Hattr Hrules].
  cbn [inferred_relationship relation_name] in Hattr, Hrules.
  rewrite <- Hcls in Hattr, Hrules.
  split; [apply last3_id_split, Hi|].
  intros later Hlater. pose proof (follows_extends_classes _ _ Hlater) as E. split.
  - destruct Hattr as [argument Ha].
    exact (attribute_kept_relationship _ _ _ (proj1 (E _) _) Ha).
  - intros rules Hr. destruct (proj1 (proj2 (E1 _)) _ Hr) as [m1 Hr1].
    destruct (Hrules _ Hr1) as (rules' & Hr' & Hmem).
    destruct (proj1 (proj2 (E _)) _ Hr') as [more Hl].
    eexists. split; [exact Hl|]. apply elem_of_app. now left.
Qed.

Lemma job_build :
  make_factory pipeline_tables job_overrides 2 Job None (empty_session pipeline_classes)
  = (Return 1, job_session).
Proof. vm_compute. reflexivity. Defined.

Lemma inferred_relationship_set_on_model_witness :
  (exists argument,
     class_attrs (classes (empty_session (classes job_session)) 2) !! "pipeline"
     = Some (RelationshipProperty argument)) /\
  (exists rules', serialize_rules (classes (empty_session (classes job_session)) 2)
                  = Some rules' /\
                  "-pipeline" ∈ rules').
Proof.
  destruct (inferred_relationship_set_on_model pipeline_tables job_overrides 2 Job None
              (empty_session pipeline_classes) 1 job_session ∅
              {| key := "pipeline_id"; name := "pipeline_id"; type := String_ (Some 36%Z);
                 primary_key := false; foreign_keys := ["pipeline"] |} job_build)
    as (_ & H).
  - vm_compute. reflexivity.
  - vm_compute. reflexivity.
  - do 3 right. left.
  - split; [discriminate|]. split; [apply not_elem_of_empty | reflexivity].
  - destruct (H (empty_session (classes job_session))
                (follows_session _ _ (follows_refl _))) as [Ha Hr].
    split; [exact Ha|]. apply (Hr []). reflexivity.
Defined.

(** ** The instance cache *)

Lemma session_step_refl st : session_step st st.
Proof. split; [|split]; [intros t i H; exact H | auto | reflexivity]. Qed.

Lemma session_step_trans x y z :
  session_step x y -> session_step y z -> session_step x z.
Proof.
  intros (K1 & C1 & F1) (K2 & C2 & F2). split; [|split].
  - intros t i H. apply K2, K1, H.
  - auto.
  - congruence.
Qed.

Lemma _create_cached model_class kwargs st i st' :
  _create model_class kwargs st = (Return i, st') ->
  model_instance_registry st' !! __tablename__ model_class = Some i.
Proof.
  destruct (_create_cases model_class kwargs st)
    as [(j & E & ->)|[_ [(k & _ & ->)|[_ ->]]]]; try discriminate.
  - intros [= <- <-]. exact E.
  - intros [= <- <-]. cbn. apply lookup_insert_eq.
Qed.

Lemma _create_hit model_class kwargs st i :
  model_instance_registry st !! __tablename__ model_class = Some i ->
  _create model_class kwargs st = (Return i, st).
Proof. intros H. unfold _create. now rewrite H. Qed.

Lemma session_step_create model_class kwargs st :
  session_step st (snd (_create model_class kwargs st)).
Proof.
  destruct (_create_cases model_class kwargs st)
    as [(j & _ & ->)|[E [(k & _ & ->)|[_ ->]]]]; try apply session_step_refl.
  cbn. split; [|split; [|reflexivity]].
  - intros t i H. cbn. rewrite lookup_insert_ne; [exact H|].
    intros Heq. rewrite <- Heq in H. congruence.
  - intros [Hc Hs]. split.
    + intros i inst. cbn. intros H.
      destruct (decide (i = List.length (instances st))) as [->|Hne].
      * rewrite lookup_app_r in H by reflexivity. rewrite Nat.sub_diag in H.
        injection H as <-. cbn. apply lookup_insert_eq.
      * assert (Hlt : i < List.length (instances st)).
        { apply lookup_lt_Some in H. rewrite length_app in H. cbn in H. lia. }
        rewrite lookup_app_l in H by exact Hlt.
        specialize (Hc _ _ H). rewrite lookup_insert_ne; [exact Hc|].
        intros Heq. rewrite Heq in E. congruence.
    + intros t i. cbn.
      destruct (decide (__tablename__ model_class = t)) as [<-|Hne].
      * rewrite lookup_insert_eq. intros [= <-].
        exists {| instance_of := model_class; fields := kwargs |}. split; [|reflexivity].
        rewrite lookup_app_r by reflexivity. now rewrite Nat.sub_diag.
      * rewrite lookup_insert_ne by exact Hne. intros H.
        destruct (Hs _ _ H) as (inst & Hi & Ht). exists inst. split; [|exact Ht].
        rewrite lookup_app_l; [exact Hi|]. eapply lookup_lt_Some; exact Hi.
Qed.

(** What [append_related] does when it returns. *)
Lemma append_related_Return self relation_name related st u st' :
  append_related self relation_name related st = (Return u, st') ->
  exists inst items,
    instances st !! self = Some inst /\
    (dict_get relation_name (fields inst) = None /\ items = [] \/
     dict_get relation_name (fields inst) = Some (Collection items)) /\
    instances st' =
      <[self := {| instance_of := instance_of inst;
                   fields := dict_set relation_name
                               (Collection (items ++ [related])%list)
                               (fields inst) |}]> (instances st) /\
    model_instance_registry st' = model_instance_registry st /\
    factories st' = factories st.
Proof.
  unfold append_related.
  destruct (instances st !! self) as [inst|] eqn:E; [|discriminate].
  destruct (dict_get relation_name (fields inst)) as [[| | |items]|] eqn:G;
    try discriminate; intros [= _ <-]; exists inst.
  - exists items. repeat split; auto.
  - exists []. repeat split; auto.
Qed.

Lemma append_related_snd self relation_name related st :
  snd (append_related self relation_name related st) = st \/
  exists u, append_related self relation_name related st
            = (Return u, snd (append_related self relation_name related st)).
Proof.
  unfold append_related.
  destruct (instances st !! self) as [inst|]; [|now left].
  destruct (dict_get relation_name (fields inst)) as [[| | |items]|];
    first [now left | right; eexists; reflexivity].
Qed.

Lemma session_step_append self relation_name related st :
  session_step st (snd (append_related self relation_name related st)).
Proof.
  destruct (append_related_snd self relation_name related st) as [->|[u H]];
    [apply session_step_refl|].
  destruct (append_related_Return _ _ _ _ _ _ H) as (inst & items & E & _ & Hi & Hr & Hf).
  split; [|split; [|exact Hf]].
  - intros t i. now rewrite Hr.
  - intros [Hc Hs]. split.
    + intros i inst'. rewrite Hi, Hr. intros H'.
      destruct (decide (i = self)) as [->|Hne].
      * rewrite list_lookup_insert_eq in H' by (eapply lookup_lt_Some; exact E).
        injection H' as <-. cbn. apply (Hc _ _ E).
      * rewrite list_lookup_insert_ne in H' by congruence. apply (Hc _ _ H').
    + intros t i. rewrite Hi, Hr. intros H'.
      destruct (Hs _ _ H') as (inst' & Hi' & Ht).
      destruct (decide (i = self)) as [->|Hne].
      * rewrite list_lookup_insert_eq by (eapply lookup_lt_Some; exact E).
        eexists. split; [reflexivity|]. cbn. congruence.
      * rewrite list_lookup_insert_ne by congruence. eauto.
Qed.

Lemma session_step_call_factory fuel :
  forall f st, session_step st (snd (call_factory fuel f st)).
Proof.
  apply call_factory_preserves.
  - exact session_step_refl.
  - exact session_step_trans.
  - exact session_step_create.
  - exact session_step_append.
Qed.

(** A call that returns yields the cached instance of the table of the
    factory's model. *)
Lemma call_factory_Return fuel f st i st' :
  call_factory fuel f st = (Return i, st') ->
  exists fac model_class,
    factories st !! f = Some fac /\
    dict_get "Meta" (factory_attributes fac) = Some (Meta model_class) /\
    model_instance_registry st' !! __tablename__ model_class = Some i.
Proof.
  destruct fuel as [|fuel]; [discriminate|]. cbn [call_factory].
  destruct (factories st !! f) as [fac|] eqn:Hf; [|discriminate].
  destruct (dict_get "Meta" (factory_attributes fac)) as [[| | |mc]|] eqn:Hm;
    try discriminate.
  intros H. apply bind_Return in H as (kw & st1 & _ & H).
  apply bind_Return in H as (j & st2 & Hc & H).
  apply bind_Return in H as (? & st3 & Hp & H).
  injection H as <- <-.
  exists fac, mc. split; [reflexivity|]. split; [exact Hm|].
  apply _create_cached in Hc.
  pose proof (post_generation_preserves session_step session_step_refl session_step_trans
                session_step_append (call_factory fuel) (session_step_call_factory fuel)
                (factory_attributes fac) j st2) as (K & _).
  rewrite Hp in K. apply K, Hc.
Qed.

(** ** Factories without relationships *)

Lemma dict_set_Forall {V} (P : string * V -> Prop) k v (d : list (string * V)) :
  Forall P d -> P (k, v) -> Forall P (dict_set k v d).
Proof.
  intros Hd Hv. induction d as [|[k' v'] d IH]; cbn [dict_set].
  - repeat constructor. exact Hv.
  - apply Forall_cons in Hd as [H1 H2].
    destruct (String.eqb k k'); apply Forall_cons; split; auto.
Qed.

Lemma dict_set_plain k a d :
  plain d -> plain_attribute a -> plain (dict_set k a d).
Proof. intros Hd Ha. now apply dict_set_Forall. Qed.

Lemma filter_none {A} (P : A -> Prop) `{forall x, Decision (P x)} (l : list A) :
  (forall x, x ∈ l -> ~ P x) -> filter P l = [].
Proof.
  induction l as [|x l IH]; intros Hl; [reflexivity|].
  rewrite filter_cons_False by (apply Hl; left).
  apply IH. intros y Hy. apply Hl. now right.
Qed.

(** Every attribute the column loop adds is the value chosen for a column
    that the guard does not pass over, under the column's name. *)
Lemma column_loop_entries overrides table_name rc cols (P : string * attribute -> Prop)
    a0 d0 a d :
  column_loop overrides table_name rc cols (a0, d0) = inr (a, d) ->
  Forall P a0 ->
  (forall col v, col ∈ cols -> ~ fk_guard rc col ->
     chosen overrides table_name col v -> P (name col, Value v)) ->
  Forall P a.
Proof.
  revert a0 d0. induction cols as [|col cols IH]; intros a0 d0; cbn [column_loop].
  - now intros [= <- <-].
  - intros H Hp HP.
    assert (HP' : forall c v, c ∈ cols -> ~ fk_guard rc c ->
              chosen overrides table_name c v -> P (name c, Value v)).
    { intros c v Hc. apply HP. now right. }
    destruct (decide (fk_guard rc col)) as [Hg|Hng].
    + rewrite (column_step_guarded _ _ _ _ _ Hg) in H. eauto.
    + rewrite (column_step_unguarded _ _ _ _ _ _ Hng) in H.
      destruct (column_value overrides table_name col a0) as [e|a1] eqn:Hv; [discriminate|].
      apply column_value_inr in Hv as (v & -> & Hc).
      apply (IH _ _ H); [|exact HP'].
      apply dict_set_Forall; [exact Hp|]. apply HP; [left | exact Hng | exact Hc].
Qed.

Lemma column_loop_plain overrides table_name rc cols a0 d0 a d :
  column_loop overrides table_name rc cols (a0, d0) = inr (a, d) ->
  plain a0 -> plain a.
Proof.
  intros H Hp. apply (column_loop_entries _ _ _ _ _ _ _ _ _ H Hp).
  intros col v _ _ _. exact I.
Qed.

Lemma accepted_plain c d : Forall (accepted c) d -> plain d.
Proof.
  intros H. eapply Forall_impl; [exact H|]. intros [k a]. unfold accepted. cbn.
  destruct a; cbn; tauto.
Qed.

(** The declarations of a factory without relationships are resolved
    without a call: the outcome is the same in every store, and the store
    is left as it is. *)
Lemma resolve_plain d :
  plain d ->
  exists o, forall call st, resolve call d st = (o, st).
Proof.
  induction d as [|[k a] d IH]; intros Hp.
  - exists (Return []). reflexivity.
  - apply Forall_cons in Hp as [Ha Hd]. destruct (IH Hd) as [o Ho].
    destruct a as [v| | |mc]; cbn in Ha; try contradiction; [|exists o; exact Ho].
    assert (G : forall fld, exists o', forall call st,
              (kwargs <- resolve call d ;; ret ((k, fld) :: kwargs)) st = (o', st)).
    { intros fld. destruct o as [kw|e|].
      - exists (Return ((k, fld) :: kw)). intros call st.
        now rewrite (bind_Return_eq _ _ _ _ _ (Ho call st)).
      - exists (Raise e). intros call st. unfold bind. now rewrite Ho.
      - exists OutOfFuel. intros call st. unfold bind. now rewrite Ho. }
    destruct v as [| | | | | |dcl]; cbn [resolve]; try apply G.
    destruct (evaluate_pure dcl) as [[fld|e|] Ev].
    + destruct (G fld) as [o' Ho']. exists o'. intros call st.
      rewrite (bind_Return_eq _ _ _ _ _ (Ev st)). apply Ho'.
    + exists (Raise e). intros call st. unfold bind. now rewrite Ev.
    + exists OutOfFuel. intros call st. unfold bind. now rewrite Ev.
Qed.

(** Declarations that can be evaluated, under names the class has
    attributes for, resolve to keywords the constructor accepts. *)
Lemma resolve_accepted c d :
  Forall (accepted c) d ->
  exists kwargs,
    (forall call st, resolve call d st = (Return kwargs, st)) /\
    invalid_keyword c kwargs = None.
Proof.
  induction d as [|[k a] d IH]; intros Hd.
  - exists []. split; reflexivity.
  - apply Forall_cons in Hd as [Ha Hd]. destruct (IH Hd) as (kw & Hkw & Hvalid).
    unfold accepted in Ha. cbn [fst snd] in Ha.
    destruct a as [v| | |mc]; try contradiction; [|exists kw; split; assumption].
    destruct Ha as [Hev [x Hx]].
    assert (G : forall fld,
              (forall call st,
                 (kwargs <- resolve call d ;; ret ((k, fld) :: kwargs)) st
                 = (Return ((k, fld) :: kw), st)) /\
              invalid_keyword c ((k, fld) :: kw) = None).
    { intros fld. split.
      - intros call st. now rewrite (bind_Return_eq _ _ _ _ _ (Hkw call st)).
      - cbn [invalid_keyword]. now rewrite Hx. }
    destruct v as [| | | | | |dcl]; try (eexists; cbn [resolve]; apply G).
    exists ((k, Generated dcl) :: kw). split; [|apply G].
    intros call st. cbn [resolve].
    rewrite (bind_Return_eq _ _ _ _ _ (evaluate_evaluable dcl st Hev)). apply G.
Qed.

Lemma post_generation_plain call d instance st :
  plain d -> post_generation call d instance st = (Return tt, st).
Proof.
  induction d as [|[k a] d IH]; intros Hp; [reflexivity|].
  apply Forall_cons in Hp as [Ha Hd].
  destruct a; cbn in Ha; try contradiction; cbn [post_generation]; auto.
Qed.

(** A model without declared relationships and without a column that
    yields an inferred one gets a factory that holds values only: for
    each column the guard does not pass over, the value chosen for it;
    and the build leaves the model classes as they are. *)
Lemma make_factory_plain tables_to_models overrides fuel m processed st f st' :
  make_factory tables_to_models overrides fuel m processed st = (Return f, st') ->
  factory_registry st !! fullname m = None ->
  relationships (classes st (class_id m)) = [] ->
  (forall col, col ∈ columns m -> ~ inferred ∅ col) ->
  exists fac,
    factories st' !! f = Some fac /\
    dict_get "Meta" (factory_attributes fac) = Some (Meta m) /\
    classes st' = classes st /\
    forall P : string * attribute -> Prop,
      P ("Meta", Meta m) ->
      (forall col v, col ∈ columns m -> ~ fk_guard ∅ col ->
         chosen overrides (fullname m) col v -> P (name col, Value v)) ->
      Forall P (factory_attributes fac).
Proof.
  intros H Hmiss Hrels Hfk.
  apply make_factory_Return_inv in H as
    (fuel' & rc & a0 & dyn & a1 & st1 & a2 & st2 & -> & Hrc & Hcl & Hrl & Hdl & _ & Hf & _ & Hcls & _);
    [|exact Hmiss].
  rewrite Hrels in Hrl, Hrc. cbn in Hrl, Hrc. injection Hrl as <- <-.
  injection Hrc as <-.
  assert (Hdyn : dyn = []).
  { rewrite (column_loop_dynamic _ _ _ _ _ _ _ _ Hcl). cbn [app].
    rewrite filter_none; [reflexivity | exact Hfk]. }
  subst dyn. cbn in Hdl. injection Hdl as <- <-.
  eexists. split; [exact Hf|]. cbn [factory_attributes].
  split; [apply dict_get_set_eq|]. split; [exact Hcls|].
  intros P Hmeta Hcols. apply dict_set_Forall; [|exact Hmeta].
  apply (column_loop_entries _ _ _ _ _ _ _ _ _ Hcl); [constructor | exact Hcols].
Qed.

(** Building factories leaves the instances and their cache alone. *)
Lemma make_factory_keeps_instances tables_to_models overrides fuel m processed st :
  instances (snd (make_factory tables_to_models overrides fuel m processed st))
    = instances st /\
  model_instance_registry (snd (make_factory tables_to_models overrides fuel m processed st))
    = model_instance_registry st.
Proof.
  apply (make_factory_preserves tables_to_models overrides
           (fun st st' => instances st' = instances st /\
                          model_instance_registry st' = model_instance_registry st)).
  - intros x. split; reflexivity.
  - intros x y z [A1 B1] [A2 B2]. split; congruence.
  - intros m0 k fm st0.
    destruct (setattr_relationship_cases m0 k fm st0) as [[e ->]|(r & _ & _ & ->)];
      split; reflexivity.
  - intros m0 k st0. unfold exclude_from_serialization.
    destruct (serialize_rules _); split; reflexivity.
  - intros m0 a st0. split; reflexivity.
Qed.

(** C5: a session starts with a sound cache in which every instance is
    the cached one of its table (there is none), and builds and factory
    calls keep it so: two instances never share a table.  A factory call
    that returns yields an instance that exists, of the table of the
    factory's model, and cached for it: the instance cached before the
    call if there was one; and every later call of a factory for that
    table returns the same instance.  For a model without relationships,
    declared or inferred: when a call of the built factory returns, every
    further call returns the same instance and changes nothing; and the
    call does return when every column it gives a value has its name as an
    attribute of the class and a value that can be evaluated, with a new
    instance of the model when none was cached for its table. *)
Theorem one_instance_per_table :
  (forall classes, cache_ok (empty_session classes)) /\
  (forall tables_to_models overrides fuel m processed st,
     cache_ok st ->
     cache_ok (snd (make_factory tables_to_models overrides fuel m processed st))) /\
  (forall fuel f st i st',
     cache_ok st ->
     call_factory fuel f st = (Return i, st') ->
     cache_ok st' /\
     (forall a b x y,
        instances st' !! a = Some x -> instances st' !! b = Some y ->
        __tablename__ (instance_of x) = __tablename__ (instance_of y) -> a = b) /\
     exists fac model_class inst,
       factories st !! f = Some fac /\
       dict_get "Meta" (factory_attributes fac) = Some (Meta model_class) /\
       instances st' !! i = Some inst /\
       __tablename__ (instance_of inst) = __tablename__ model_class /\
       model_instance_registry st' !! __tablename__ model_class = Some i /\
       (forall j, model_instance_registry st !! __tablename__ model_class = Some j -> i = j) /\
       (forall later fuel2 g fac2 model_class2 j st'',
          cache_kept st' later ->
          factories later !! g = Some fac2 ->
          dict_get "Meta" (factory_attributes fac2) = Some (Meta model_class2) ->
          __tablename__ model_class2 = __tablename__ model_class ->
          call_factory fuel2 g later = (Return j, st'') ->
          j = i)) /\
  (forall tables_to_models overrides fuel m processed st f st1,
     make_factory tables_to_models overrides fuel m processed st = (Return f, st1) ->
     factory_registry st !! fullname m = None ->
     relationships (classes st (class_id m)) = [] ->
     (forall col, col ∈ columns m -> ~ inferred ∅ col) ->
     (forall n1 i st2,
        call_factory n1 f st1 = (Return i, st2) ->
        forall n2, call_factory (S n2) f st2 = (Return i, st2)) /\
     ((forall col, col ∈ columns m -> ~ fk_guard ∅ col ->
         is_Some (class_attrs (classes st (class_id m)) !! name col)) ->
      (forall col v, col ∈ columns m -> chosen overrides (fullname m) col v ->
         evaluable v) ->
      exists i st2,
        (forall n, call_factory (S n) f st1 = (Return i, st2)) /\
        (model_instance_registry st1 !! __tablename__ m = None ->
         i = List.length (instances st1) /\
         exists inst, instances st2 !! i = Some inst /\ instance_of inst = m))).
Proof.
  split; [|split; [|split]].
  - intros classes. split.
    + intros i inst H. destruct i; discriminate H.
    + intros t i H. cbn in H. rewrite lookup_empty in H. discriminate.
  - intros tables_to_models overrides fuel m processed st [Hc Hs].
    destruct (make_factory_keeps_instances tables_to_models overrides fuel m processed st)
      as [Ei Er].
    split.
    + intros i inst. rewrite Ei, Er. apply Hc.
    + intros t i. rewrite Ei, Er. apply Hs.
  - intros fuel f st i st' Hc H.
    pose proof (session_step_call_factory fuel f st) as (K & C & F).
    rewrite H in K, C, F. cbn [snd] in K, C, F.
    specialize (C Hc). split; [exact C|]. split.
    { intros a b x y Ha Hb E. destruct C as [C _].
      pose proof (C _ _ Ha) as Ra. pose proof (C _ _ Hb) as Rb.
      rewrite E in Ra. congruence. }
    destruct (call_factory_Return _ _ _ _ _ H) as (fac & mc & Hf & Hm & Hi).
    destruct (proj2 C _ _ Hi) as (inst & Hinst & Ht).
    exists fac, mc, inst. repeat split; try assumption.
    + intros j Hj. apply K in Hj. congruence.
    + intros later fuel2 g fac2 mc2 j st'' Hk Hg Hm2 Et H2.
      destruct (call_factory_Return _ _ _ _ _ H2) as (fac' & mc' & Hf' & Hm' & Hj).
      rewrite Hg in Hf'. injection Hf' as <-. rewrite Hm2 in Hm'. injection Hm' as <-.
      pose proof (session_step_call_factory fuel2 g later) as (K2 & _).
      rewrite H2 in K2. cbn [snd] in K2.
      apply Hk, K2 in Hi. rewrite Et in Hj. congruence.
  - intros tables_to_models overrides fuel m processed st f st1 H Hmiss Hrels Hfk.
    destruct (make_factory_plain _ _ _ _ _ _ _ _ H Hmiss Hrels Hfk)
      as (fac & Hf & Hm & Hcls & Hall).
    assert (Hp : plain (factory_attributes fac)).
    { apply Hall; [exact I|]. intros col v _ _ _. exact I. }
    split.
    + intros n1 i st2 Hcall n2.
      destruct n1 as [|n1]; [discriminate|]. cbn [call_factory] in Hcall.
      rewrite Hf, Hm in Hcall.
      destruct (resolve_plain _ Hp) as [o Ho].
      apply bind_Return in Hcall as (kw & sta & Hres & Hcall).
      rewrite Ho in Hres. injection Hres as -> <-.
      apply bind_Return in Hcall as (j & stb & Hc & Hcall).
      apply bind_Return in Hcall as (u & stc & Hpost & Hcall).
      rewrite (post_generation_plain _ _ _ _ Hp) in Hpost.
      injection Hpost as _ <-. injection Hcall as <- <-.
      pose proof (session_step_create m kw st1) as (_ & _ & F).
      rewrite Hc in F. cbn [snd] in F.
      cbn [call_factory]. rewrite F, Hf, Hm.
      erewrite bind_Return_eq by apply Ho.
      erewrite bind_Return_eq by (apply _create_hit; eapply _create_cached; exact Hc).
      erewrite bind_Return_eq by (apply post_generation_plain, Hp). reflexivity.
    + intros Hattr Hev.
      assert (Hacc : Forall (accepted (classes st1 (class_id m))) (factory_attributes fac)).
      { apply Hall; [exact I|]. intros col v Hin Hng Hch. unfold accepted. cbn [fst snd].
        split; [exact (Hev _ _ Hin Hch)|]. rewrite Hcls. exact (Hattr _ Hin Hng). }
      destruct (resolve_accepted _ _ Hacc) as (kw & Hkw & Hvalid).
      assert (Hcall : forall i st2, _create m kw st1 = (Return i, st2) ->
                forall n, call_factory (S n) f st1 = (Return i, st2)).
      { intros i st2 Hc n. cbn [call_factory]. rewrite Hf, Hm.
        erewrite bind_Return_eq by apply Hkw.
        erewrite bind_Return_eq by exact Hc.
        erewrite bind_Return_eq by (apply post_generation_plain, Hp). reflexivity. }
      destruct (_create_cases m kw st1)
        as [(i & E & Hc)|[_ [(k & Hk & _)|[_ Hc]]]]; [|congruence|].
      * exists i, st1. split; [exact (Hcall _ _ Hc)|]. congruence.
      * eexists _, _. split; [exact (Hcall _ _ Hc)|]. intros _.
        split; [reflexivity|]. exists {| instance_of := m; fields := kw |}.
        split; [|reflexivity]. cbn.
        rewrite lookup_app_r by reflexivity. now rewrite Nat.sub_diag.
Qed.

Lemma tag_build :
  make_factory tag_tables ∅ 1 Tag None (empty_session tag_classes)
  = (Return 0, tag_session).
Proof. vm_compute. reflexivity. Defined.

Lemma one_instance_per_table_witness :
  cache_ok (snd (call_factory 1 0 tag_session)) /\
  exists i st2,
    call_factory 1 0 tag_session = (Return i, st2) /\
    call_factory 1 0 st2 = (Return i, st2).
Proof.
  assert (Hcall : forall col, col ∈ columns Tag -> foreign_keys col = []).
  { intros col Hcol.
    repeat (apply elem_of_cons in Hcol as [->|Hcol]); [reflexivity..|inversion Hcol]. }
  split.
  - refine (proj1 (proj1 (proj2 (proj2 one_instance_per_table)) 1 0 tag_session 0 _ _ _)).
    + apply (proj1 (proj2 one_instance_per_table)), (proj1 one_instance_per_table).
    + vm_compute. reflexivity.
  - destruct (proj2 (proj2 (proj2 one_instance_per_table)) tag_tables ∅ 1 Tag None
                (empty_session tag_classes) 0 tag_session tag_build) as (Hagain & Hfirst).
    + vm_compute. reflexivity.
    + reflexivity.
    + intros col Hcol [Hfk _]. now apply Hfk, Hcall.
    + destruct Hfirst as (i & st2 & H & _).
      * intros col Hcol _.
        repeat (apply elem_of_cons in Hcol as [->|Hcol]);
          [vm_compute; eauto..|inversion Hcol].
      * intros col v Hcol [[E _]|[_ (provider & Hp & ->)]].
        -- vm_compute in E. discriminate E.
        -- repeat (apply elem_of_cons in Hcol as [->|Hcol]); [| |inversion Hcol];
             vm_compute in Hp; injection Hp as <-; discriminate.
      * exists i, st2. split; [exact (H 0)|]. exact (Hagain 1 i st2 (H 0) 0).
Defined.

(** ** Declared relationships *)

(** The factory wired for a declared relationship is the one the nested
    [make_factory] returned for the model of the target table. *)
Lemma relationship_loop_wired tables_to_models (R : state -> state -> Prop) rec processed :
  (forall st, R st st) ->
  (forall x y z, R x y -> R y z -> R x z) ->
  (forall m p st, R st (snd (rec m p st))) ->
  forall rels a0 st a st' r,
    relationship_loop tables_to_models rec processed rels a0 st = (Return a, st') ->
    NoDup (rel_key <$> rels) ->
    r ∈ rels ->
    target r ∉ processed ->
    exists fm g st_a st_b,
      tables_to_models !! target r = Some fm /\
      R st st_a /\
      rec fm (Some processed) st_a = (Return g, st_b) /\
      R st_b st' /\
      dict_get (rel_key r) a = Some (wiring r g).
Proof.
  intros Rrefl Rtrans Hrec.
  induction rels as [|r0 rels IH]; intros a0 st a st' r H Hnd Hin Ht.
  - inversion Hin.
  - rewrite fmap_cons in Hnd. apply NoDup_cons in Hnd as [Hfresh Hnd].
    rewrite relationship_loop_cons in H.
    apply elem_of_cons in Hin as [->|Hin].
    + assert (Hk : forall r', r' ∈ rels -> rel_key r' <> rel_key r0).
      { intros r' Hr' E. apply Hfresh. rewrite <- E. apply list_elem_of_fmap. eauto. }
      rewrite bool_decide_eq_false_2 in H by exact Ht.
      apply bind_Return in H as (fm & st1 & Hfm & H).
      apply lookup_model_Return in Hfm as [Hfm ->].
      apply bind_Return in H as (g & st2 & Hg & H).
      exists fm, g, st, st2. split; [exact Hfm|]. split; [apply Rrefl|].
      split; [exact Hg|]. split.
      * pose proof (relationship_loop_preserves tables_to_models R Rrefl Rtrans rec Hrec
                      processed rels (dict_set (rel_key r0) (wiring r0 g) a0) st2) as E.
        now rewrite H in E.
      * rewrite (relationship_loop_frame _ _ _ _ _ _ _ _ _ H Hk). apply dict_get_set_eq.
    + destruct (bool_decide (target r0 ∈ processed)); [eauto|].
      apply bind_Return in H as (fm0 & st1 & Hfm & H).
      apply lookup_model_Return in Hfm as [_ ->].
      apply bind_Return in H as (g0 & st2 & Hg & H).
      destruct (IH _ _ _ _ _ H Hnd Hin Ht) as (fm & g & st_a & st_b & Hfm & Ra & Hrec' & Rb & Hw).
      exists fm, g, st_a, st_b. repeat split; try assumption.
      apply (Rtrans _ st2); [|exact Ra].
      pose proof (Hrec fm0 (Some processed) st) as E. now rewrite Hg in E.
Qed.

Lemma factory_of_prefix st st' g t :
  factory_of st g t -> factories st `prefix_of` factories st' -> factory_of st' g t.
Proof.
  intros (fac & mc & Hf & Hm & Ht) Hp. exists fac, mc.
  split; [exact (prefix_lookup_Some _ _ _ _ Hf Hp) | split; assumption].
Qed.

(** Builds keep the registry typed. *)
Lemma make_factory_typed tables_to_models overrides fuel m processed st :
  build_frame st (snd (make_factory tables_to_models overrides fuel m processed st)) /\
  (registry_typed st ->
   registry_typed (snd (make_factory tables_to_models overrides fuel m processed st))).
Proof.
  apply (make_factory_preserves tables_to_models overrides
           (fun st st' => build_frame st st' /\ (registry_typed st -> registry_typed st'))).
  - intros x. split; [apply build_frame_refl | auto].
  - intros x y z [F1 T1] [F2 T2]. split; [eapply build_frame_trans; eauto | auto].
  - intros m0 k fm st0. split; [apply build_frame_setattr|].
    destruct (setattr_relationship_cases m0 k fm st0) as [[e ->]|(r & _ & _ & ->)];
      intros H; exact H.
  - intros m0 k st0. split; [apply build_frame_exclude|].
    unfold exclude_from_serialization. destruct (serialize_rules _); intros H; exact H.
  - intros m0 a st0. split; [apply build_frame_register|].
    intros Ht t g. cbn.
    destruct (decide (fullname m0 = t)) as [<-|Hne].
    + rewrite lookup_insert_eq. intros [= <-].
      exists {| factory_name := __name__ m0;
                factory_attributes := dict_set "Meta" (Meta m0) a |}, m0. cbn.
      split; [|split; [apply dict_get_set_eq | reflexivity]].
      rewrite lookup_app_r by reflexivity. now rewrite Nat.sub_diag.
    + rewrite lookup_insert_ne by exact Hne. intros Hg.
      apply (factory_of_prefix st0); [now apply Ht|]. cbn. by apply prefix_app_r.
Qed.

(** *** What a call leaves on the instances *)

Lemma fields_grow_refl d : fields_grow d d.
Proof.
  intros k v H. destruct v; auto. exists []. now rewrite app_nil_r.
Qed.

Lemma fields_grow_trans a b c : fields_grow a b -> fields_grow b c -> fields_grow a c.
Proof.
  intros Hab Hbc k v H. specialize (Hab k v H).
  destruct v as [| | |items]; try exact (Hbc k _ Hab).
  destruct Hab as [more Hb]. destruct (Hbc k _ Hb) as [more' Hc].
  exists (more ++ more')%list. now rewrite app_assoc.
Qed.

Lemma instances_grow_refl st : instances_grow st st.
Proof. intros i inst H. exists inst. split; [exact H|]. split; [reflexivity | apply fields_grow_refl]. Qed.

Lemma instances_grow_trans x y z :
  instances_grow x y -> instances_grow y z -> instances_grow x z.
Proof.
  intros Hxy Hyz i inst H. destruct (Hxy _ _ H) as (inst1 & H1 & E1 & G1).
  destruct (Hyz _ _ H1) as (inst2 & H2 & E2 & G2).
  exists inst2. split; [exact H2|]. split; [congruence | eapply fields_grow_trans; eauto].
Qed.

Lemma instances_grow_create mc kw st : instances_grow st (snd (_create mc kw st)).
Proof.
  destruct (_create_cases mc kw st) as [(j & _ & ->)|[_ [(k & _ & ->)|[_ ->]]]];
    try apply instances_grow_refl.
  intros i inst H. exists inst. cbn. split; [|split; [reflexivity | apply fields_grow_refl]].
  rewrite lookup_app_l; [exact H|]. eapply lookup_lt_Some; exact H.
Qed.

Lemma instances_grow_append self k j st :
  instances_grow st (snd (append_related self k j st)).
Proof.
  destruct (append_related_snd self k j st) as [->|[u H]]; [apply instances_grow_refl|].
  destruct (append_related_Return _ _ _ _ _ _ H) as (inst & items & E & Hit & Hi & _).
  intros i inst0 H0. rewrite Hi. destruct (decide (i = self)) as [->|Hne].
  - rewrite list_lookup_insert_eq by (eapply lookup_lt_Some; exact E).
    eexists. split; [reflexivity|]. rewrite E in H0. injection H0 as <-.
    split; [reflexivity|]. cbn [fields]. intros k' v Hv.
    destruct (decide (k = k')) as [<-|Hk].
    + rewrite dict_get_set_eq. destruct Hit as [[Hn _]|Hc]; [congruence|].
      rewrite Hc in Hv. injection Hv as <-. eauto.
    + rewrite dict_get_set_ne by exact Hk. rewrite Hv.
      destruct v; auto. exists []. now rewrite app_nil_r.
  - rewrite list_lookup_insert_ne by congruence.
    exists inst0. split; [exact H0|]. split; [reflexivity | apply fields_grow_refl].
Qed.

Lemma instances_grow_call_factory fuel :
  forall f st, instances_grow st (snd (call_factory fuel f st)).
Proof.
  apply call_factory_preserves.
  - exact instances_grow_refl.
  - exact instances_grow_trans.
  - exact instances_grow_create.
  - exact instances_grow_append.
Qed.

Section hook_facts.

Variable call : factory_ref -> M inst_ref.
Hypothesis call_grows : forall g st, instances_grow st (snd (call g st)).
Hypothesis call_step : forall g st, session_step st (snd (call g st)).
Hypothesis call_cached :
  forall g st j st',
    call g st = (Return j, st') ->
    exists fac model_class,
      factories st !! g = Some fac /\
      dict_get "Meta" (factory_attributes fac) = Some (Meta model_class) /\
      model_instance_registry st' !! __tablename__ model_class = Some j.

Lemma hook_step g0 k0 i st :
  instances_grow st (snd (many_to_one call g0 k0 i true st)) /\
  session_step st (snd (many_to_one call g0 k0 i true st)).
Proof.
  split.
  - apply (many_to_one_preserves instances_grow instances_grow_refl instances_grow_trans
             instances_grow_append call call_grows).
  - apply (many_to_one_preserves session_step session_step_refl session_step_trans
             session_step_append call call_step).
Qed.

Lemma hooks_step d i st :
  instances_grow st (snd (post_generation call d i st)) /\
  session_step st (snd (post_generation call d i st)).
Proof.
  split.
  - apply (post_generation_preserves instances_grow instances_grow_refl instances_grow_trans
             instances_grow_append call call_grows).
  - apply (post_generation_preserves session_step session_step_refl session_step_trans
             session_step_append call call_step).
Qed.

(** The hook of a collection, run on [i]: when the hooks return, the
    instance the target factory returned is in the collection of [i], and
    the collection is longer than it was. *)
Lemma post_generation_appends d :
  forall i st u st' k g gfac model_class,
    post_generation call d i st = (Return u, st') ->
    dict_get k d = Some (PostGeneration g k) ->
    factories st !! g = Some gfac ->
    dict_get "Meta" (factory_attributes gfac) = Some (Meta model_class) ->
    exists inst items j,
      instances st' !! i = Some inst /\
      dict_get k (fields inst) = Some (Collection items) /\
      j ∈ items /\
      model_instance_registry st' !! __tablename__ model_class = Some j /\
      forall inst0 items0,
        instances st !! i = Some inst0 ->
        dict_get k (fields inst0) = Some (Collection items0) ->
        List.length items0 < List.length items.
Proof.
  induction d as [|[k0 a0] d IH]; intros i st u st' k g gfac mc H Hd Hg Hm; [discriminate|].
  cbn [dict_get] in Hd. destruct (String.eqb k k0) eqn:Ek.
  - apply String.eqb_eq in Ek. subst k0. injection Hd as ->.
    cbn [post_generation] in H.
    apply bind_Return in H as (u1 & s2 & Hhook & Hrest).
    unfold many_to_one in Hhook. cbn [negb] in Hhook.
    apply bind_Return in Hhook as (j & s1 & Hcall & Happ).
    destruct (call_cached _ _ _ _ Hcall) as (fac' & mc' & Hf' & Hm' & Hj).
    rewrite Hg in Hf'. injection Hf' as <-. rewrite Hm in Hm'. injection Hm' as <-.
    destruct (append_related_Return _ _ _ _ _ _ Happ)
      as (inst1 & items1 & E1 & Hit & Hi2 & Hr2 & _).
    assert (H2 : instances s2 !! i
                 = Some {| instance_of := instance_of inst1;
                           fields := dict_set k (Collection (items1 ++ [j])%list)
                                       (fields inst1) |}).
    { rewrite Hi2. apply list_lookup_insert_eq. eapply lookup_lt_Some; exact E1. }
    destruct (hooks_step d i s2) as [G S]. rewrite Hrest in G, S. cbn [snd] in G, S.
    destruct (G _ _ H2) as (inst & Hinst & _ & Hfields).
    cbn [fields] in Hfields.
    destruct (Hfields k _ (dict_get_set_eq _ _ _)) as [more Hitems].
    exists inst, ((items1 ++ [j]) ++ more)%list, j.
    split; [exact Hinst|]. split; [exact Hitems|]. split.
    { apply elem_of_app. left. apply elem_of_app. right. left. }
    split.
    { apply (proj1 S). rewrite Hr2. exact Hj. }
    intros inst0 items0 H0 Hc0.
    pose proof (call_grows g st) as G1. rewrite Hcall in G1. cbn [snd] in G1.
    destruct (G1 _ _ H0) as (inst1' & E1' & _ & F1).
    rewrite E1 in E1'. injection E1' as <-.
    destruct (F1 _ _ Hc0) as [more0 Hc1].
    destruct Hit as [[Hn _]|Hc]; [congruence|].
    rewrite Hc in Hc1. injection Hc1 as ->.
    rewrite !length_app. cbn [List.length]. lia.
  - assert (Hmid : exists u' s,
              post_generation call d i s = (Return u', st') /\
              instances_grow st s /\ factories s = factories st).
    { cbn [post_generation] in H. destruct a0 as [v|g0|g0 k1|m0]; try (exists u, st;
        split; [exact H|]; split; [apply instances_grow_refl | reflexivity]).
      apply bind_Return in H as (u1 & s & Hhook & Hrest).
      destruct (hook_step g0 k1 i st) as [G S]. rewrite Hhook in G, S. cbn [snd] in G, S.
      exists u, s. split; [exact Hrest|]. split; [exact G | exact (proj2 (proj2 S))]. }
    destruct Hmid as (u' & s & Hrest & G & F).
    rewrite <- F in Hg.
    destruct (IH _ _ _ _ _ _ _ _ Hrest Hd Hg Hm) as (inst & items & j & Hi & Hc & Hj & Hr & Hlen).
    exists inst, items, j. repeat split; try assumption.
    intros inst0 items0 H0 Hc0.
    destruct (G _ _ H0) as (inst1 & E1 & _ & F1).
    destruct (F1 _ _ Hc0) as [more Hc1].
    specialize (Hlen _ _ E1 Hc1). rewrite length_app in Hlen. lia.
Qed.

(** The keyword of a [SubFactory] is the instance its factory returned,
    which is cached for the table of that factory's model. *)
Lemma resolve_related d :
  forall st kwargs st' k g gfac model_class,
    resolve call d st = (Return kwargs, st') ->
    dict_get k d = Some (SubFactory g) ->
    factories st !! g = Some gfac ->
    dict_get "Meta" (factory_attributes gfac) = Some (Meta model_class) ->
    exists j,
      dict_get k kwargs = Some (Related j) /\
      model_instance_registry st' !! __tablename__ model_class = Some j.
Proof.
  induction d as [|[k0 a0] d IH]; intros st kw st' k g gfac mc H Hd Hg Hm; [discriminate|].
  cbn [dict_get] in Hd. cbn [resolve] in H.
  destruct a0 as [v|g0|g0 k1|m0].
  - assert (Hv : exists fld kw', kw = (k0, fld) :: kw' /\
              resolve call d st = (Return kw', st')).
    { destruct v as [| | | | | |dcl];
        try (apply bind_Return in H as (kw' & sr & Hres & H); injection H as <- <-;
             do 2 eexists; split; [reflexivity | exact Hres]).
      apply bind_Return in H as (fld & s0 & Hev & H).
      apply evaluate_Return in Hev as [_ ->].
      apply bind_Return in H as (kw' & sr & Hres & H). injection H as <- <-.
      do 2 eexists. split; [reflexivity | exact Hres]. }
    destruct Hv as (fld & kw' & -> & Hres).
    cbn [dict_get]. destruct (String.eqb k k0); [discriminate|]. eauto.
  - apply bind_Return in H as (j0 & s1 & Hcall & H).
    apply bind_Return in H as (kw' & s & Hres & H). injection H as <- <-.
    pose proof (call_step g0 st) as S1. rewrite Hcall in S1. cbn [snd] in S1.
    cbn [dict_get]. destruct (String.eqb k k0).
    + injection Hd as ->. exists j0. split; [reflexivity|].
      destruct (call_cached _ _ _ _ Hcall) as (fac' & mc' & Hf' & Hm' & Hj).
      rewrite Hg in Hf'. injection Hf' as <-. rewrite Hm in Hm'. injection Hm' as <-.
      pose proof (resolve_preserves session_step session_step_refl session_step_trans
                    call call_step d s1) as S2.
      rewrite Hres in S2. apply (proj1 S2), Hj.
    + rewrite <- (proj2 (proj2 S1)) in Hg. eauto.
  - destruct (String.eqb k k0); [discriminate|]. eauto.
  - destruct (String.eqb k k0); [discriminate|]. eauto.
Qed.

End hook_facts.


Lemma team_build :
  make_factory team_tables ∅ 2 Team None (empty_session team_classes)
  = (Return 1, team_session).
Proof. vm_compute. reflexivity. Defined.

Lemma team_call :
  call_factory 2 1 team_session = (Return 0, team_called_once).
Proof. vm_compute. reflexivity. Defined.



(** * Further properties *)

(** ** The registry as a memo table *)



(** ** What a build leaves alone *)

(** X2: whatever its outcome, [make_factory] only appends to the heap of
    factory classes (a factory once created is never changed), never
    removes a key of the registry, and creates no instance and touches no
    entry of the instance cache. *)
Theorem make_factory_frame tables_to_models overrides fuel m processed st :
  build_frame st (snd (make_factory tables_to_models overrides fuel m processed st)).
Proof. apply make_factory_build_frame. Qed.

(** ** Factory references *)

Lemma refs_below_mono n n' d : n <= n' -> refs_below n d -> refs_below n' d.
Proof.
  intros Hle H. eapply Forall_impl; [exact H|]. intros [k a]. cbn.
  destruct a; cbn; auto; lia.
Qed.

Lemma dict_set_refs_below n k a d :
  refs_below n d -> ref_below n a -> refs_below n (dict_set k a d).
Proof.
  intros Hd Ha. induction d as [|[k' a'] d IH]; cbn [dict_set].
  - repeat constructor. exact Ha.
  - apply Forall_cons in Hd as [H1 H2].
    destruct (String.eqb k k'); apply Forall_cons; split; auto.
    apply IH, H2.
Qed.

Lemma column_loop_refs_below overrides table_name rc cols n a0 d0 a d :
  column_loop overrides table_name rc cols (a0, d0) = inr (a, d) ->
  refs_below n a0 -> refs_below n a.
Proof.
  revert a0 d0. induction cols as [|col cols IH]; intros a0 d0; cbn [column_loop].
  - now intros [= <- <-].
  - intros H Hp. destruct (decide (fk_guard rc col)) as [Hg|Hng].
    + rewrite (column_step_guarded _ _ _ _ _ Hg) in H. eauto.
    + rewrite (column_step_unguarded _ _ _ _ _ _ Hng) in H.
      destruct (column_value overrides table_name col a0) as [e|a1] eqn:Hv; [discriminate|].
      apply column_value_inr in Hv as (v & -> & _).
      apply (IH _ _ H). now apply dict_set_refs_below.
Qed.

Lemma build_ok_bind {A B} (goodA : nat -> A -> Prop) (goodB : nat -> B -> Prop)
    (c : M A) (k : A -> M B) :
  build_ok goodA c ->
  (forall a st, store_ok st -> goodA (List.length (factories st)) a ->
     store_ok (snd (k a st)) /\
     List.length (factories st) <= List.length (factories (snd (k a st))) /\
     forall b, fst (k a st) = Return b -> goodB (List.length (factories (snd (k a st)))) b) ->
  build_ok goodB (bind c k).
Proof.
  intros Hc Hk st Hst. destruct (Hc st Hst) as (S1 & L1 & G1).
  unfold bind. destruct (c st) as [[a|e|] st1]; cbn [fst snd] in *.
  - destruct (Hk a st1 S1 (G1 a eq_refl)) as (S2 & L2 & G2).
    split; [exact S2|]. split; [lia | exact G2].
  - split; [exact S1|]. split; [exact L1 | discriminate].
  - split; [exact S1|]. split; [exact L1 | discriminate].
Qed.

Lemma store_ok_classes st c :
  store_ok st ->
  store_ok {| classes := c; factories := factories st;
              factory_registry := factory_registry st;
              instances := instances st;
              model_instance_registry := model_instance_registry st |}.
Proof. intros H. exact H. Qed.

Lemma bind_cases {A B} (c : M A) (k : A -> M B) st o st' :
  bind c k st = (o, st') ->
  (exists a st1, c st = (Return a, st1) /\ k a st1 = (o, st')) \/
  (exists e, c st = (Raise e, st') /\ o = Raise e) \/
  (c st = (OutOfFuel, st') /\ o = OutOfFuel).
Proof.
  unfold bind. destruct (c st) as [[a|e|] st1]; intros H.
  - left. eauto.
  - right. left. injection H as <- <-. eauto.
  - right. right. injection H as <- <-. eauto.
Qed.

Lemma build_ok_run {A} (good : nat -> A -> Prop) (c : M A) st o st' :
  build_ok good c -> store_ok st -> c st = (o, st') ->
  store_ok st' /\
  List.length (factories st) <= List.length (factories st') /\
  forall a, o = Return a -> good (List.length (factories st')) a.
Proof. intros Hc Hst E. specialize (Hc st Hst). now rewrite E in Hc. Qed.

Section reference_facts.

Variable tables_to_models : gmap string model.
Variable overrides : gmap string (gmap string pyvalue).
Variable rec : model -> option (gset string) -> M factory_ref.
Hypothesis rec_ok : forall m p, build_ok (fun n f => f < n) (rec m p).

Lemma lookup_model_ok t : build_ok (fun _ _ => True) (lookup_model tables_to_models t).
Proof.
  intros st Hst. rewrite lookup_model_snd. split; [exact Hst|]. split; [lia|]. auto.
Qed.

Lemma relationship_loop_ok processed rels a :
  forall st o st',
    store_ok st ->
    refs_below (List.length (factories st)) a ->
    relationship_loop tables_to_models rec processed rels a st = (o, st') ->
    store_ok st' /\
    List.length (factories st) <= List.length (factories st') /\
    forall a', o = Return a' -> refs_below (List.length (factories st')) a'.
Proof.
  revert a. induction rels as [|r rels IH]; intros a st o st' Hst Ha H.
  - injection H as <- <-. split; [exact Hst|]. split; [lia|]. now intros a' [= <-].
  - rewrite relationship_loop_cons in H.
    destruct (bool_decide (target r ∈ processed)); [now apply (IH a st)|].
    apply bind_cases in H as [(fm & st1 & H1 & H)|[(e & H1 & ->)|[H1 ->]]].
    2,3: (destruct (build_ok_run _ _ _ _ _ (lookup_model_ok _) Hst H1) as (S1 & L1 & _);
          split; [exact S1|]; split; [exact L1 | discriminate]).
    destruct (build_ok_run _ _ _ _ _ (lookup_model_ok _) Hst H1) as (S1 & L1 & _).
    apply bind_cases in H as [(g & st2 & H2 & H)|[(e & H2 & ->)|[H2 ->]]].
    2,3: (destruct (build_ok_run _ _ _ _ _ (rec_ok _ _) S1 H2) as (S2 & L2 & _);
          split; [exact S2|]; split; [lia | discriminate]).
    destruct (build_ok_run _ _ _ _ _ (rec_ok _ _) S1 H2) as (S2 & L2 & G2).
    assert (Ha2 : refs_below (List.length (factories st2))
                    (dict_set (rel_key r) (wiring r g) a)).
    { apply dict_set_refs_below.
      - apply (refs_below_mono (List.length (factories st))); [lia | exact Ha].
      - unfold wiring. destruct (uselist r); cbn; now apply G2. }
    destruct (IH _ _ _ _ S2 Ha2 H) as (S3 & L3 & G3).
    split; [exact S3|]. split; [lia | exact G3].
Qed.

Lemma setattr_relationship_ok m k fm :
  build_ok (fun _ _ => True) (setattr_relationship m k fm).
Proof.
  intros st Hst.
  destruct (setattr_relationship_cases m k fm st) as [[e ->]|(r & _ & _ & ->)];
    cbn; (split; [exact Hst|]; split; [lia|]; auto).
Qed.

Lemma exclude_from_serialization_ok m k :
  build_ok (fun _ _ => True) (exclude_from_serialization m k).
Proof.
  intros st Hst. unfold exclude_from_serialization.
  destruct (serialize_rules _); cbn; (split; [exact Hst|]; split; [lia|]; auto).
Qed.

Lemma dynamic_loop_ok m processed dyn a :
  forall st o st',
    store_ok st ->
    refs_below (List.length (factories st)) a ->
    dynamic_loop tables_to_models rec m processed dyn a st = (o, st') ->
    store_ok st' /\
    List.length (factories st) <= List.length (factories st') /\
    forall a', o = Return a' -> refs_below (List.length (factories st')) a'.
Proof.
  revert a. induction dyn as [|d dyn IH]; intros a st o st' Hst Ha H.
  - injection H as <- <-. split; [exact Hst|]. split; [lia|]. now intros a' [= <-].
  - cbn [dynamic_loop] in H.
    apply bind_cases in H as [(fm & st1 & H1 & H)|[(e & H1 & ->)|[H1 ->]]].
    2,3: (destruct (build_ok_run _ _ _ _ _ (lookup_model_ok _) Hst H1) as (S1 & L1 & _);
          split; [exact S1|]; split; [exact L1 | discriminate]).
    destruct (build_ok_run _ _ _ _ _ (lookup_model_ok _) Hst H1) as (S1 & L1 & _).
    apply bind_cases in H as [(g & st2 & H2 & H)|[(e & H2 & ->)|[H2 ->]]].
    2,3: (destruct (build_ok_run _ _ _ _ _ (rec_ok _ _) S1 H2) as (S2 & L2 & _);
          split; [exact S2|]; split; [lia | discriminate]).
    destruct (build_ok_run _ _ _ _ _ (rec_ok _ _) S1 H2) as (S2 & L2 & G2).
    apply bind_cases in H as [(u3 & st3 & H3 & H)|[(e & H3 & ->)|[H3 ->]]].
    2,3: (destruct (build_ok_run _ _ _ _ _ (setattr_relationship_ok _ _ _) S2 H3)
            as (S3 & L3 & _);
          split; [exact S3|]; split; [lia | discriminate]).
    destruct (build_ok_run _ _ _ _ _ (setattr_relationship_ok _ _ _) S2 H3) as (S3 & L3 & _).
    apply bind_cases in H as [(u4 & st4 & H4 & H)|[(e & H4 & ->)|[H4 ->]]].
    2,3: (destruct (build_ok_run _ _ _ _ _ (exclude_from_serialization_ok _ _) S3 H4)
            as (S4 & L4 & _);
          split; [exact S4|]; split; [lia | discriminate]).
    destruct (build_ok_run _ _ _ _ _ (exclude_from_serialization_ok _ _) S3 H4)
      as (S4 & L4 & _).
    assert (Ha4 : refs_below (List.length (factories st4))
                    (dict_set (relation_name d) (SubFactory g) a)).
    { apply dict_set_refs_below.
      - apply (refs_below_mono (List.length (factories st))); [lia | exact Ha].
      - cbn. specialize (G2 _ eq_refl). cbn in G2. lia. }
    destruct (IH _ _ _ _ S4 Ha4 H) as (S5 & L5 & G5).
    split; [exact S5|]. split; [lia | exact G5].
Qed.

End reference_facts.

Lemma make_factory_ok tables_to_models overrides fuel :
  forall m processed,
    build_ok (fun n f => f < n) (make_factory tables_to_models overrides fuel m processed).
Proof.
  induction fuel as [|fuel IH]; intros m processed st Hst.
  - cbn. split; [exact Hst|]. split; [lia | discriminate].
  - cbn [make_factory].
    destruct (factory_registry st !! fullname m) as [f|] eqn:E.
    + cbn. split; [exact Hst|]. split; [lia|]. intros a [= <-].
      exact (proj1 Hst _ _ E).
    + unfold build_factory.
      destruct (relation_cols _) as [rc|]; [|cbn; split; [exact Hst|]; split; [lia | discriminate]].
      destruct (column_loop _ _ _ _ _) as [e|[a0 dyn]] eqn:Hcl;
        [cbn; split; [exact Hst|]; split; [lia | discriminate]|].
      assert (Ha0 : refs_below (List.length (factories st)) a0).
      { apply (column_loop_refs_below _ _ _ _ _ _ _ _ _ Hcl). constructor. }
      match goal with |- context [bind ?c ?k st] => destruct (bind c k st) as [o st'] eqn:H end.
      cbn [fst snd].
      apply bind_cases in H as [(a1 & st1 & H1 & H)|[(e & H1 & ->)|[H1 ->]]].
      2,3: (destruct (relationship_loop_ok _ _ IH _ _ _ _ _ _ Hst Ha0 H1) as (S1 & L1 & _);
            split; [exact S1|]; split; [exact L1 | discriminate]).
      destruct (relationship_loop_ok _ _ IH _ _ _ _ _ _ Hst Ha0 H1) as (S1 & L1 & G1).
      apply bind_cases in H as [(a2 & st2 & H2 & H)|[(e & H2 & ->)|[H2 ->]]].
      2,3: (destruct (dynamic_loop_ok _ _ IH _ _ _ _ _ _ _ S1 (G1 _ eq_refl) H2)
              as (S2 & L2 & _);
            split; [exact S2|]; split; [lia | discriminate]).
      destruct (dynamic_loop_ok _ _ IH _ _ _ _ _ _ _ S1 (G1 _ eq_refl) H2) as (S2 & L2 & G2).
      unfold register_factory in H. injection H as <- <-.
      cbn [factories factory_registry]. rewrite length_app. cbn [List.length].
      split; [|split; [lia | intros a [= <-]; lia]].
      destruct S2 as [R2 F2]. split.
      * intros t f. cbn [factory_registry factories]. rewrite length_app. cbn [List.length].
        destruct (decide (fullname m = t)) as [->|Hne].
        -- rewrite lookup_insert_eq. intros [= <-]. lia.
        -- rewrite lookup_insert_ne by exact Hne. intros Hf. apply R2 in Hf. lia.
      * intros f fac. cbn [factories]. intros Hf.
        destruct (decide (f < List.length (factories st2))) as [Hlt|Hge].
        -- rewrite lookup_app_l in Hf by exact Hlt. now apply F2.
        -- pose proof (lookup_lt_Some _ _ _ Hf) as Hb. rewrite length_app in Hb.
           cbn in Hb. assert (f = List.length (factories st2)) as -> by lia.
           rewrite lookup_app_r in Hf by reflexivity. rewrite Nat.sub_diag in Hf.
           injection Hf as <-. cbn [factory_attributes].
           apply dict_set_refs_below; [now apply G2 | exact I].
Qed.

(** X3: from a well-formed store (the empty session is one) every build
    leaves a well-formed store, whatever its outcome, and a returned
    reference denotes a factory of the heap whose [SubFactory] and hook
    attributes refer to factories created before it: the factory classes
    never form a cycle. *)
Theorem factory_references_well_founded tables_to_models overrides fuel m processed st :
  store_ok st ->
  store_ok (snd (make_factory tables_to_models overrides fuel m processed st)) /\
  forall f,
    fst (make_factory tables_to_models overrides fuel m processed st) = Return f ->
    exists fac,
      factories (snd (make_factory tables_to_models overrides fuel m processed st)) !! f
        = Some fac /\
      refs_below f (factory_attributes fac).
Proof.
  intros Hst. destruct (make_factory_ok tables_to_models overrides fuel m processed st Hst)
    as (S1 & _ & G1).
  split; [exact S1|]. intros f Hf. specialize (G1 f Hf).
  destruct (lookup_lt_is_Some_2 _ _ G1) as [fac Hfac].
  exists fac. split; [exact Hfac|]. exact (proj2 S1 _ _ Hfac).
Qed.

Lemma store_ok_empty classes : store_ok (empty_session classes).
Proof.
  split.
  - intros t f H. cbn in H. rewrite lookup_empty in H. discriminate.
  - intros f fac H. destruct f; discriminate.
Qed.

Lemma factory_references_well_founded_witness :
  exists fac, factories team_session !! 1 = Some fac /\ refs_below 1 (factory_attributes fac).
Proof.
  apply (proj2 (factory_references_well_founded team_tables ∅ 2 Team None
                  (empty_session team_classes) (store_ok_empty team_classes)) 1).
  vm_compute. reflexivity.
Defined.

(** ** Calling a factory *)


Lemma bind_not_out {A B} (c : M A) (k : A -> M B) st :
  fst (c st) <> OutOfFuel ->
  (forall a st1, c st = (Return a, st1) -> fst (k a st1) <> OutOfFuel) ->
  fst (bind c k st) <> OutOfFuel.
Proof.
  intros Hc Hk. unfold bind. destruct (c st) as [[a|e|] st1]; cbn in *.
  - now apply Hk.
  - discriminate.
  - congruence.
Qed.

Section call_termination.

Variable F : list factory.
Variable bound : nat.
Variable call : factory_ref -> M inst_ref.
Hypothesis call_keeps : forall g st, factories (snd (call g st)) = factories st.
Hypothesis call_total :
  forall g st, g < bound -> factories st = F -> fst (call g st) <> OutOfFuel.

Lemma resolve_terminates d :
  refs_below bound d ->
  forall st, factories st = F -> fst (resolve call d st) <> OutOfFuel.
Proof.
  induction d as [|[k a] rest IH]; intros Hd st HF; [discriminate|].
  apply Forall_cons in Hd as [Ha Hrest]. cbn in Ha. cbn [resolve].
  destruct a as [v|g|g rel|mc]; try (now apply IH).
  - destruct v; try (apply bind_not_out; [now apply IH | discriminate]).
    apply bind_not_out; [apply evaluate_not_out|].
    + intros v st1 Hv. apply evaluate_Return in Hv as [_ ->].
      apply bind_not_out; [now apply IH | discriminate].
  - apply bind_not_out; [now apply call_total|].
    intros j st1 Hj. apply bind_not_out; [|discriminate].
    apply IH; [exact Hrest|]. rewrite <- HF.
    pose proof (call_keeps g st) as K. now rewrite Hj in K.
Qed.

Lemma append_related_terminates self k j st :
  fst (append_related self k j st) <> OutOfFuel.
Proof.
  unfold append_related. destruct (instances st !! self) as [inst|]; [|discriminate].
  destruct (dict_get k (fields inst)) as [[| | |items]|]; discriminate.
Qed.

Lemma post_generation_terminates d i :
  refs_below bound d ->
  forall st, factories st = F -> fst (post_generation call d i st) <> OutOfFuel.
Proof.
  induction d as [|[k a] rest IH]; intros Hd st HF; [discriminate|].
  apply Forall_cons in Hd as [Ha Hrest]. cbn in Ha. cbn [post_generation].
  destruct a as [v|g|g rel|mc]; try (now apply IH).
  apply bind_not_out.
  - unfold many_to_one. cbn [negb].
    apply bind_not_out; [now apply call_total|].
    intros j st1 _. apply append_related_terminates.
  - intros u st1 Hu. apply IH; [exact Hrest|]. rewrite <- HF.
    unfold many_to_one in Hu. cbn [negb] in Hu.
    apply bind_Return in Hu as (j & st2 & Hj & Ha2).
    pose proof (call_keeps g st) as K. rewrite Hj in K. cbn in K.
    unfold append_related in Ha2.
    destruct (instances st2 !! i) as [inst|]; [|discriminate].
    destruct (dict_get rel (fields inst)) as [[| | |items]|];
      try discriminate; injection Ha2 as _ <-; exact K.
Qed.

End call_termination.

Lemma call_factory_keeps_factories fuel f st :
  factories (snd (call_factory fuel f st)) = factories st.
Proof.
  apply (call_factory_preserves (fun st st' => factories st' = factories st)).
  - reflexivity.
  - intros x y z H1 H2. congruence.
  - intros mc kw st0. apply (call_frame_create mc kw st0).
  - intros self k j st0. apply (call_frame_append self k j st0).
Qed.

Lemma call_factory_enough_fuel fuel :
  forall f st,
    (forall g fac, factories st !! g = Some fac -> refs_below g (factory_attributes fac)) ->
    f < fuel ->
    fst (call_factory fuel f st) <> OutOfFuel.
Proof.
  induction fuel as [|fuel IH]; intros f st HF Hlt; [lia|].
  cbn [call_factory].
  destruct (factories st !! f) as [fac|] eqn:Hf; [|discriminate].
  destruct (dict_get "Meta" (factory_attributes fac)) as [[| | |mc]|]; try discriminate.
  assert (Hcall : forall g st0, g < f -> factories st0 = factories st ->
            fst (call_factory fuel g st0) <> OutOfFuel).
  { intros g st0 Hg E. apply IH; [|lia]. rewrite E. exact HF. }
  apply bind_not_out.
  - apply (resolve_terminates (factories st) f _ (call_factory_keeps_factories fuel) Hcall);
      [exact (HF _ _ Hf) | reflexivity].
  - intros kw st1 Hres.
    assert (E1 : factories st1 = factories st).
    { pose proof (resolve_preserves (fun st st' => factories st' = factories st)
                    (fun _ => eq_refl) (fun x y z H1 H2 => eq_trans H2 H1)
                    (call_factory fuel) (call_factory_keeps_factories fuel)
                    (factory_attributes fac) st) as K.
      now rewrite Hres in K. }
    apply bind_not_out.
    + destruct (_create_cases mc kw st1) as [(i & _ & ->)|[_ [(k & _ & ->)|[_ ->]]]];
        discriminate.
    + intros i st2 Hc.
      assert (E2 : factories st2 = factories st).
      { pose proof (call_frame_create mc kw st1) as (K & _). rewrite Hc in K.
        cbn in K. congruence. }
      apply bind_not_out; [|discriminate].
      apply (post_generation_terminates (factories st) f _
               (call_factory_keeps_factories fuel) Hcall);
        [exact (HF _ _ Hf) | exact E2].
Qed.

(** X5: in a well-formed store a factory call never nests deeper than
    the factory's reference: with more fuel than that it returns or
    raises, and the store stays well formed.  So every factory that
    [make_factory] returned from the empty session on can be called. *)
Theorem call_factory_terminates fuel f st :
  store_ok st ->
  f < fuel ->
  fst (call_factory fuel f st) <> OutOfFuel /\
  store_ok (snd (call_factory fuel f st)).
Proof.
  intros Hst Hlt. split.
  - apply call_factory_enough_fuel; [exact (proj2 Hst) | exact Hlt].
  - destruct (call_factory_call_frame fuel f st) as (E1 & E2 & _).
    destruct Hst as [R1 F1]. split.
    + intros t g. rewrite E1, E2. apply R1.
    + intros g fac. rewrite E1. apply F1.
Qed.

Lemma team_session_ok : store_ok team_session.
Proof.
  exact (proj1 (make_factory_ok team_tables ∅ 2 Team None (empty_session team_classes)
                  (store_ok_empty team_classes))).
Qed.

Lemma call_factory_terminates_witness :
  fst (call_factory 2 1 team_session) <> OutOfFuel /\
  store_ok (snd (call_factory 2 1 team_session)).
Proof.
  apply (call_factory_terminates 2 1 team_session team_session_ok). lia.
Defined.

(** ** Termination over declared relationships *)

Lemma no_inferred_classes st st' m :
  classes st' = classes st -> no_inferred st m -> no_inferred st' m.
Proof. intros E H rc. rewrite E. apply H. Qed.

Section declared_loop.

Variable tables_to_models : gmap string model.
Variable rec : model -> option (gset string) -> M factory_ref.
Variable processed : gset string.
Variable C : nat -> class_state.
Hypothesis rec_total :
  forall t fm st,
    tables_to_models !! t = Some fm -> t ∉ processed -> classes st = C ->
    fst (rec fm (Some processed) st) <> OutOfFuel /\
    classes (snd (rec fm (Some processed) st)) = C.

Lemma relationship_loop_total rels :
  forall a st o st',
    classes st = C ->
    relationship_loop tables_to_models rec processed rels a st = (o, st') ->
    o <> OutOfFuel /\ classes st' = C.
Proof.
  induction rels as [|r rels IH]; intros a st o st' HC H.
  - injection H as <- <-. split; [discriminate | exact HC].
  - rewrite relationship_loop_cons in H.
    destruct (bool_decide (target r ∈ processed)) eqn:Hin; [now apply (IH a st)|].
    apply bool_decide_eq_false in Hin.
    unfold lookup_model in H.
    destruct (tables_to_models !! target r) as [fm|] eqn:Hfm.
    + rewrite (bind_Return_eq _ _ st fm st eq_refl) in H.
      destruct (rec_total _ _ st Hfm Hin HC) as [Hno HC1].
      apply bind_cases in H as [(g & st1 & H1 & H)|[(e & H1 & ->)|[H1 ->]]].
      * rewrite H1 in HC1. exact (IH _ st1 _ _ HC1 H).
      * rewrite H1 in HC1. split; [discriminate | exact HC1].
      * rewrite H1 in Hno. now contradict Hno.
    + cbn in H. injection H as <- <-. split; [discriminate | exact HC].
Qed.

End declared_loop.

(** X6: when every model is filed under its table's full name and no
    column yields an inferred relationship, the recursion over declared
    relationships is bounded by the visited set: with more fuel than
    there are tables outside it, [make_factory] returns a factory or
    raises, and it leaves the model classes as they are. *)
Theorem declared_relationships_terminate tables_to_models overrides fuel :
  forall m processed st,
    tables_keyed_by_fullname tables_to_models ->
    (forall t m', tables_to_models !! t = Some m' -> no_inferred st m') ->
    no_inferred st m ->
    size (dom tables_to_models ∖ ({[fullname m]} ∪ default ∅ processed)) < fuel ->
    fst (make_factory tables_to_models overrides fuel m processed st) <> OutOfFuel /\
    classes (snd (make_factory tables_to_models overrides fuel m processed st)) = classes st.
Proof.
  induction fuel as [|fuel IH]; intros m processed st Hkey Hall Hm Hsize; [lia|].
  cbn [make_factory].
  destruct (factory_registry st !! fullname m) as [f|] eqn:E; [split; [discriminate | reflexivity]|].
  unfold build_factory.
  destruct (relation_cols _) as [rc|] eqn:Hrc; [|split; [discriminate | reflexivity]].
  destruct (column_loop _ _ _ _ _) as [e|[a0 dyn]] eqn:Hcl; [split; [discriminate | reflexivity]|].
  assert (Hdyn : dyn = []).
  { rewrite (column_loop_dynamic _ _ _ _ _ _ _ _ Hcl). cbn [app].
    rewrite filter_none; [reflexivity | exact (Hm rc Hrc)]. }
  subst dyn.
  match goal with |- context [bind ?c ?k st] => destruct (bind c k st) as [o st'] eqn:H end.
  cbn [fst snd].
  assert (Hrec : forall t fm st1,
            tables_to_models !! t = Some fm ->
            t ∉ ({[fullname m]} ∪ default ∅ processed : gset string) ->
            classes st1 = classes st ->
            fst (make_factory tables_to_models overrides fuel fm
                   (Some ({[fullname m]} ∪ default ∅ processed)) st1) <> OutOfFuel /\
            classes (snd (make_factory tables_to_models overrides fuel fm
                            (Some ({[fullname m]} ∪ default ∅ processed)) st1))
              = classes st).
  { intros t fm st1 Hfm Ht HC.
    destruct (IH fm (Some ({[fullname m]} ∪ default ∅ processed)) st1 Hkey) as [I1 I2].
    - intros t' m' Hm'. apply (no_inferred_classes st); [exact HC | now apply (Hall t')].
    - apply (no_inferred_classes st); [exact HC | now apply (Hall t)].
    - change (size (dom tables_to_models
                      ∖ ({[fullname fm]} ∪ ({[fullname m]} ∪ default ∅ processed))) < fuel).
      rewrite (Hkey _ _ Hfm).
      assert (Hd : t ∈ dom tables_to_models) by (apply elem_of_dom; eauto).
      clear - Hd Ht Hsize.
      assert (Hsub : dom tables_to_models ∖ ({[t]} ∪ ({[fullname m]} ∪ default ∅ processed))
                     ⊂ dom tables_to_models ∖ ({[fullname m]} ∪ default ∅ processed)).
      { split.
        - intros x. rewrite !elem_of_difference, !elem_of_union. tauto.
        - intros Hsup. specialize (Hsup t).
          rewrite !elem_of_difference in Hsup.
          destruct (Hsup (conj Hd Ht)) as [_ Hn]. apply Hn.
          apply elem_of_union. left. now apply elem_of_singleton. }
      apply subset_size in Hsub. lia.
    - split; [exact I1 | congruence]. }
  apply bind_cases in H as [(a1 & st1 & H1 & H)|[(e & H1 & ->)|[H1 ->]]].
  - destruct (relationship_loop_total _ _ _ _ Hrec _ _ _ _ _ eq_refl H1) as [_ HC1].
    cbn [dynamic_loop] in H. rewrite (bind_Return_eq _ _ st1 a1 st1 eq_refl) in H.
    unfold register_factory in H. injection H as <- <-. split; [discriminate | exact HC1].
  - destruct (relationship_loop_total _ _ _ _ Hrec _ _ _ _ _ eq_refl H1) as [_ HC1].
    split; [discriminate | exact HC1].
  - destruct (relationship_loop_total _ _ _ _ Hrec _ _ _ _ _ eq_refl H1) as [Hno _].
    now contradict Hno.
Qed.

Lemma team_tables_keyed : tables_keyed_by_fullname team_tables.
Proof.
  intros t m H. unfold team_tables in H.
  apply lookup_insert_Some in H as [[<- <-]|[_ H]]; [reflexivity|].
  apply lookup_singleton_Some in H as [<- <-]. reflexivity.
Qed.

Lemma team_no_inferred t m :
  team_tables !! t = Some m -> no_inferred (empty_session team_classes) m.
Proof.
  intros H. unfold team_tables in H.
  apply lookup_insert_Some in H as [[<- <-]|[_ H]].
  - intros rc _ col Hcol [Hfk _].
    apply elem_of_cons in Hcol as [->|Hcol]; [now apply Hfk | inversion Hcol].
  - apply lookup_singleton_Some in H as [<- <-].
    intros rc Hrc col Hcol (Hfk & Hnin & _). cbn in Hrc. injection Hrc as <-.
    apply elem_of_cons in Hcol as [->|Hcol]; [now apply Hfk|].
    apply elem_of_cons in Hcol as [->|Hcol]; [|inversion Hcol].
    apply Hnin. apply elem_of_union. left. now apply elem_of_singleton.
Qed.

Lemma declared_relationships_terminate_witness :
  fst (make_factory team_tables ∅ 2 Team None (empty_session team_classes)) <> OutOfFuel /\
  classes (snd (make_factory team_tables ∅ 2 Team None (empty_session team_classes)))
    = classes (empty_session team_classes).
Proof.
  apply (declared_relationships_terminate team_tables ∅ 2 Team None
           (empty_session team_classes) team_tables_keyed team_no_inferred).
  - apply (team_no_inferred "team"). reflexivity.
  - vm_compute. lia.
Defined.

(** ** The models of the module *)

Lemma factory_generator_tables models_module overrides :
  factory_generator models_module overrides
  = make_factory (tables_of models_module) (default ∅ overrides).
Proof. reflexivity. Qed.

Lemma fold_insert_lookup (ms : list model) (acc : gmap string model) (t : string) :
  fold_left (fun tables member => <[__tablename__ member := member]> tables) ms acc !! t
  = match last (filter (fun m => __tablename__ m = t) ms) with
    | Some m => Some m
    | None => acc !! t
    end.
Proof.
  revert acc. induction ms as [|m ms IH]; intros acc; [reflexivity|].
  cbn [fold_left]. rewrite IH.
  destruct (decide (__tablename__ m = t)) as [E|E].
  - rewrite filter_cons_True by exact E. rewrite last_cons.
    destruct (last (filter _ ms)); [reflexivity|].
    rewrite E. apply lookup_insert_eq.
  - rewrite filter_cons_False by exact E.
    destruct (last (filter _ ms)); [reflexivity|].
    now apply lookup_insert_ne.
Qed.

Lemma tables_of_last models_module t :
  tables_of models_module !! t
  = last (filter (fun m => __tablename__ m = t) models_module).
Proof.
  unfold tables_of. rewrite fold_insert_lookup.
  destruct (last _); [reflexivity | apply lookup_empty].
Qed.

(** X7: [tables_to_models] files each model of the module under its
    [__tablename__]; of several members with the same table name the last
    one is kept, and a name no member has is not a key. *)
Theorem tables_of_lookup models_module t :
  tables_of models_module !! t
  = last (filter (fun m => __tablename__ m = t) models_module).
Proof. apply tables_of_last. Qed.

(** X8: a declared relationship outside the visited set is looked up by
    its target's full table name in a dict keyed by [__tablename__]: when
    no model of the module has that name as its [__tablename__], the
    build returns no factory, even if the target model is in the module
    under another name (a table in a schema). *)
Theorem target_not_filed_under_fullname models_module overrides fuel m processed st r :
  factory_registry st !! fullname m = None ->
  r ∈ relationships (classes st (class_id m)) ->
  target r ∉ ({[fullname m]} ∪ default ∅ processed : gset string) ->
  (forall m', m' ∈ models_module -> __tablename__ m' <> target r) ->
  forall f, fst (factory_generator models_module overrides fuel m processed st) <> Return f.
Proof.
  intros Hmiss Hr Ht Hnone f Hf.
  destruct (factory_generator models_module overrides fuel m processed st) as [o st'] eqn:H.
  cbn in Hf. subst o. rewrite factory_generator_tables in H.
  apply make_factory_Return_inv in H as
    (? & ? & a0 & ? & a1 & st1 & ? & ? & _ & _ & _ & Hrl & _); [|exact Hmiss].
  destruct (relationship_loop_known _ _ _ _ _ _ _ _ _ Hrl Hr Ht) as [fm Hfm].
  rewrite tables_of_last in Hfm. apply last_Some in Hfm as [l' Hl'].
  assert (Hin : fm ∈ filter (fun m0 => __tablename__ m0 = target r) models_module).
  { rewrite Hl'. apply elem_of_app. right. left. }
  apply list_elem_of_filter in Hin as [E Hin]. exact (Hnone fm Hin E).
Qed.

Lemma target_not_filed_under_fullname_witness :
  Audit ∈ [Audit; Event] /\
  fullname Audit = target audit_relationship /\
  fst (factory_generator [Audit; Event] None 3 Event None (empty_session event_classes))
    <> Return 0.
Proof.
  split; [left|]. split; [reflexivity|].
  apply (target_not_filed_under_fullname [Audit; Event] None 3 Event None
           (empty_session event_classes) audit_relationship).
  - reflexivity.
  - left.
  - apply (bool_decide_unpack _). vm_compute. exact I.
  - intros m' Hm'.
    apply elem_of_cons in Hm' as [->|Hm']; [discriminate|].
    apply elem_of_cons in Hm' as [->|Hm']; [discriminate | inversion Hm'].
Defined.

(** ** Generated values *)

(** X9: a string column that is not passed over and has no truthy
    override gets [Faker("uuid4")] when it is a primary key, whatever its
    declared length, and otherwise [Faker("pystr")] bounded by the
    declared length, or by 36 when the length is missing or 0.  This is
    for a column whose name no other column has and that is neither the
    key of a declared relationship, nor the name of an inferred one, nor
    ["Meta"]. *)
Theorem string_column_declaration
    tables_to_models overrides fuel m processed st f st' rc col len :
  make_factory tables_to_models overrides fuel m processed st = (Return f, st') ->
  factory_registry st !! fullname m = None ->
  relation_cols (relationships (classes st (class_id m))) = Some rc ->
  NoDup (name <$> columns m) ->
  col ∈ columns m ->
  (forall r, r ∈ relationships (classes st (class_id m)) -> rel_key r <> name col) ->
  (forall c, c ∈ columns m -> inferred rc c -> drop_last3 (key c) <> name col) ->
  name col <> "Meta" ->
  ~ fk_guard rc col ->
  (forall v, get_override overrides (fullname m) col = Some v -> truthy v = false) ->
  type col = String_ len ->
  exists fac,
    factories st' !! f = Some fac /\
    (primary_key col = true ->
     dict_get (name col) (factory_attributes fac)
     = Some (Value (PyObject (Faker "uuid4" NoKwargs)))) /\
    (primary_key col = false ->
     (len = None \/ len = Some 0%Z ->
      dict_get (name col) (factory_attributes fac)
      = Some (Value (PyObject (Faker "pystr" (MaxChars 36))))) /\
     (forall z, len = Some z -> z <> 0%Z ->
      dict_get (name col) (factory_attributes fac)
      = Some (Value (PyObject (Faker "pystr" (MaxChars z)))))).
Proof.
  intros H Hmiss Hrc Hnd Hin Hrel Hdyn Hmeta G Ho Hty.
  destruct (factory_column_attribute _ _ _ _ _ _ _ _ _ _ H Hmiss Hrc Hnd Hin Hrel Hdyn Hmeta)
    as (fac & Hf & _ & Hng).
  exists fac. split; [exact Hf|].
  destruct (Hng G) as (v & -> & Hc).
  destruct (chosen_provider _ _ _ _ Hc Ho) as (provider & Hp & ->).
  rewrite Hty in Hp. cbn in Hp. injection Hp as <-. rewrite Hty. cbn [type_length].
  split.
  - intros ->. reflexivity.
  - intros ->. cbn [negb]. split.
    + intros [->| ->]; reflexivity.
    + intros z -> Hz. cbn [or_int]. destruct (Z.eqb_spec z 0); [contradiction | reflexivity].
Qed.

Lemma string_column_declaration_witness :
  exists fac,
    factories account_session !! 0 = Some fac /\
    dict_get "id" (factory_attributes fac)
    = Some (Value (PyObject (Faker "uuid4" NoKwargs))).
Proof.
  destruct (string_column_declaration account_tables account_overrides 1 Account None
              (empty_session no_classes) 0 account_session ∅ id_column (Some 36%Z)
              account_build) as (fac & Hf & Hpk & _).
  - vm_compute. reflexivity.
  - vm_compute. reflexivity.
  - apply (bool_decide_unpack _). vm_compute. exact I.
  - left.
  - intros r Hr. inversion Hr.
  - intros c Hc (Hfk & _ & Hs) _.
    repeat (apply elem_of_cons in Hc as [->|Hc]); [| | |inversion Hc];
      first [now apply Hfk | cbv in Hs; discriminate Hs].
  - discriminate.
  - intros [Hfk _]. now apply Hfk.
  - intros v Hv. vm_compute in Hv. discriminate Hv.
  - reflexivity.
  - exists fac. split; [exact Hf|]. now apply Hpk.
Defined.

(** ** Schema normalisation *)

Lemma dict_get_del_eq {V} (k : string) (d : list (string * V)) :
  dict_get k (dict_del k d) = None.
Proof.
  induction d as [|[k' v] d IH]; [reflexivity|]. cbn [dict_del].
  destruct (String.eqb k k') eqn:E; [exact IH|]. cbn [dict_get]. now rewrite E.
Qed.

Lemma dict_get_elem_of {V} (k : string) (v : V) (d : list (string * V)) :
  dict_get k d = Some v -> (k, v) ∈ d.
Proof.
  induction d as [|[k' v'] d IH]; [discriminate|]. cbn [dict_get].
  destruct (String.eqb k k') eqn:E.
  - apply String.eqb_eq in E. subst k'. intros [= <-]. left.
  - intros H. right. now apply IH.
Qed.

Lemma dict_del_elem_of {V} (k : string) (d : list (string * V)) kv :
  kv ∈ dict_del k d -> kv ∈ d.
Proof.
  induction d as [|[k' v'] d IH]; [auto|]. cbn [dict_del].
  destruct (String.eqb k k').
  - intros H. right. now apply IH.
  - intros H. apply elem_of_cons in H as [->|H]; [left | right; now apply IH].
Qed.

Lemma dict_set_elem_of {V} (k : string) (v : V) (d : list (string * V)) kv :
  kv ∈ dict_set k v d -> kv = (k, v) \/ kv ∈ d.
Proof.
  induction d as [|[k' v'] d IH]; cbn [dict_set].
  - intros H. apply elem_of_cons in H as [->|H]; [now left | inversion H].
  - destruct (String.eqb k k').
    + intros H. apply elem_of_cons in H as [->|H]; [now left | right; now right].
    + intros H. apply elem_of_cons in H as [->|H]; [right; left|].
      destruct (IH H) as [->|H']; [now left | right; now right].
Qed.

Lemma nullable_free_object items :
  nullable_free (JObject items) <->
  dict_get "nullable" items <> Some (JBool true) /\
  Forall (fun kv => nullable_free kv.2) items.
Proof.
  cbn [nullable_free]. apply and_iff_compat_l.
  induction items as [|[k v] items IH]; [split; [constructor | auto]|].
  rewrite Forall_cons. cbn [snd]. now rewrite <- IH.
Qed.

Lemma nullable_free_array items :
  nullable_free (JArray items) <-> Forall nullable_free items.
Proof.
  cbn [nullable_free].
  induction items as [|v items IH]; [split; [constructor | auto]|].
  rewrite Forall_cons. now rewrite <- IH.
Qed.

Lemma nullable_typed_object items :
  nullable_typed (JObject items) <->
  (dict_get "nullable" items = Some (JBool true) -> is_Some (dict_get "type" items)) /\
  Forall (fun kv => nullable_typed kv.2) items.
Proof.
  cbn [nullable_typed]. apply and_iff_compat_l.
  induction items as [|[k v] items IH]; [split; [constructor | auto]|].
  rewrite Forall_cons. cbn [snd]. now rewrite <- IH.
Qed.

Lemma nullable_typed_array items :
  nullable_typed (JArray items) <-> Forall nullable_typed items.
Proof.
  cbn [nullable_typed].
  induction items as [|v items IH]; [split; [constructor | auto]|].
  rewrite Forall_cons. now rewrite <- IH.
Qed.

Lemma height_object items kv :
  kv ∈ items -> height kv.2 < height (JObject items).
Proof.
  cbn [height]. induction items as [|[k v] items IH]; intros H; [inversion H|].
  apply elem_of_cons in H as [->|H]; cbn [snd].
  - lia.
  - specialize (IH H). lia.
Qed.

Lemma height_array items v :
  v ∈ items -> height v < height (JArray items).
Proof.
  cbn [height]. induction items as [|x items IH]; intros H; [inversion H|].
  apply elem_of_cons in H as [->|H].
  - lia.
  - specialize (IH H). lia.
Qed.

Section values.

Variable f : json -> outcome json.

Lemma update_values_Return items r :
  update_values f items = Return r ->
  Forall2 (fun kv kv' => kv.1 = kv'.1 /\ f kv.2 = Return kv'.2) items r.
Proof.
  revert r. induction items as [|[k v] items IH]; intros r; cbn [update_values].
  - intros [= <-]. constructor.
  - destruct (f v) as [v'| |] eqn:Hv; try discriminate. cbn [and_then].
    destruct (update_values f items) as [r'| |]; try discriminate. cbn [and_then].
    intros [= <-]. constructor; [now split | now apply IH].
Qed.

Lemma update_items_Return items r :
  update_items f items = Return r ->
  Forall2 (fun v v' => f v = Return v') items r.
Proof.
  revert r. induction items as [|v items IH]; intros r; cbn [update_items].
  - intros [= <-]. constructor.
  - destruct (f v) as [v'| |] eqn:Hv; try discriminate. cbn [and_then].
    destruct (update_items f items) as [r'| |]; try discriminate. cbn [and_then].
    intros [= <-]. constructor; [assumption | now apply IH].
Qed.

Lemma update_values_Raise items e :
  update_values f items = Raise e ->
  exists kv, kv ∈ items /\ f kv.2 = Raise e.
Proof.
  induction items as [|[k v] items IH]; cbn [update_values]; [discriminate|].
  destruct (f v) as [v'|e'|] eqn:Hv; cbn [and_then]; try discriminate.
  - destruct (update_values f items) as [r'|e'|]; cbn [and_then]; try discriminate.
    intros [= <-]. destruct (IH eq_refl) as (kv & Hin & Hkv).
    exists kv. split; [now right | exact Hkv].
  - intros [= <-]. exists (k, v). split; [left | exact Hv].
Qed.

Lemma update_items_Raise items e :
  update_items f items = Raise e ->
  exists v, v ∈ items /\ f v = Raise e.
Proof.
  induction items as [|v items IH]; cbn [update_items]; [discriminate|].
  destruct (f v) as [v'|e'|] eqn:Hv; cbn [and_then]; try discriminate.
  - destruct (update_items f items) as [r'|e'|]; cbn [and_then]; try discriminate.
    intros [= <-]. destruct (IH eq_refl) as (x & Hin & Hx).
    exists x. split; [now right | exact Hx].
  - intros [= <-]. exists v. split; [left | exact Hv].
Qed.

Lemma update_values_total items :
  Forall (fun kv => exists v', f kv.2 = Return v') items ->
  exists r, update_values f items = Return r.
Proof.
  induction items as [|[k v] items IH]; intros H; [now exists []|].
  apply Forall_cons in H as [[v' Hv] Hrest]. destruct (IH Hrest) as [r Hr].
  cbn [update_values]. cbn [snd] in Hv. rewrite Hv. cbn [and_then]. rewrite Hr.
  cbn [and_then]. eauto.
Qed.

Lemma update_items_total items :
  Forall (fun v => exists v', f v = Return v') items ->
  exists r, update_items f items = Return r.
Proof.
  induction items as [|v items IH]; intros H; [now exists []|].
  apply Forall_cons in H as [[v' Hv] Hrest]. destruct (IH Hrest) as [r Hr].
  cbn [update_items]. rewrite Hv. cbn [and_then]. rewrite Hr. cbn [and_then]. eauto.
Qed.

Lemma update_values_id items :
  Forall (fun kv => f kv.2 = Return kv.2) items ->
  update_values f items = Return items.
Proof.
  induction items as [|[k v] items IH]; intros H; [reflexivity|].
  apply Forall_cons in H as [Hv Hrest]. cbn [update_values]. cbn [snd] in Hv.
  rewrite Hv. cbn [and_then]. rewrite (IH Hrest). reflexivity.
Qed.

Lemma update_items_id items :
  Forall (fun v => f v = Return v) items ->
  update_items f items = Return items.
Proof.
  induction items as [|v items IH]; intros H; [reflexivity|].
  apply Forall_cons in H as [Hv Hrest]. cbn [update_items].
  rewrite Hv. cbn [and_then]. rewrite (IH Hrest). reflexivity.
Qed.

End values.

Lemma _update_nullable_Return_object fuel items v' :
  _update_nullable (S fuel) (JObject items) = Return v' ->
  exists items' r,
    widen_type items = Return items' /\
    update_values (_update_nullable fuel) items' = Return r /\
    v' = JObject r.
Proof.
  cbn [_update_nullable].
  destruct (widen_type items) as [items'| |] eqn:Hw; cbn [and_then];
    try discriminate.
  destruct (update_values (_update_nullable fuel) items') as [r| |] eqn:Hr;
    cbn [and_then]; try discriminate.
  intros [= <-]. exists items', r. repeat split; assumption.
Qed.

Lemma _update_nullable_Return_array fuel items v' :
  _update_nullable (S fuel) (JArray items) = Return v' ->
  exists r, update_items (_update_nullable fuel) items = Return r /\ v' = JArray r.
Proof.
  cbn [_update_nullable].
  destruct (update_items (_update_nullable fuel) items) as [r| |];
    cbn [and_then]; try discriminate.
  intros [= <-]. exists r. split; reflexivity.
Qed.

(** The call returns [True] only for the argument [True]. *)
Lemma _update_nullable_true fuel v :
  _update_nullable fuel v = Return (JBool true) -> v = JBool true.
Proof.
  destruct fuel; [discriminate|]. destruct v; cbn [_update_nullable]; try congruence.
  - intros H. apply _update_nullable_Return_array in H as (r & _ & [=]).
  - intros H. apply _update_nullable_Return_object in H as (i & r & _ & _ & [=]).
Qed.

Lemma widen_type_Return items items' :
  widen_type items = Return items' ->
  dict_get "nullable" items' <> Some (JBool true) /\
  (forall kv, kv ∈ items' ->
     kv ∈ items \/
     exists t, dict_get "nullable" items = Some (JBool true) /\
               dict_get "type" items = Some t /\
               kv = ("type", JArray [t; JString "null"])).
Proof.
  unfold widen_type.
  destruct (dict_get "nullable" items) as [[| [|] | | | | |]|] eqn:Hn;
    try (intros [= <-]; split; [congruence | now left]).
  destruct (dict_get "type" items) as [t|] eqn:Ht; [|discriminate].
  intros [= <-]. split.
  - now rewrite dict_get_del_eq.
  - intros kv H. apply dict_del_elem_of in H.
    apply dict_set_elem_of in H as [->|H]; [right; eauto | now left].
Qed.

Lemma update_values_get (f : json -> outcome json) k items r x :
  update_values f items = Return r ->
  dict_get k r = Some x ->
  exists v, dict_get k items = Some v /\ f v = Return x.
Proof.
  intros H. apply update_values_Return in H.
  induction H as [|[k1 v1] [k2 v2] l l' [Hk Hv] _ IH]; [discriminate|].
  cbn [fst snd] in Hk, Hv. subst k2. cbn [dict_get].
  destruct (String.eqb k k1); [intros [= <-]; eauto | exact IH].
Qed.

Lemma nullable_free_result fuel : forall v v',
  _update_nullable fuel v = Return v' -> nullable_free v'.
Proof.
  induction fuel as [|fuel IH]; intros v v' H; [discriminate|].
  destruct v; try (cbn [_update_nullable] in H; injection H as <-; exact I).
  - apply _update_nullable_Return_array in H as (r & Hr & ->).
    apply nullable_free_array. apply update_items_Return in Hr.
    induction Hr; constructor; eauto.
  - apply _update_nullable_Return_object in H as (items' & r & Hw & Hr & ->).
    apply widen_type_Return in Hw as [Hn _].
    apply nullable_free_object. split.
    + intros Hget. destruct (update_values_get _ _ _ _ _ Hr Hget) as (v & Hv & Hx).
      apply _update_nullable_true in Hx. congruence.
    + apply update_values_Return in Hr. clear Hn.
      induction Hr as [|? ? ? ? [_ Hx]]; constructor; eauto.
Qed.

Lemma nullable_free_fixed fuel : forall v,
  nullable_free v -> height v < fuel -> _update_nullable fuel v = Return v.
Proof.
  induction fuel as [|fuel IH]; intros v Hf Hh; [lia|].
  destruct v; try reflexivity.
  - cbn [_update_nullable]. apply nullable_free_array in Hf.
    rewrite update_items_id; [reflexivity|].
    apply Forall_forall. intros x Hx. apply IH.
    + now apply (proj1 (Forall_forall _ _) Hf).
    + apply height_array in Hx. lia.
  - cbn [_update_nullable]. apply nullable_free_object in Hf as [Hn Hf].
    assert (Hw : widen_type items = Return items).
    { unfold widen_type.
      destruct (dict_get "nullable" items) as [[| [|] | | | | |]|]; congruence. }
    rewrite Hw. cbn [and_then].
    rewrite update_values_id; [reflexivity|].
    apply Forall_forall. intros x Hx. apply IH.
    + now apply (proj1 (Forall_forall _ _) Hf).
    + apply height_object in Hx. lia.
Qed.

Lemma nullable_typed_returns : forall fuel v,
  nullable_typed v -> 2 * height v + 1 <= fuel ->
  exists v', _update_nullable fuel v = Return v'.
Proof.
  induction fuel as [fuel IH] using lt_wf_ind. intros v Ht Hh.
  destruct fuel as [|fuel]; [lia|].
  destruct v; try (eexists; reflexivity).
  - cbn [_update_nullable]. apply nullable_typed_array in Ht.
    destruct (update_items_total (_update_nullable fuel) items) as [r Hr].
    { apply Forall_forall. intros x Hx. apply IH; [lia| |].
      - now apply (proj1 (Forall_forall _ _) Ht).
      - apply height_array in Hx. lia. }
    rewrite Hr. cbn [and_then]. eauto.
  - cbn [_update_nullable]. apply nullable_typed_object in Ht as [Hty Ht].
    assert (Hw : exists items', widen_type items = Return items').
    { unfold widen_type.
      destruct (dict_get "nullable" items) as [[| [|] | | | | |]|]; eauto.
      destruct (Hty eq_refl) as [t ->]. eauto. }
    destruct Hw as [items' Hw]. rewrite Hw. cbn [and_then].
    apply widen_type_Return in Hw as [_ Hin].
    destruct (update_values_total (_update_nullable fuel) items') as [r Hr].
    { apply Forall_forall. intros kv Hkv.
      destruct (Hin kv Hkv) as [Hold|(t & _ & Hget & ->)].
      - apply IH; [lia| |].
        + now apply (proj1 (Forall_forall _ _) Ht).
        + apply height_object in Hold. lia.
      - cbn [snd]. apply dict_get_elem_of in Hget.
        pose proof (height_object _ _ Hget) as Hlt. cbn [snd] in Hlt.
        destruct fuel as [|fuel]; [lia|].
        destruct (IH fuel ltac:(lia) t) as [t' Ht'].
        + exact (proj1 (Forall_forall _ _) Ht _ Hget).
        + lia.
        + cbn [_update_nullable update_items]. rewrite Ht'. cbn [and_then].
          destruct fuel; [lia|]. cbn [_update_nullable and_then]. eauto. }
    rewrite Hr. cbn [and_then]. eauto.
Qed.

Lemma _update_nullable_Raise fuel : forall v e,
  _update_nullable fuel v = Raise e -> e = KeyError "type" /\ ~ nullable_typed v.
Proof.
  induction fuel as [|fuel IH]; intros v e H; [discriminate|].
  destruct v; try discriminate.
  - cbn [_update_nullable] in H.
    destruct (update_items (_update_nullable fuel) items) as [r|e'|] eqn:Hr;
      cbn [and_then] in H; try discriminate.
    injection H as ->. apply update_items_Raise in Hr as (x & Hx & Hf).
    destruct (IH _ _ Hf) as [-> Hnt]. split; [reflexivity|].
    intros Ht. apply nullable_typed_array in Ht.
    exact (Hnt (proj1 (Forall_forall _ _) Ht _ Hx)).
  - cbn [_update_nullable] in H.
    destruct (widen_type items) as [items'|e'|] eqn:Hw; cbn [and_then] in H;
      try discriminate.
    + destruct (update_values (_update_nullable fuel) items') as [r|e'|] eqn:Hr;
        cbn [and_then] in H; try discriminate.
      injection H as ->. apply update_values_Raise in Hr as (kv & Hkv & Hf).
      apply widen_type_Return in Hw as [_ Hin].
      destruct (Hin kv Hkv) as [Hold|(t & _ & Hget & ->)].
      * destruct (IH _ _ Hf) as [-> Hnt]. split; [reflexivity|].
        intros Ht. apply nullable_typed_object in Ht as [_ Ht].
        exact (Hnt (proj1 (Forall_forall _ _) Ht _ Hold)).
      * cbn [snd] in Hf. destruct (IH _ _ Hf) as [-> Hnt]. split; [reflexivity|].
        intros Ht. apply nullable_typed_object in Ht as [_ Ht].
        apply Hnt. apply nullable_typed_array.
        apply dict_get_elem_of in Hget.
        repeat constructor. exact (proj1 (Forall_forall _ _) Ht _ Hget).
    + injection H as ->. unfold widen_type in Hw.
      destruct (dict_get "nullable" items) as [[| [|] | | | | |]|] eqn:Hn;
        try discriminate.
      destruct (dict_get "type" items) eqn:Hty; [discriminate|].
      injection Hw as <-. split; [reflexivity|].
      intros Ht. apply nullable_typed_object in Ht as [Ht _].
      destruct (Ht Hn) as [t Hs]. congruence.
Qed.

Lemma dict_get_del_ne {V} (k k' : string) (d : list (string * V)) :
  k <> k' -> dict_get k' (dict_del k d) = dict_get k' d.
Proof.
  intros Hne. induction d as [|[k0 v0] d IH]; [reflexivity|]. cbn [dict_del].
  destruct (String.eqb k k0) eqn:E; cbn [dict_get].
  - apply String.eqb_eq in E. subst k0.
    destruct (String.eqb k' k) eqn:E'; [|exact IH].
    apply String.eqb_eq in E'. congruence.
  - destruct (String.eqb k' k0); [reflexivity | exact IH].
Qed.

Lemma update_values_get_Some (f : json -> outcome json) k items r v :
  update_values f items = Return r ->
  dict_get k items = Some v ->
  exists x, f v = Return x /\ dict_get k r = Some x.
Proof.
  intros H. apply update_values_Return in H.
  induction H as [|[k1 v1] [k2 v2] l l' [Hk Hv] _ IH]; [discriminate|].
  cbn [fst snd] in Hk, Hv. subst k2. cbn [dict_get].
  destruct (String.eqb k k1); [intros [= <-]; eauto | exact IH].
Qed.

Lemma copy_has_copy schema :
  has_copy schema -> copy schema = Return schema.
Proof. destruct schema; cbn; tauto. Qed.

Lemma copy_cases schema :
  has_copy schema /\ copy schema = Return schema \/
  ~ has_copy schema /\ copy schema = Raise (AttributeError "copy").
Proof. destruct schema; cbn; tauto. Qed.

Lemma compatible_Return fuel schema schema' :
  _update_nullable_to_json_schema_compatible fuel schema = Return schema' ->
  has_copy schema /\ _update_nullable fuel schema = Return schema'.
Proof.
  unfold _update_nullable_to_json_schema_compatible.
  destruct (copy_cases schema) as [[Hc ->]|[_ ->]]; [|discriminate].
  cbn [and_then]. auto.
Qed.

(** What is returned for a dict is a dict, and for a list a list. *)
Lemma _update_nullable_has_copy fuel schema schema' :
  _update_nullable fuel schema = Return schema' -> has_copy schema -> has_copy schema'.
Proof.
  destruct fuel as [|fuel]; [discriminate|].
  destruct schema; cbn [has_copy]; try contradiction; intros H _.
  - apply _update_nullable_Return_array in H as (r & _ & ->). exact I.
  - apply _update_nullable_Return_object in H as (w & r & _ & _ & ->). exact I.
Qed.

(** X10: whatever schema is given, the schema that
    [_update_nullable_to_json_schema_compatible] returns has no dict, at
    any depth, whose ["nullable"] is [True]. *)
Theorem compatible_schema_has_no_nullable fuel schema schema' :
  _update_nullable_to_json_schema_compatible fuel schema = Return schema' ->
  nullable_free schema'.
Proof.
  intros H. apply compatible_Return in H as [_ H].
  exact (nullable_free_result _ _ _ H).
Qed.

Lemma compatible_schema_has_no_nullable_witness :
  nullable_free pet_schema_compatible.
Proof.
  apply (compatible_schema_has_no_nullable 5 pet_schema pet_schema_compatible).
  vm_compute. reflexivity.
Defined.

(** X11: a dict or a list in which every dict with ["nullable": true]
    has a ["type"] is normalised without error; a recursion depth of twice
    the nesting depth of the schema plus one is enough. *)
Theorem typed_schema_is_made_compatible fuel schema :
  has_copy schema ->
  nullable_typed schema ->
  2 * height schema + 1 <= fuel ->
  exists schema', _update_nullable_to_json_schema_compatible fuel schema = Return schema'.
Proof.
  intros Hc Ht Hh. unfold _update_nullable_to_json_schema_compatible.
  rewrite (copy_has_copy _ Hc). cbn [and_then]. now apply nullable_typed_returns.
Qed.

Lemma typed_schema_is_made_compatible_witness :
  exists schema', _update_nullable_to_json_schema_compatible 7 pet_schema = Return schema'.
Proof.
  apply (typed_schema_is_made_compatible 7 pet_schema).
  - exact I.
  - cbn. repeat split; try discriminate. intros _. eexists. reflexivity.
  - vm_compute. lia.
Defined.

(** X12: the normalisation raises two errors only: the [AttributeError]
    of [schema.copy()], for a schema that is neither a dict nor a list,
    and the [KeyError] of [schema["type"]], for a schema in which some
    dict has ["nullable": true] and no ["type"]. *)
Theorem missing_type_is_the_only_error fuel schema e :
  _update_nullable_to_json_schema_compatible fuel schema = Raise e ->
  e = AttributeError "copy" /\ ~ has_copy schema \/
  e = KeyError "type" /\ has_copy schema /\ ~ nullable_typed schema.
Proof.
  unfold _update_nullable_to_json_schema_compatible.
  destruct (copy_cases schema) as [[Hc ->]|[Hc ->]]; cbn [and_then].
  - intros H. right. destruct (_update_nullable_Raise _ _ _ H) as [-> Hn]. auto.
  - intros [= <-]. left. auto.
Qed.

Lemma missing_type_is_the_only_error_witness :
  KeyError "type" = AttributeError "copy" /\ ~ has_copy untyped_schema \/
  KeyError "type" = KeyError "type" /\ has_copy untyped_schema /\
  ~ nullable_typed untyped_schema.
Proof.
  apply (missing_type_is_the_only_error 3 untyped_schema (KeyError "type")).
  vm_compute. reflexivity.
Defined.

(** The schema has to be a dict or a list: a string has no [copy]. *)
Example string_schema_has_no_copy fuel :
  _update_nullable_to_json_schema_compatible fuel (JString "string")
  = Raise (AttributeError "copy").
Proof. reflexivity. Qed.

(** X13: the normalisation is idempotent: applied to a schema it has
    returned, it returns that schema unchanged. *)
Theorem compatible_schema_is_fixed fuel fuel' schema schema' :
  _update_nullable_to_json_schema_compatible fuel schema = Return schema' ->
  height schema' < fuel' ->
  _update_nullable_to_json_schema_compatible fuel' schema' = Return schema'.
Proof.
  intros H Hh. apply compatible_Return in H as [Hc H].
  unfold _update_nullable_to_json_schema_compatible.
  rewrite (copy_has_copy _ (_update_nullable_has_copy _ _ _ H Hc)). cbn [and_then].
  apply nullable_free_fixed; [|exact Hh].
  exact (nullable_free_result _ _ _ H).
Qed.

Lemma compatible_schema_is_fixed_witness :
  _update_nullable_to_json_schema_compatible 5 pet_schema_compatible
  = Return pet_schema_compatible.
Proof.
  apply (compatible_schema_is_fixed 5 5 pet_schema pet_schema_compatible).
  - vm_compute. reflexivity.
  - vm_compute. lia.
Defined.

(** X14: in a dict with ["nullable": true], the normalisation replaces
    ["type"] by the two-element list of the normalised old type and
    ["null"], and the returned dict has no ["nullable"] key. *)
Theorem nullable_type_widened fuel items schema' t :
  dict_get "nullable" items = Some (JBool true) ->
  dict_get "type" items = Some t ->
  _update_nullable_to_json_schema_compatible (S (S fuel)) (JObject items) = Return schema' ->
  exists t' items',
    _update_nullable fuel t = Return t' /\
    schema' = JObject items' /\
    dict_get "type" items' = Some (JArray [t'; JString "null"]) /\
    dict_get "nullable" items' = None.
Proof.
  intros Hn Ht H. apply compatible_Return in H as [_ H].
  apply _update_nullable_Return_object in H as (w & r & Hw & Hr & ->).
  unfold widen_type in Hw. rewrite Hn, Ht in Hw. injection Hw as <-.
  destruct (update_values_get_Some _ "type" _ _ (JArray [t; JString "null"]) Hr)
    as (x & Hx & Hget).
  { rewrite dict_get_del_ne by discriminate. apply dict_get_set_eq. }
  apply _update_nullable_Return_array in Hx as (l & Hl & ->).
  cbn [update_items] in Hl.
  destruct (_update_nullable fuel t) as [t'| |] eqn:Et; cbn [and_then] in Hl;
    try discriminate.
  destruct fuel as [|fuel]; [discriminate|].
  cbn [_update_nullable and_then] in Hl. injection Hl as <-.
  exists t', r. repeat split; [exact Hget|].
  destruct (dict_get "nullable" r) as [x|] eqn:Ex; [|reflexivity].
  destruct (update_values_get _ _ _ _ _ Hr Ex) as (v & Hv & _).
  rewrite dict_get_del_eq in Hv. discriminate.
Qed.

Lemma nullable_type_widened_witness :
  exists t' items',
    _update_nullable 1 (JString "string") = Return t' /\
    JObject [("type", JArray [JString "string"; JString "null"])] = JObject items' /\
    dict_get "type" items' = Some (JArray [t'; JString "null"]) /\
    dict_get "nullable" items' = None.
Proof.
  apply (nullable_type_widened 1
           [("type", JString "string"); ("nullable", JBool true)]
           (JObject [("type", JArray [JString "string"; JString "null"])])
           (JString "string")).
  - reflexivity.
  - reflexivity.
  - vm_compute. reflexivity.
Defined.

(** ** The overrides of the test session *)

Lemma _get_overrides_job json_overrides col :
  get_override (_get_overrides json_overrides) "job" col
  = if String.eqb (name col) "status" then Some (PyStr "RUNNING") else None.
Proof.
  unfold get_override, _get_overrides. rewrite lookup_insert_eq. cbn [default].
  destruct (String.eqb_spec (name col) "status") as [->|Hne].
  - apply lookup_singleton_eq.
  - apply lookup_singleton_ne. congruence.
Qed.

(** X15: under the overrides of [DBInitializer._get_overrides], whatever
    the fixture file holds, the factory of the model of table ["job"]
    gives the column [status] the value ["RUNNING"] and every other column
    that the foreign-key guard does not pass over the value of the
    provider of its type: what the file holds for ["job"] is replaced, not
    merged.  This is for a column whose name no other column has and that
    is neither the key of a declared relationship, nor the name of an
    inferred one, nor ["Meta"]. *)
Theorem job_overrides_replace_fixture json_overrides tables_to_models fuel m processed
    st f st' rc col :
  make_factory tables_to_models (_get_overrides json_overrides) fuel m processed st
  = (Return f, st') ->
  fullname m = "job" ->
  factory_registry st !! fullname m = None ->
  relation_cols (relationships (classes st (class_id m))) = Some rc ->
  NoDup (name <$> columns m) ->
  col ∈ columns m ->
  (forall r, r ∈ relationships (classes st (class_id m)) -> rel_key r <> name col) ->
  (forall c, c ∈ columns m -> inferred rc c -> drop_last3 (key c) <> name col) ->
  name col <> "Meta" ->
  ~ fk_guard rc col ->
  exists fac,
    factories st' !! f = Some fac /\
    (name col = "status" ->
     dict_get "status" (factory_attributes fac) = Some (Value (PyStr "RUNNING"))) /\
    (name col <> "status" ->
     exists provider,
       data_providers (type col) = Some provider /\
       dict_get (name col) (factory_attributes fac) = Some (Value (provider col))).
Proof.
  intros H Hjob Hmiss Hrc Hnd Hin Hrel Hdyn Hmeta G.
  destruct (factory_column_attribute _ _ _ _ _ _ _ _ _ _ H Hmiss Hrc Hnd Hin Hrel Hdyn Hmeta)
    as (fac & Hf & _ & Hng).
  exists fac. split; [exact Hf|].
  destruct (Hng G) as (v & Hv & Hc). rewrite Hjob in Hc. split.
  - intros Hs. rewrite Hs in Hv. rewrite Hv.
    rewrite (chosen_override _ _ _ _ (PyStr "RUNNING") Hc); [reflexivity| |reflexivity].
    rewrite _get_overrides_job, Hs. reflexivity.
  - intros Hs. destruct (chosen_provider _ _ _ _ Hc) as (provider & Hp & ->); [|eauto].
    intros w Hw. rewrite _get_overrides_job in Hw.
    destruct (String.eqb_spec (name col) "status"); [contradiction | discriminate].
Qed.

Lemma running_build :
  make_factory pipeline_tables (_get_overrides fixture_overrides) 3 Job None
    (empty_session pipeline_classes)
  = (Return 1, running_session).
Proof. vm_compute. reflexivity. Qed.

Lemma job_overrides_replace_fixture_witness :
  exists fac,
    factories running_session !! 1 = Some fac /\
    dict_get "retries" (factory_attributes fac)
    = Some (Value (PyObject (Faker "random_int" NoKwargs))).
Proof.
  destruct (job_overrides_replace_fixture fixture_overrides pipeline_tables 3 Job None
              (empty_session pipeline_classes) 1 running_session ∅
              {| key := "retries"; name := "retries"; type := Integer;
                 primary_key := false; foreign_keys := [] |}
              running_build) as (fac & Hf & _ & Hp).
  - reflexivity.
  - vm_compute. reflexivity.
  - vm_compute. reflexivity.
  - apply (bool_decide_unpack _). vm_compute. exact I.
  - right. right. left.
  - intros r Hr. vm_compute in Hr. inversion Hr.
  - intros c Hc (Hfk & _ & Hs) E.
    repeat (apply elem_of_cons in Hc as [->|Hc]); [| | | |inversion Hc];
      first [now apply Hfk | cbv in E; discriminate E].
  - discriminate.
  - intros [Hfk _]. now apply Hfk.
  - exists fac. split; [exact Hf|].
    destruct Hp as (provider & Hd & Hget); [discriminate|].
    vm_compute in Hd. injection Hd as <-. exact Hget.
Defined.

(** ** Lambda events *)

Lemma _get_event_linked t ep (h : heap) tmpl c ctx :
  h !! t = Some tmpl ->
  dict_get "requestContext" tmpl = Some (ERef c) ->
  h !! c = Some ctx ->
  _get_event t ep h
  = (EReturn (length h),
     <[c := dict_set "path" (EStr ep) ctx]>
       (h ++ [dict_set "pathParameters" (ERef (S (length h)))
                (dict_set "path" (EStr ep) tmpl);
              [("proxy", EStr ep)]])%list).
Proof.
  intros Ht Hc Hctx. unfold _get_event. rewrite Ht. cbv zeta.
  rewrite !dict_get_set_ne by discriminate. rewrite Hc.
  rewrite lookup_app_l by (eapply lookup_lt_Some; exact Hctx).
  rewrite Hctx. reflexivity.
Qed.

(** X16: a call of [_get_event] returns a new event whose ["path"] is
    the endpoint, and it writes the endpoint into the request context that
    the template and every event made from it hold in common: any event
    returned before reads the new endpoint under
    [["requestContext"]["path"]]. *)
Theorem events_share_request_context t ep (h : heap) tmpl c ctx e :
  h !! t = Some tmpl ->
  dict_get "requestContext" tmpl = Some (ERef c) ->
  h !! c = Some ctx ->
  item h e "requestContext" = Some (ERef c) ->
  exists e' h',
    _get_event t ep h = (EReturn e', h') /\
    e' <> e /\
    item h' e' "path" = Some (EStr ep) /\
    item h' e' "requestContext" = Some (ERef c) /\
    item2 h' e' "requestContext" "path" = Some (EStr ep) /\
    item2 h' e "requestContext" "path" = Some (EStr ep).
Proof.
  intros Ht Hc Hctx He. eexists _, _. split; [eapply _get_event_linked; eassumption|].
  pose proof (lookup_lt_Some _ _ _ Hctx) as Hlt.
  assert (Hel : e < length h).
  { unfold item in He. destruct (h !! e) eqn:E; [|discriminate].
    eapply lookup_lt_Some; exact E. }
  set (d2 := dict_set "pathParameters" _ _).
  set (h1 := (h ++ _)%list).
  assert (Hpath : item (<[c := dict_set "path" (EStr ep) ctx]> h1) c "path"
                  = Some (EStr ep)).
  { unfold item. rewrite list_lookup_insert_eq.
    - apply dict_get_set_eq.
    - unfold h1. rewrite length_app. lia. }
  assert (Hnew : (<[c := dict_set "path" (EStr ep) ctx]> h1) !! length h = Some d2).
  { rewrite list_lookup_insert_ne by lia. unfold h1. now apply list_lookup_middle. }
  assert (Hrc : item (<[c := dict_set "path" (EStr ep) ctx]> h1) (length h)
                  "requestContext" = Some (ERef c)).
  { unfold item. rewrite Hnew. cbn [mbind option_bind]. unfold d2.
    rewrite !dict_get_set_ne by discriminate. exact Hc. }
  assert (Hold : item (<[c := dict_set "path" (EStr ep) ctx]> h1) e "requestContext"
                 = Some (ERef c)).
  { unfold item. destruct (decide (c = e)) as [<-|Hne].
    - rewrite list_lookup_insert_eq by (unfold h1; rewrite length_app; lia).
      cbn [mbind option_bind]. rewrite dict_get_set_ne by discriminate.
      unfold item in He. rewrite Hctx in He. exact He.
    - rewrite list_lookup_insert_ne by exact Hne. unfold h1.
      rewrite lookup_app_l by exact Hel. exact He. }
  split; [lia|]. split.
  { unfold item. rewrite Hnew. cbn [mbind option_bind]. unfold d2.
    rewrite dict_get_set_ne by discriminate. apply dict_get_set_eq. }
  split; [exact Hrc|]. split.
  - unfold item2. rewrite Hrc. exact Hpath.
  - unfold item2. rewrite Hold. exact Hpath.
Qed.

Lemma two_events_made :
  _get_event 0 "/jobs" (snd (_get_event 0 "/pipelines" event_fixture))
  = (EReturn 4, two_events).
Proof. reflexivity. Qed.

Lemma events_share_request_context_witness :
  exists e' h',
    _get_event 0 "/jobs" (snd (_get_event 0 "/pipelines" event_fixture))
    = (EReturn e', h') /\
    e' <> 2 /\
    item h' e' "path" = Some (EStr "/jobs") /\
    item h' e' "requestContext" = Some (ERef 1) /\
    item2 h' e' "requestContext" "path" = Some (EStr "/jobs") /\
    item2 h' 2 "requestContext" "path" = Some (EStr "/jobs").
Proof.
  apply (events_share_request_context 0 "/jobs"
           (snd (_get_event 0 "/pipelines" event_fixture))
           [("path", EStr "/"); ("httpMethod", EStr "GET"); ("requestContext", ERef 1)]
           1
           [("path", EStr "/pipelines"); ("stage", EStr "test")]
           2); reflexivity.
Defined.

(** X17: whatever its outcome, a call of [_get_event] writes one entry
    of the objects that exist before it: ["path"] of the request context
    of the template. Every other entry of every object reads as before;
    with a request context that is not the template itself, the template
    keeps all its entries. *)
Theorem _get_event_frame t ep (h : heap) o h' r k :
  _get_event t ep h = (o, h') ->
  r < length h ->
  k <> "path" \/
  (forall tmpl, h !! t = Some tmpl -> dict_get "requestContext" tmpl <> Some (ERef r)) ->
  item h' r k = item h r k.
Proof.
  intros H Hr Hk. unfold _get_event in H.
  destruct (h !! t) as [tmpl|] eqn:Ht; [|now injection H as _ <-].
  cbv zeta in H. rewrite !dict_get_set_ne in H by discriminate.
  assert (Happ : forall l, item (h ++ l)%list r k = item h r k).
  { intros l. unfold item. now rewrite lookup_app_l. }
  destruct (dict_get "requestContext" tmpl) as [[s|c|v]|] eqn:Hc;
    try (injection H as _ <-; apply Happ).
  match type of H with context [?l !! c] => destruct (l !! c) as [ctx|] eqn:Hctx end;
    [|injection H as _ <-; apply Happ].
  injection H as _ <-.
  match type of Hctx with ((h ++ ?l)%list !! _ = _) => rewrite <- (Happ l) end.
  destruct (decide (c = r)) as [->|Hne].
  - unfold item. rewrite list_lookup_insert_eq by (eapply lookup_lt_Some; exact Hctx).
    rewrite Hctx. cbn [mbind option_bind].
    destruct Hk as [Hk|Hk]; [|now destruct (Hk _ eq_refl)].
    apply dict_get_set_ne. congruence.
  - unfold item. now rewrite list_lookup_insert_ne.
Qed.

Lemma _get_event_frame_witness :
  item two_events 0 "path" = item (snd (_get_event 0 "/pipelines" event_fixture)) 0 "path".
Proof.
  apply (_get_event_frame 0 "/jobs" (snd (_get_event 0 "/pipelines" event_fixture))
           (EReturn 4) two_events 0 "path" two_events_made).
  - vm_compute. lia.
  - right. intros tmpl Ht. vm_compute in Ht. injection Ht as <-. discriminate.
Defined.
